(** * ApiProber: a shallow embedding of the discovery engine

    The development follows the layout of the Python package:
    - [Py]: the fragment of Python's text operations the package relies on;
    - [Json]: decoded JSON documents and dictionaries;
    - [SchemaExtractor]: [core/schema_extractor.py];
    - [Config]: the effective configuration of [core/config.py];
    - [Database]: [core/database.py], the five tables as lists of rows;
    - [Http]: [core/http_client.py], the request counter and the response record;
    - [Robots]: [core/robots.py];
    - [Discovery]: the spec scanner, the wordlist and pattern probers, the
      method tester and the link follower of [discovery/];
    - [Orchestrator]: [discovery/orchestrator.py].
    The modules [SchemaShape], [LinkShape], [StoreShape], [ScannerShape] and
    [Scenario] hold the vocabulary and the examples of the properties, which
    are proved in [SchemaFacts], [LinkFacts], [DatabaseFacts], [ScannerFacts]
    and [OrchestratorFacts].

    Text is a list of Unicode code points, as a Python [str] is; integers
    are [Z]; Python sets are [gset]; SQL tables are lists of rows in
    insertion order with explicit row ids.  What the engine takes from its
    surroundings (the transport, the robots parser, [json.loads], the regular
    expression engine, files, the clock) enters as section variables. *)

From Stdlib Require Import ZArith NArith Strings.String Strings.Ascii Lia.
From stdpp Require Import base decidable option numbers list sorting gmap.

Set Default Proof Using "Type".
Set Warnings "-clear-no-such-hyp".

(** ** Python text *)

Module Py.

(** A [str] is a sequence of code points. *)
Definition codepoint := N.
Definition str := list N.

(** Source literals are ASCII. *)
Definition lit (s : string) : str :=
  List.map N_of_ascii (list_ascii_of_string s).

(** A one-character literal. *)
Definition cp (a : ascii) : codepoint := N_of_ascii a.

Definition len (s : str) : Z := Z.of_nat (length s).

(** [bool(s)]: a string is truthy iff it is not empty. *)
Definition truthy (s : str) : bool :=
  match s with [] => false | _ :: _ => true end.

(** [s.startswith(p)] *)
Fixpoint startswith (s p : str) {struct p} : bool :=
  match p, s with
  | [], _ => true
  | _ :: _, [] => false
  | c :: p', d :: s' => if N.eqb c d then startswith s' p' else false
  end.

(** [s.endswith(p)] *)
Definition endswith (s p : str) : bool :=
  startswith (rev s) (rev p).

(** [p in s] for strings: [p] occurs in [s] as a substring. *)
Fixpoint contains (s p : str) : bool :=
  startswith s p ||
  match s with
  | [] => false
  | _ :: s' => contains s' p
  end.

(** [s.split(c)[0]] for a one-character separator [c]: the text before
    the first [c], or all of [s] when [c] does not occur. *)
Fixpoint split_head (s : str) (c : codepoint) : str :=
  match s with
  | [] => []
  | d :: s' => if N.eqb d c then [] else d :: split_head s' c
  end.

(** [s.rstrip(c)] for a one-character set [c]. *)
Fixpoint rstrip (s : str) (c : codepoint) : str :=
  match s with
  | [] => []
  | d :: s' =>
      match rstrip s' c with
      | [] => if N.eqb d c then [] else [d]
      | r => d :: r
      end
  end.

(** [s[:n]] *)
Definition slice_to (s : str) (n : nat) : str := take n s.

(** [s[n:]] *)
Definition slice_from (s : str) (n : nat) : str := drop n s.

(** The characters [str.strip()] and [str.split()] treat as white space. *)
Definition is_space (c : codepoint) : bool :=
  ((9 <=? c) && (c <=? 13) || (28 <=? c) && (c <=? 32)
   || (c =? 133) || (c =? 160) || (c =? 5760)
   || (8192 <=? c) && (c <=? 8202)
   || (c =? 8232) || (c =? 8233) || (c =? 8239) || (c =? 8287)
   || (c =? 12288))%N.

Fixpoint lstrip_space (s : str) : str :=
  match s with
  | [] => []
  | c :: s' => if is_space c then lstrip_space s' else s
  end.

(** [s.strip()] *)
Definition strip (s : str) : str :=
  rev (lstrip_space (rev (lstrip_space s))).

(** The first item of [s.split()], when there is one: the first maximal
    run of characters that are not white space. *)
Fixpoint take_token (s : str) : str :=
  match s with
  | [] => []
  | c :: s' => if is_space c then [] else c :: take_token s'
  end.

Definition split_first (s : str) : option str :=
  match lstrip_space s with
  | [] => None
  | t => Some (take_token t)
  end.

(** [s.lower()] on text whose code points are below U+0100 (header values
    are decoded as ISO-8859-1 by the transport): the letters A-Z and the
    capital letters of the Latin-1 supplement move down by 32. *)
Definition lower_cp (c : codepoint) : codepoint :=
  (if (65 <=? c) && (c <=? 90) then c + 32
   else if (192 <=? c) && (c <=? 222) && negb (c =? 215) then c + 32
   else c)%N.

Definition lower (s : str) : str := List.map lower_cp s.

(** [s.upper()] on text whose code points are below U+0100: besides the
    letters that move up by 32, the micro sign and y-diaeresis leave
    Latin-1 and sharp s becomes two letters. *)
Definition upper_cp (c : codepoint) : list codepoint :=
  (if (97 <=? c) && (c <=? 122) then [c - 32]
   else if c =? 181 then [924]
   else if c =? 223 then [83; 83]
   else if (224 <=? c) && (c <=? 254) && negb (c =? 247) then [c - 32]
   else if c =? 255 then [376]
   else [c])%N.

Definition upper (s : str) : str := List.flat_map upper_cp s.

(** [s.replace(c, empty)] for a one-character [c]. *)
Definition remove_cp (s : str) (c : codepoint) : str :=
  List.filter (fun d => negb (N.eqb d c)) s.

(** [s.split(c)] for a one-character separator [c]. *)
Fixpoint split (s : str) (c : codepoint) : list str :=
  match s with
  | [] => [[]]
  | d :: s' =>
      if N.eqb d c then [] :: split s' c
      else match split s' c with
           | [] => [[d]]
           | w :: ws => (d :: w) :: ws
           end
  end.

(** The order of [sorted] on strings, and of SQLite's BINARY collation on
    their UTF-8 encodings: lexicographic by code point. *)
Fixpoint str_leb (s t : str) : bool :=
  match s, t with
  | [], _ => true
  | _ :: _, [] => false
  | c :: s', d :: t' =>
      if N.ltb c d then true
      else if N.eqb c d then str_leb s' t' else false
  end.

Definition str_le (s t : str) : Prop := str_leb s t = true.

#[export] Instance str_le_dec s t : Decision (str_le s t).
Proof. unfold str_le. apply _. Defined.

(** [sorted(xs)] for a list of strings. *)
Definition sorted (xs : list str) : list str := merge_sort str_le xs.

(** [sorted(xs)] for a list of integers. *)
Definition sorted_int (xs : list Z) : list Z := merge_sort Z.le xs.

(** Number of bytes of the UTF-8 encoding of a code point, and of a text. *)
Definition utf8_width (c : codepoint) : nat :=
  if (c <? 128)%N then 1
  else if (c <? 2048)%N then 2
  else if (c <? 65536)%N then 3 else 4.

Definition utf8_len (s : str) : nat :=
  foldr (fun c n => utf8_width c + n) 0 s.

End Py.

(** ** Decoded JSON documents and Python dictionaries *)

Module Json.
Import Py.

(** A dictionary with string keys, in insertion order.  The keys of a
    dictionary are pairwise distinct. *)
Section Dict.
Context {V : Type}.

(** [d.get(k)] *)
Fixpoint dict_get (d : list (str * V)) (k : str) : option V :=
  match d with
  | [] => None
  | (k', v) :: d' => if decide (k' = k) then Some v else dict_get d' k
  end.

(** [k in d] *)
Definition dict_has (d : list (str * V)) (k : str) : bool :=
  match dict_get d k with Some _ => true | None => false end.

(** [d[k] = v] *)
Fixpoint dict_set (d : list (str * V)) (k : str) (v : V) : list (str * V) :=
  match d with
  | [] => [(k, v)]
  | (k', v') :: d' =>
      if decide (k' = k) then (k', v) :: d' else (k', v') :: dict_set d' k v
  end.

(** [d.get(k, default)] *)
Definition dict_get_or (d : list (str * V)) (k : str) (default : V) : V :=
  match dict_get d k with Some v => v | None => default end.
End Dict.

(** What [json.loads] returns: [None], [bool], [int], [float] (its 64
    bits), [str], [list] and [dict]. *)
#[local] Unset Elimination Schemes.
Inductive json : Type :=
  | JNull
  | JBool (b : bool)
  | JInt (n : Z)
  | JFloat (bits : Z)
  | JStr (s : str)
  | JArr (items : list json)
  | JObj (fields : list (str * json)).
#[local] Set Elimination Schemes.

(** Induction over documents, with the hypothesis available for every
    element of an array and every value of an object. *)
Section JsonInd.
Variable P : json -> Prop.
Hypothesis HNull : P JNull.
Hypothesis HBool : forall b, P (JBool b).
Hypothesis HInt : forall n, P (JInt n).
Hypothesis HFloat : forall f, P (JFloat f).
Hypothesis HStr : forall s, P (JStr s).
Hypothesis HArr : forall l, Forall P l -> P (JArr l).
Hypothesis HObj : forall d, Forall (fun kv => P kv.2) d -> P (JObj d).

Fixpoint json_induction (j : json) : P j :=
  match j with
  | JNull => HNull
  | JBool b => HBool b
  | JInt n => HInt n
  | JFloat f => HFloat f
  | JStr s => HStr s
  | JArr l =>
      HArr l ((fix go (l : list json) : Forall P l :=
                 match l with
                 | [] => List.Forall_nil _
                 | x :: l' => @List.Forall_cons _ P x l' (json_induction x) (go l')
                 end) l)
  | JObj d =>
      HObj d ((fix go (d : list (str * json)) : Forall (fun kv => P kv.2) d :=
                 match d with
                 | [] => List.Forall_nil _
                 | (k, v) :: d' =>
                     @List.Forall_cons _ (fun kv => P kv.2) (k, v) d' (json_induction v) (go d')
                 end) d)
  end.
End JsonInd.

(** Truth value of a document, as [if x:] tests it. *)
Definition json_truthy (j : json) : bool :=
  match j with
  | JNull => false
  | JBool b => b
  | JInt n => negb (Z.eqb n 0)
  | JFloat bits => negb (Z.eqb (Z.land bits (Z.ones 63)) 0)
  | JStr s => truthy s
  | JArr l => match l with [] => false | _ => true end
  | JObj d => match d with [] => false | _ => true end
  end.

End Json.

(** ** core/schema_extractor.py *)

Module SchemaExtractor.
Import Py Json.

Definition type_only (label : string) : json :=
  JObj [(lit "type", JStr (lit label))].

(** [extract_schema(data)].  The final [else] branch ([unknown]) is not
    reachable from a decoded document. *)
Fixpoint extract_schema (data : json) : json :=
  match data with
  | JNull => type_only "null"
  | JBool _ => type_only "boolean"
  | JInt _ => type_only "integer"
  | JFloat _ => type_only "number"
  | JStr s =>
      if (0 <? len s)%Z
      then JObj [(lit "type", JStr (lit "string"));
                 (lit "example_length", JInt (len s))]
      else type_only "string"
  | JArr l =>
      match l with
      | [] => JObj [(lit "type", JStr (lit "array"));
                    (lit "length", JInt 0)]
      | x :: _ => JObj [(lit "type", JStr (lit "array"));
                        (lit "length", JInt (Z.of_nat (length l)));
                        (lit "items", extract_schema x)]
      end
  | JObj d =>
      let properties :=
        List.map (fun kv => match kv with (key, value) => (key, extract_schema value) end) d in
      JObj [(lit "type", JStr (lit "object"));
            (lit "properties", JObj properties);
            (lit "field_count", JInt (Z.of_nat (length properties)))]
  end.

Section WithLibraries.
(** [json.loads]; [None] stands for [JSONDecodeError]. *)
Variable json_loads : str -> option json.
(** [re.findall(patterns[i], text, re.IGNORECASE)] for the four patterns
    of [extract_params_from_error], by position. *)
Variable re_findall : nat -> str -> list str.

(** [extract_schema_from_body(body_str)] *)
Definition extract_schema_from_body (body_str : str) : json :=
  if negb (truthy body_str) || negb (truthy (strip body_str)) then JObj []
  else match json_loads body_str with
       | Some data => extract_schema data
       | None => JObj []
       end.

(** [extract_params_from_error(body_str)] *)
Definition extract_params_from_error (body_str : str) : list (str * bool) :=
  if negb (truthy body_str) then []
  else
    List.flat_map
      (fun i =>
         List.map (fun m => (m, true))
           (List.filter (fun m => truthy m && (1 <? len m)%Z) (re_findall i body_str)))
      [0; 1; 2; 3].
End WithLibraries.

Definition hateoas_keys : list str :=
  List.map lit ["href"; "url"; "link"; "self"; "next"; "prev";
                "first"; "last"; "related"]%string.

(** [_walk_for_links(data, links, base_url)]; the set [links] is updated
    in place by the source and returned here. *)
Fixpoint _walk_for_links (data : json) (links : gset str) (base_url : str)
  {struct data} : gset str :=
  match data with
  | JStr s =>
      if startswith s (lit "http://") || startswith s (lit "https://")
      then if truthy base_url && startswith s base_url
           then links ∪ {[ s ]} else links
      else if startswith s (lit "/") && negb (startswith s (lit "//"))
           then links ∪ {[ s ]} else links
  | JObj d =>
      (* [if key in data: _walk_for_links(data[key], ...)] *)
      let walk_key :=
        fix walk_key (key : str) (d : list (str * json)) (links : gset str) :=
          match d with
          | [] => links
          | (k, v) :: d' =>
              if decide (k = key) then _walk_for_links v links base_url
              else walk_key key d' links
          end in
      (* [for value in data.values()] *)
      let walk_values :=
        fix walk_values (d : list (str * json)) (links : gset str) :=
          match d with
          | [] => links
          | (_, v) :: d' => walk_values d' (_walk_for_links v links base_url)
          end in
      let links := fold_left (fun acc key => walk_key key d acc) hateoas_keys links in
      let links := walk_key (lit "_links") d links in
      walk_values d links
  | JArr l =>
      (* [for item in data[:50]] *)
      let walk_items :=
        fix walk_items (n : nat) (l : list json) (links : gset str) :=
          match n, l with
          | S n', item :: l' => walk_items n' l' (_walk_for_links item links base_url)
          | _, _ => links
          end in
      walk_items 50 l links
  | _ => links
  end.

(** [extract_links_from_json(data, base_url)] *)
Definition extract_links_from_json (data : json) (base_url : str) : gset str :=
  _walk_for_links data ∅ base_url.

End SchemaExtractor.

(** ** core/config.py: the effective configuration

    The configuration is a dictionary read with [config.get(key, default)];
    the record holds the value each read yields. *)

Module Config.
Import Py.

Record Config := {
  delay_ms : Z;
  max_requests : Z;
  (** the number of rounds [range(max_depth)] makes *)
  max_depth : nat;
  user_agent : str;
  respect_robots_txt : bool;
  skip_destructive : bool;
  strategies : list str;
  wordlists : list str;
  (** the text [f"{v}"] of each configured version *)
  pattern_versions : list str;
  pattern_resources : list str
}.

End Config.

(** ** core/database.py *)

Module Database.
Import Py Json.

(** One record per table; a column holding JSON text is modelled by the
    document it encodes. [INTEGER] flags are booleans. *)
Record ServiceRow := {
  svc_id : nat;
  svc_name : str;
  svc_base_url : str;
  svc_description : str;
  svc_discovered_at : str;
  svc_last_probed : option str;
  svc_server_header : str;
  svc_robots_txt : str;
  svc_metadata_json : list (str * json)
}.

Record EndpointRow := {
  ep_id : nat;
  ep_service_id : nat;
  ep_path : str;
  ep_methods_json : list str;
  ep_status_codes_json : list Z;
  ep_auth_required : bool;
  ep_auth_type_hint : str;
  ep_content_types_json : list str;
  ep_discovered_by : str
}.

Record ResponseRow := {
  rsp_id : nat;
  rsp_endpoint_id : nat;
  rsp_method : str;
  rsp_status_code : Z;
  rsp_headers_json : list (str * str);
  rsp_body_schema_json : json;
  rsp_body_sample : str;
  rsp_content_type : str;
  rsp_elapsed_ms : Z
}.

Record ParameterRow := {
  par_id : nat;
  par_endpoint_id : nat;
  par_name : str;
  par_param_type : str;
  par_location : str;
  par_required : bool;
  par_example_value : str
}.

Record ProbeRunRow := {
  run_id : nat;
  run_service_id : nat;
  run_started_at : str;
  run_finished_at : option str;
  run_status : str;
  run_config_json : option Config.Config;
  run_total_requests : Z;
  run_endpoints_found : Z;
  run_progress_json : json
}.

(** The database file: the rows of each table in row-id order, and the
    largest row id each [AUTOINCREMENT] column has handed out. *)
Record Db := {
  services : list ServiceRow;
  endpoints : list EndpointRow;
  responses : list ResponseRow;
  parameters : list ParameterRow;
  probe_runs : list ProbeRunRow;
  seq_services : nat;
  seq_endpoints : nat;
  seq_responses : nat;
  seq_parameters : nat;
  seq_probe_runs : nat
}.

(** What [_ensure_tables] leaves on a new file. *)
Definition empty_db : Db :=
  {| services := []; endpoints := []; responses := []; parameters := [];
     probe_runs := []; seq_services := 0; seq_endpoints := 0;
     seq_responses := 0; seq_parameters := 0; seq_probe_runs := 0 |}.

(** [UPDATE t SET ... WHERE p] *)
Definition update_where {R : Type} (p : R -> bool) (f : R -> R) (rows : list R) : list R :=
  List.map (fun r => if p r then f r else r) rows.

(** *** Services *)

(** [upsert_service(name, base_url, description, server_header, robots_txt,
    metadata)]; [now] is the clock reading. An absent [metadata] is the
    empty dictionary. *)
Definition upsert_service (now : str) (db : Db) (name base_url description
    server_header robots_txt : str) (metadata : list (str * json)) : nat * Db :=
  let meta_json := metadata in
  match List.find (fun r => bool_decide (svc_name r = name)) (services db) with
  | Some existing =>
      let merge (r : ServiceRow) : ServiceRow :=
        {| svc_id := svc_id r;
           svc_name := svc_name r;
           svc_base_url := base_url;
           svc_description :=
             if bool_decide (description ≠ []) then description else svc_description r;
           svc_discovered_at := svc_discovered_at r;
           svc_last_probed := svc_last_probed r;
           svc_server_header :=
             if bool_decide (server_header ≠ []) then server_header else svc_server_header r;
           svc_robots_txt :=
             if bool_decide (robots_txt ≠ []) then robots_txt else svc_robots_txt r;
           svc_metadata_json :=
             if bool_decide (meta_json ≠ []) then meta_json else svc_metadata_json r |} in
      (svc_id existing,
       {| services := update_where (fun r => bool_decide (svc_name r = name)) merge (services db);
          endpoints := endpoints db; responses := responses db;
          parameters := parameters db; probe_runs := probe_runs db;
          seq_services := seq_services db; seq_endpoints := seq_endpoints db;
          seq_responses := seq_responses db; seq_parameters := seq_parameters db;
          seq_probe_runs := seq_probe_runs db |})
  | None =>
      let new_id := S (seq_services db) in
      let row :=
        {| svc_id := new_id; svc_name := name; svc_base_url := base_url;
           svc_description := description; svc_discovered_at := now;
           svc_last_probed := None; svc_server_header := server_header;
           svc_robots_txt := robots_txt; svc_metadata_json := meta_json |} in
      (new_id,
       {| services := services db ++ [row];
          endpoints := endpoints db; responses := responses db;
          parameters := parameters db; probe_runs := probe_runs db;
          seq_services := new_id; seq_endpoints := seq_endpoints db;
          seq_responses := seq_responses db; seq_parameters := seq_parameters db;
          seq_probe_runs := seq_probe_runs db |})
  end.

(** [get_service(name)] *)
Definition get_service (db : Db) (name : str) : option ServiceRow :=
  List.find (fun r => bool_decide (svc_name r = name)) (services db).

(** [update_service_last_probed(service_id)] *)
Definition update_service_last_probed (now : str) (db : Db) (service_id : nat) : Db :=
  let touch (r : ServiceRow) : ServiceRow :=
    {| svc_id := svc_id r; svc_name := svc_name r; svc_base_url := svc_base_url r;
       svc_description := svc_description r; svc_discovered_at := svc_discovered_at r;
       svc_last_probed := Some now; svc_server_header := svc_server_header r;
       svc_robots_txt := svc_robots_txt r; svc_metadata_json := svc_metadata_json r |} in
  {| services := update_where (fun r => bool_decide (svc_id r = service_id)) touch (services db);
     endpoints := endpoints db; responses := responses db;
     parameters := parameters db; probe_runs := probe_runs db;
     seq_services := seq_services db; seq_endpoints := seq_endpoints db;
     seq_responses := seq_responses db; seq_parameters := seq_parameters db;
     seq_probe_runs := seq_probe_runs db |}.

(** *** Endpoints *)

(** [old = set(json.loads(column)); if incoming: old.update(incoming);
    json.dumps(sorted(old))] *)
Definition merge_sorted (column incoming : list str) : list str :=
  let old : gset str := list_to_set column in
  let old := if bool_decide (incoming ≠ []) then old ∪ list_to_set incoming else old in
  sorted (elements old).

Definition merge_sorted_int (column incoming : list Z) : list Z :=
  let old : gset Z := list_to_set column in
  let old := if bool_decide (incoming ≠ []) then old ∪ list_to_set incoming else old in
  sorted_int (elements old).

Definition with_endpoints (db : Db) (eps : list EndpointRow) (seq : nat) : Db :=
  {| services := services db; endpoints := eps; responses := responses db;
     parameters := parameters db; probe_runs := probe_runs db;
     seq_services := seq_services db; seq_endpoints := seq;
     seq_responses := seq_responses db; seq_parameters := seq_parameters db;
     seq_probe_runs := seq_probe_runs db |}.

Definition same_endpoint (service_id : nat) (path : str) (r : EndpointRow) : bool :=
  bool_decide (ep_service_id r = service_id) && bool_decide (ep_path r = path).

(** [upsert_endpoint(service_id, path, methods, status_codes, auth_required,
    auth_type_hint, content_types, discovered_by)]; an absent list argument
    is the empty list. *)
Definition upsert_endpoint (db : Db) (service_id : nat) (path : str)
    (methods : list str) (status_codes : list Z) (auth_required : bool)
    (auth_type_hint : str) (content_types : list str) (discovered_by : str)
  : nat * Db :=
  match List.find (same_endpoint service_id path) (endpoints db) with
  | Some existing =>
      let merge (r : EndpointRow) : EndpointRow :=
        {| ep_id := ep_id r;
           ep_service_id := ep_service_id r;
           ep_path := ep_path r;
           ep_methods_json := merge_sorted (ep_methods_json existing) methods;
           ep_status_codes_json := merge_sorted_int (ep_status_codes_json existing) status_codes;
           ep_auth_required := if auth_required then true else ep_auth_required r;
           ep_auth_type_hint :=
             if bool_decide (auth_type_hint ≠ []) then auth_type_hint else ep_auth_type_hint r;
           ep_content_types_json := merge_sorted (ep_content_types_json existing) content_types;
           ep_discovered_by := ep_discovered_by r |} in
      (ep_id existing,
       with_endpoints db
         (update_where (fun r => bool_decide (ep_id r = ep_id existing)) merge (endpoints db))
         (seq_endpoints db))
  | None =>
      let new_id := S (seq_endpoints db) in
      let row :=
        {| ep_id := new_id; ep_service_id := service_id; ep_path := path;
           ep_methods_json := sorted methods;
           ep_status_codes_json := sorted_int status_codes;
           ep_auth_required := if auth_required then true else false;
           ep_auth_type_hint := auth_type_hint;
           ep_content_types_json := sorted content_types;
           ep_discovered_by := discovered_by |} in
      (new_id, with_endpoints db (endpoints db ++ [row]) new_id)
  end.

Definition ep_path_le (r1 r2 : EndpointRow) : Prop := str_le (ep_path r1) (ep_path r2).

#[export] Instance ep_path_le_dec r1 r2 : Decision (ep_path_le r1 r2).
Proof. unfold ep_path_le. apply _. Defined.

(** [get_endpoints(service_id)]: [... ORDER BY path] *)
Definition get_endpoints (db : Db) (service_id : nat) : list EndpointRow :=
  merge_sort ep_path_le
    (List.filter (fun r => bool_decide (ep_service_id r = service_id)) (endpoints db)).

(** [get_endpoint_paths(service_id)] *)
Definition get_endpoint_paths (db : Db) (service_id : nat) : gset str :=
  list_to_set
    (List.map ep_path
       (List.filter (fun r => bool_decide (ep_service_id r = service_id)) (endpoints db))).

(** *** Responses *)

(** [add_response(endpoint_id, method, status_code, headers, body_schema,
    body_sample, content_type, elapsed_ms)].  [len] and the slice count
    characters of the [str]; the column stores its UTF-8 encoding.  The
    foreign key is enforced: [endpoint_id] is the id of a stored endpoint. *)
Definition add_response (db : Db) (endpoint_id : nat) (method : str)
    (status_code : Z) (headers : list (str * str)) (body_schema : json)
    (body_sample content_type : str) (elapsed_ms : Z) : Db :=
  let body_sample :=
    if (2048 <? len body_sample)%Z then slice_to body_sample 2048 else body_sample in
  let new_id := S (seq_responses db) in
  let row :=
    {| rsp_id := new_id; rsp_endpoint_id := endpoint_id; rsp_method := method;
       rsp_status_code := status_code; rsp_headers_json := headers;
       rsp_body_schema_json := if json_truthy body_schema then body_schema else JObj [];
       rsp_body_sample := body_sample; rsp_content_type := content_type;
       rsp_elapsed_ms := elapsed_ms |} in
  {| services := services db; endpoints := endpoints db;
     responses := responses db ++ [row];
     parameters := parameters db; probe_runs := probe_runs db;
     seq_services := seq_services db; seq_endpoints := seq_endpoints db;
     seq_responses := new_id; seq_parameters := seq_parameters db;
     seq_probe_runs := seq_probe_runs db |}.

Definition rsp_method_le (r1 r2 : ResponseRow) : Prop :=
  str_le (rsp_method r1) (rsp_method r2).

#[export] Instance rsp_method_le_dec r1 r2 : Decision (rsp_method_le r1 r2).
Proof. unfold rsp_method_le. apply _. Defined.

(** [get_responses(endpoint_id)]: [... ORDER BY method] *)
Definition get_responses (db : Db) (endpoint_id : nat) : list ResponseRow :=
  merge_sort rsp_method_le
    (List.filter (fun r => bool_decide (rsp_endpoint_id r = endpoint_id)) (responses db)).

(** *** Parameters *)

Definition same_parameter (endpoint_id : nat) (name location : str)
    (r : ParameterRow) : bool :=
  bool_decide (par_endpoint_id r = endpoint_id)
  && bool_decide (par_name r = name) && bool_decide (par_location r = location).

(** [upsert_parameter(endpoint_id, name, param_type, location, required,
    example_value)] *)
Definition upsert_parameter (db : Db) (endpoint_id : nat) (name param_type
    location : str) (required : bool) (example_value : str) : Db :=
  let with_parameters (ps : list ParameterRow) (seq : nat) : Db :=
    {| services := services db; endpoints := endpoints db;
       responses := responses db; parameters := ps; probe_runs := probe_runs db;
       seq_services := seq_services db; seq_endpoints := seq_endpoints db;
       seq_responses := seq_responses db; seq_parameters := seq;
       seq_probe_runs := seq_probe_runs db |} in
  match List.find (same_parameter endpoint_id name location) (parameters db) with
  | Some _ =>
      let merge (r : ParameterRow) : ParameterRow :=
        {| par_id := par_id r; par_endpoint_id := par_endpoint_id r;
           par_name := par_name r;
           par_param_type := param_type;
           par_location := par_location r;
           par_required := if required then true else par_required r;
           par_example_value :=
             if bool_decide (example_value ≠ []) then example_value
             else par_example_value r |} in
      with_parameters
        (update_where (same_parameter endpoint_id name location) merge (parameters db))
        (seq_parameters db)
  | None =>
      let new_id := S (seq_parameters db) in
      let row :=
        {| par_id := new_id; par_endpoint_id := endpoint_id; par_name := name;
           par_param_type := param_type; par_location := location;
           par_required := if required then true else false;
           par_example_value := example_value |} in
      with_parameters (parameters db ++ [row]) new_id
  end.

(** *** Probe runs *)

Definition with_probe_runs (db : Db) (rs : list ProbeRunRow) (seq : nat) : Db :=
  {| services := services db; endpoints := endpoints db;
     responses := responses db; parameters := parameters db; probe_runs := rs;
     seq_services := seq_services db; seq_endpoints := seq_endpoints db;
     seq_responses := seq_responses db; seq_parameters := seq_parameters db;
     seq_probe_runs := seq |}.

(** [create_probe_run(service_id, config)]; the columns not named by the
    [INSERT] take their defaults. *)
Definition create_probe_run (now : str) (db : Db) (service_id : nat)
    (config : option Config.Config) : nat * Db :=
  let new_id := S (seq_probe_runs db) in
  let row :=
    {| run_id := new_id; run_service_id := service_id; run_started_at := now;
       run_finished_at := None; run_status := lit "running";
       run_config_json := config; run_total_requests := 0;
       run_endpoints_found := 0; run_progress_json := JObj [] |} in
  (new_id, with_probe_runs db (probe_runs db ++ [row]) new_id).

(** [status in ("completed", "stopped", "error")] *)
Definition is_terminal (status : str) : bool :=
  bool_decide (status = lit "completed") || bool_decide (status = lit "stopped")
  || bool_decide (status = lit "error").

(** The [SET] clauses [update_probe_run] collects, applied to one row. *)
Definition set_probe_run (now : str) (status : option str)
    (total_requests endpoints_found : option Z) (progress : option json)
    (r : ProbeRunRow) : ProbeRunRow :=
  {| run_id := run_id r;
     run_service_id := run_service_id r;
     run_started_at := run_started_at r;
     run_finished_at :=
       match status with
       | Some s => if is_terminal s then Some now else run_finished_at r
       | None => run_finished_at r
       end;
     run_status := match status with Some s => s | None => run_status r end;
     run_config_json := run_config_json r;
     run_total_requests :=
       match total_requests with Some n => n | None => run_total_requests r end;
     run_endpoints_found :=
       match endpoints_found with Some n => n | None => run_endpoints_found r end;
     run_progress_json :=
       match progress with Some p => p | None => run_progress_json r end |}.

(** [update_probe_run(run_id, status, total_requests, endpoints_found,
    progress)]; [None] is an argument left out. *)
Definition update_probe_run (now : str) (db : Db) (run : nat) (status : option str)
    (total_requests endpoints_found : option Z) (progress : option json) : Db :=
  match status, total_requests, endpoints_found, progress with
  | None, None, None, None => db
  | _, _, _, _ =>
      with_probe_runs db
        (update_where (fun r => bool_decide (run_id r = run))
           (set_probe_run now status total_requests endpoints_found progress)
           (probe_runs db))
        (seq_probe_runs db)
  end.

(** [get_last_probe_run(service_id)]: [... ORDER BY id DESC LIMIT 1] *)
Definition get_last_probe_run (db : Db) (service_id : nat) : option ProbeRunRow :=
  List.find (fun r => bool_decide (run_service_id r = service_id)) (rev (probe_runs db)).

End Database.

(** ** core/http_client.py *)

Module Http.
Import Py Json.

(** [HttpResponse] *)
Record HttpResponse := {
  url : str;
  method : str;
  status_code : Z;
  headers : list (str * str);
  body : str;
  content_type : str;
  elapsed_ms : Z;
  error : str;
  is_json : bool
}.

(** The property [ok] *)
Definition ok (r : HttpResponse) : bool :=
  (200 <=? status_code r)%Z && (status_code r <? 400)%Z.

(** What [urlopen] does with a request: it returns a response, raises
    [HTTPError] with a status, headers and a body, or fails without a
    status (the client catches every exception of [urlopen]).  Bodies are
    given decoded. *)
Inductive Reply :=
  | Returned (status : Z) (hdrs : list (str * str)) (text : str) (ms : Z)
  | HttpError (code : Z) (hdrs : list (str * str)) (text : str) (ms : Z) (msg : str)
  | Failed (reason : str) (ms : Z).

(** The transport, which stands for [urllib] and the network.
    [builds u] says whether [urllib.request.Request(u, ...)] returns: for a
    URL it finds no scheme in, it raises [ValueError].  [reply n m u] is the
    reply to the [n]-th request handed to [urlopen] (counted from 0), by
    method and URL.  The headers the client adds (user agent, credentials)
    are part of what the transport stands for. *)
Record Transport := {
  builds : str -> bool;
  reply : nat -> str -> str -> Reply
}.

(** A transport for URLs that all carry a scheme. *)
Definition serving (answer : nat -> str -> str -> Reply) : Transport :=
  {| builds := fun _ => true; reply := answer |}.

(** [HttpClient]: the delay, the request counter, and, as a ghost field,
    the requests handed to [urlopen] so far as (method, URL), oldest first.
    The sleep of [_rate_limit] is not modelled. *)
Record HttpClient := {
  delay_ms : Z;
  _request_count : Z;
  issued : list (str * str)
}.

Definition new_client (delay : Z) : HttpClient :=
  {| delay_ms := delay; _request_count := 0; issued := [] |}.

(** The property [request_count] *)
Definition request_count (c : HttpClient) : Z := _request_count c.

Definition set_delay_ms (c : HttpClient) (d : Z) : HttpClient :=
  {| delay_ms := d; _request_count := _request_count c; issued := issued c |}.

(** Computations that use the client: they return a value or raise an
    exception ([None]); what they did to the client stays done. *)
Definition M (A : Type) : Type := HttpClient -> option A * HttpClient.

Definition ret {A} (a : A) : M A := fun c => (Some a, c).

Definition bind {A B} (m : M A) (k : A -> M B) : M B :=
  fun c =>
    match m c with
    | (Some a, c') => k a c'
    | (None, c') => (None, c')
    end.

(** An exception that is not caught. *)
Definition raise {A} : M A := fun c => (None, c).

(** Reading [client.request_count]. *)
Definition get_request_count : M Z := fun c => (Some (request_count c), c).

Section WithTransport.
Variable transport : Transport.

(** The [HttpResponse] that [request] builds from what [urlopen] does
    with the [n]-th request. *)
Definition receive (n : nat) (u m : str) : HttpResponse :=
  match reply transport n m u with
  | Returned status hdrs text ms =>
      let ct := dict_get_or hdrs (lit "Content-Type") [] in
      {| url := u; method := m; status_code := status; headers := hdrs;
         body := text; content_type := ct; elapsed_ms := ms; error := [];
         is_json := contains (lower ct) (lit "json") |}
  | HttpError code hdrs text ms msg =>
      let ct := dict_get_or hdrs (lit "Content-Type") [] in
      {| url := u; method := m; status_code := code; headers := hdrs;
         body := text; content_type := ct; elapsed_ms := ms; error := msg;
         is_json := contains (lower ct) (lit "json") |}
  | Failed reason ms =>
      {| url := u; method := m; status_code := 0; headers := [];
         body := []; content_type := []; elapsed_ms := ms; error := reason;
         is_json := false |}
  end.

(** [request(url, method)]: the [Request] is built outside the [try], so
    its [ValueError] leaves the method before the counter is incremented;
    the counter is incremented just before [urlopen] is called. *)
Definition request (u m : str) : M HttpResponse := fun c =>
  if builds transport u
  then (Some (receive (length (issued c)) u m),
        {| delay_ms := delay_ms c;
           _request_count := (_request_count c + 1)%Z;
           issued := issued c ++ [(m, u)] |})
  else (None, c).

Definition head (u : str) : M HttpResponse := request u (lit "HEAD").
Definition get (u : str) : M HttpResponse := request u (lit "GET").
Definition options (u : str) : M HttpResponse := request u (lit "OPTIONS").
End WithTransport.

End Http.

Declare Scope client_scope.
Delimit Scope client_scope with client.
Notation "x <- m ;; k" := (Http.bind m (fun x => k))
  (at level 100, m at next level, right associativity) : client_scope.

(** ** core/robots.py *)

Module Robots.
Import Py.

(** A [RobotsChecker] after [load()]: the base URL, the user agent, and
    the text that was fetched ([None] when the fetch failed, after which the
    parser holds no rule). *)
Record RobotsChecker := {
  base_url : str;
  user_agent : str;
  raw : option str
}.

Section WithParser.
(** [RobotFileParser]: [can_fetch text agent url] is the answer of
    [can_fetch(agent, url)] after [parse(text.splitlines())], and
    [parser_crawl_delay text agent] that of [crawl_delay(agent)]. *)
Variable can_fetch : str -> str -> str -> bool.
Variable parser_crawl_delay : str -> str -> option Z.

(** [is_allowed(path)] *)
Definition is_allowed (rc : RobotsChecker) (path : str) : bool :=
  match raw rc with
  | Some text => can_fetch text (user_agent rc) (base_url rc ++ path)
  | None => true
  end.

(** The property [crawl_delay] *)
Definition crawl_delay (rc : RobotsChecker) : option Z :=
  match raw rc with
  | Some text => parser_crawl_delay text (user_agent rc)
  | None => None
  end.

(** [robots_checker and not robots_checker.is_allowed(path)] *)
Definition denied (robots_checker : option RobotsChecker) (path : str) : bool :=
  match robots_checker with
  | Some rc => negb (is_allowed rc path)
  | None => false
  end.
End WithParser.

End Robots.

(** ** discovery/: the strategies *)

Module Discovery.
Import Py Json Http Robots SchemaExtractor Database.
#[local] Open Scope client_scope.

(** *** discovery/openapi_detect.py *)

Definition SWAGGER_PATHS : list str :=
  List.map lit
    ["/swagger.json"; "/openapi.json"; "/api-docs";
     "/api-docs.json"; "/swagger.yaml"; "/openapi.yaml";
     "/docs"; "/swagger"; "/swagger-ui";
     "/api/swagger.json"; "/api/openapi.json";
     "/v1/swagger.json"; "/v2/swagger.json";
     "/.well-known/openapi"]%string.

(** An entry of the list [extract_endpoints_from_spec] returns. *)
Record SpecParam := {
  sp_name : str;
  sp_location : str;
  sp_required : bool;
  sp_type : str
}.

Record SpecEndpoint := {
  se_path : str;
  se_methods : list str;
  se_description : str;
  se_parameters : list SpecParam
}.

(** [_normalize_link(link, base_url)] of discovery/response_driven.py *)
Definition _normalize_link (link base_url : str) : option str :=
  let link :=
    if startswith link base_url then slice_from link (length base_url) else link in
  let link :=
    if negb (startswith link (lit "/")) then lit "/" ++ link else link in
  let link :=
    if contains link (lit "?") then split_head link (cp "?") else link in
  let link :=
    if contains link (lit "#") then split_head link (cp "#") else link in
  let link :=
    if bool_decide (link ≠ lit "/") && endswith link (lit "/")
    then rstrip link (cp "/") else link in
  if truthy link then Some link else None.

(** [known = known_paths or set()]: an empty [known_paths] is replaced by a
    new set, and the caller's set stays empty; otherwise the additions to
    [known] are additions to the caller's set. *)
Definition caller_view (known_paths known : gset str) : gset str :=
  if decide (known_paths = ∅) then known_paths else known.

(** [resp.status_code > 0 and resp.status_code != 404] *)
Definition found (resp : HttpResponse) : bool :=
  (0 <? status_code resp)%Z && negb (status_code resp =? 404)%Z.

(** What [test_methods] returns. *)
Record MethodInfo := {
  mi_methods : list str;
  mi_status_codes : list (str * Z);
  mi_auth_required : bool;
  mi_auth_type_hint : str;
  mi_allow_header : str;
  mi_content_types : list str
}.

(** The accumulators of the loop of [test_methods]. *)
Record MethodAcc := {
  supported : list str;
  status_codes : list (str * Z);
  auth_required : bool;
  auth_type_hint : str;
  allow_header : str;
  content_types : gset str
}.

Definition SAFE_METHODS : list str := List.map lit ["GET"; "HEAD"; "OPTIONS"]%string.
Definition ALL_METHODS : list str :=
  List.map lit ["GET"; "HEAD"; "OPTIONS"; "POST"; "PUT"; "PATCH"; "DELETE"]%string.

(** [supported.append(m)] unless [m] is there. *)
Definition append_new (supported : list str) (m : str) : list str :=
  if bool_decide (m ∈ supported) then supported else supported ++ [m].

(** The hint [test_methods] draws from a non-empty [WWW-Authenticate]
    value.  The last branch takes [www_auth.split()[0]], which raises
    [IndexError] ([None]) for a value that is all white space. *)
Definition method_auth_hint (www_auth : str) : option str :=
  if contains (lower www_auth) (lit "bearer") then Some (lit "bearer")
  else if contains (lower www_auth) (lit "basic") then Some (lit "basic")
  else if contains (lower www_auth) (lit "api") then Some (lit "api_key")
  else split_first www_auth.

(** [ct = resp.content_type.split(";")[0].strip()] *)
Definition media_type (content_type : str) : str :=
  strip (split_head content_type (cp ";")).

(** The body of the loop of [test_methods], after the request; [None]
    when it raises. *)
Definition test_methods_step (m : str) (resp : HttpResponse) (a : MethodAcc)
  : option MethodAcc :=
  if (status_code resp =? 0)%Z then Some a
  else
    let status_codes := dict_set (status_codes a) m (status_code resp) in
    let '(allow_header, supported) :=
      if bool_decide (m = lit "OPTIONS") && dict_has (headers resp) (lit "Allow")
      then
        let allow := dict_get_or (headers resp) (lit "Allow") [] in
        (allow,
         fold_left
           (fun supported m =>
              let m := upper (strip m) in
              if truthy m then append_new supported m else supported)
           (split (remove_cp allow (cp " ")) (cp ","))
           (supported a))
      else (allow_header a, supported a) in
    let supported :=
      if negb (bool_decide (status_code resp ∈ [404; 405; 501]%Z))
      then append_new supported m else supported in
    let '(auth_required, auth_type_hint) :=
      if bool_decide (status_code resp ∈ [401; 403]%Z)
      then
        let www_auth := dict_get_or (headers resp) (lit "WWW-Authenticate") [] in
        (true,
         if truthy www_auth then method_auth_hint www_auth
         else Some (auth_type_hint a))
      else (auth_required a, Some (auth_type_hint a)) in
    let content_types :=
      if truthy (content_type resp)
      then let ct := media_type (content_type resp) in
           if truthy ct then content_types a ∪ {[ ct ]} else content_types a
      else content_types a in
    match auth_type_hint with
    | Some auth_type_hint =>
        Some {| supported := supported; status_codes := status_codes;
                auth_required := auth_required; auth_type_hint := auth_type_hint;
                allow_header := allow_header; content_types := content_types |}
    | None => None
    end.

Section WithEnvironment.
Variable transport : Transport.
Variable can_fetch : str -> str -> str -> bool.
Variable json_loads : str -> option json.
(** The lines of a file of the [wordlists] directory, without their line
    ends; [None] when there is no such file. *)
Variable read_lines : str -> option (list str).

(** [_try_parse_spec(body)] *)
Definition _try_parse_spec (body : str) : option json :=
  match json_loads body with
  | Some (JObj data) =>
      if dict_has data (lit "paths") || dict_has data (lit "swagger")
         || dict_has data (lit "openapi")
      then Some (JObj data) else None
  | _ => None
  end.

(** The loop of [detect_openapi] over the paths still to try. *)
Fixpoint detect_openapi_from (base_url : str) (robots_checker : option RobotsChecker)
    (paths : list str) : M (option (str * json)) :=
  match paths with
  | [] => ret None
  | path :: rest =>
      if denied can_fetch robots_checker path
      then detect_openapi_from base_url robots_checker rest
      else
        let u := base_url ++ path in
        resp <- get transport u ;;
        if ok resp && truthy (body resp)
        then match _try_parse_spec (body resp) with
             | Some spec =>
                 if json_truthy spec then ret (Some (u, spec))
                 else detect_openapi_from base_url robots_checker rest
             | None => detect_openapi_from base_url robots_checker rest
             end
        else detect_openapi_from base_url robots_checker rest
  end.

(** [detect_openapi(client, base_url, robots_checker)] *)
Definition detect_openapi (base_url : str) (robots_checker : option RobotsChecker)
  : M (option (str * json)) :=
  let base_url := rstrip base_url (cp "/") in
  detect_openapi_from base_url robots_checker SWAGGER_PATHS.

(** *** discovery/wordlist.py *)

(** [load_wordlist(wordlist_name)] *)
Definition load_wordlist (wordlist_name : str) : list str :=
  match read_lines wordlist_name with
  | None => []
  | Some lines =>
      List.filter (fun line => truthy line && negb (startswith line (lit "#")))
        (List.map strip lines)
  end.

(** The loops of [load_all_wordlists]: first occurrences, in order. *)
Fixpoint first_seen (seen : gset str) (paths : list str) : list str :=
  match paths with
  | [] => []
  | path :: rest =>
      if decide (path ∈ seen) then first_seen seen rest
      else path :: first_seen (seen ∪ {[ path ]}) rest
  end.

(** [load_all_wordlists(wordlist_names)] for a list of names *)
Definition load_all_wordlists (wordlist_names : list str) : list str :=
  first_seen ∅ (List.flat_map load_wordlist wordlist_names).

(** The loop that [probe_wordlist] and [probe_patterns] both run over
    their paths: [HEAD], then [GET] when the answer is 405. *)
Fixpoint probe_each (base_url : str) (robots_checker : option RobotsChecker)
    (max_requests : Z) (paths : list str) (known : gset str)
    (results : list (str * HttpResponse))
  : M (list (str * HttpResponse) * gset str) :=
  match paths with
  | [] => ret (results, known)
  | path :: rest =>
      n <- get_request_count ;;
      if negb (max_requests =? 0)%Z && (max_requests <=? n)%Z
      then ret (results, known)
      else if decide (path ∈ known)
      then probe_each base_url robots_checker max_requests rest known results
      else if denied can_fetch robots_checker path
      then probe_each base_url robots_checker max_requests rest known results
      else
        let u := base_url ++ path in
        resp <- head transport u ;;
        resp <- (if (status_code resp =? 405)%Z then get transport u else ret resp) ;;
        if found resp
        then probe_each base_url robots_checker max_requests rest
               (known ∪ {[ path ]}) (results ++ [(path, resp)])
        else probe_each base_url robots_checker max_requests rest known results
  end.

(** [probe_wordlist(client, base_url, wordlist_names, robots_checker,
    known_paths, callback, max_requests)]; the second component is the
    caller's [known_paths] after the call.  The callback prints and counts;
    its count is never read. *)
Definition probe_wordlist (base_url : str) (wordlist_names : list str)
    (robots_checker : option RobotsChecker) (known_paths : gset str)
    (max_requests : Z) : M (list (str * HttpResponse) * gset str) :=
  let base_url := rstrip base_url (cp "/") in
  let paths := load_all_wordlists wordlist_names in
  out <- probe_each base_url robots_checker max_requests paths known_paths [] ;;
  let '(results, known) := out in
  ret (results, caller_view known_paths known).

(** *** discovery/pattern.py *)

(** [generate_patterns(config)] *)
Definition generate_patterns (config : Config.Config) : list str :=
  let versions := Config.pattern_versions config in
  let resources := Config.pattern_resources config in
  let per_version (prefix : str) : list str :=
    List.flat_map
      (fun v => List.map (fun res => prefix ++ v ++ lit "/" ++ res) resources)
      versions in
  let paths : gset str :=
    list_to_set (per_version (lit "/api/v"))
    ∪ list_to_set (per_version (lit "/v"))
    ∪ list_to_set (List.map (fun res => lit "/" ++ res) resources)
    ∪ list_to_set (List.map (fun res => lit "/" ++ res ++ lit "/1") resources)
    ∪ list_to_set (List.map (fun res => lit "/api/" ++ res) resources) in
  sorted (elements paths).

(** [probe_patterns(client, base_url, config, robots_checker, known_paths,
    callback, max_requests)] *)
Definition probe_patterns (base_url : str) (config : Config.Config)
    (robots_checker : option RobotsChecker) (known_paths : gset str)
    (max_requests : Z) : M (list (str * HttpResponse) * gset str) :=
  let base_url := rstrip base_url (cp "/") in
  let paths := generate_patterns config in
  out <- probe_each base_url robots_checker max_requests paths known_paths [] ;;
  let '(results, known) := out in
  ret (results, caller_view known_paths known).

(** *** discovery/method_tester.py *)

Fixpoint test_methods_loop (u : str) (methods_to_test : list str) (a : MethodAcc)
  : M MethodAcc :=
  match methods_to_test with
  | [] => ret a
  | m :: rest =>
      resp <- request transport u m ;;
      match test_methods_step m resp a with
      | Some a => test_methods_loop u rest a
      | None => raise
      end
  end.

(** [test_methods(client, base_url, path, skip_destructive)] *)
Definition test_methods (base_url path : str) (skip_destructive : bool)
  : M MethodInfo :=
  let base_url := rstrip base_url (cp "/") in
  let u := base_url ++ path in
  let methods_to_test := if skip_destructive then SAFE_METHODS else ALL_METHODS in
  a <- test_methods_loop u methods_to_test
         {| supported := []; status_codes := []; auth_required := false;
            auth_type_hint := []; allow_header := []; content_types := ∅ |} ;;
  ret {| mi_methods := sorted (supported a);
         mi_status_codes := status_codes a;
         mi_auth_required := auth_required a;
         mi_auth_type_hint := auth_type_hint a;
         mi_allow_header := allow_header a;
         mi_content_types := sorted (elements (content_types a)) |}.

(** *** discovery/response_driven.py *)

(** The paths one stored body contributes to [new_links]. *)
Definition links_of_body (base_url : str) (known : gset str) (body : str) : gset str :=
  if negb (truthy body) then ∅
  else match json_loads body with
       | None => ∅
       | Some data =>
           list_to_set
             (List.filter (fun path => truthy path && bool_decide (path ∉ known))
                (omap (fun link => _normalize_link link base_url)
                   (elements (extract_links_from_json data base_url))))
       end.

(** [new_links] after the loops over the endpoints and their responses. *)
Definition collect_links (db : Db) (service_id : nat) (base_url : str)
    (known : gset str) : gset str :=
  fold_left
    (fun new_links ep =>
       fold_left
         (fun new_links resp_row =>
            new_links ∪ links_of_body base_url known (rsp_body_sample resp_row))
         (get_responses db (ep_id ep)) new_links)
    (get_endpoints db service_id) ∅.

(** The loop over [sorted(new_links)] of one round. *)
Fixpoint get_each (base_url : str) (robots_checker : option RobotsChecker)
    (paths : list str) (known : gset str) (round_results : list (str * HttpResponse))
  : M (list (str * HttpResponse) * gset str) :=
  match paths with
  | [] => ret (round_results, known)
  | path :: rest =>
      if denied can_fetch robots_checker path
      then get_each base_url robots_checker rest known round_results
      else
        resp <- get transport (base_url ++ path) ;;
        if found resp
        then get_each base_url robots_checker rest
               (known ∪ {[ path ]}) (round_results ++ [(path, resp)])
        else get_each base_url robots_checker rest known round_results
  end.

(** The rounds [for depth in range(max_depth)]. *)
Fixpoint discover_rounds (rounds : nat) (base_url : str) (db : Db) (service_id : nat)
    (robots_checker : option RobotsChecker) (known : gset str)
    (all_results : list (str * HttpResponse))
  : M (list (str * HttpResponse) * gset str) :=
  match rounds with
  | 0 => ret (all_results, known)
  | S rounds' =>
      let new_links := collect_links db service_id base_url known in
      if decide (new_links = ∅) then ret (all_results, known)
      else
        out <- get_each base_url robots_checker (sorted (elements new_links)) known [] ;;
        let '(round_results, known) := out in
        let all_results := all_results ++ round_results in
        match round_results with
        | [] => ret (all_results, known)
        | _ :: _ =>
            discover_rounds rounds' base_url db service_id robots_checker
              known all_results
        end
  end.

(** [discover_from_responses(client, base_url, db, service_id,
    robots_checker, known_paths, max_depth, callback)] *)
Definition discover_from_responses (base_url : str) (db : Db) (service_id : nat)
    (robots_checker : option RobotsChecker) (known_paths : gset str)
    (max_depth : nat) : M (list (str * HttpResponse) * gset str) :=
  let base_url := rstrip base_url (cp "/") in
  out <- discover_rounds max_depth base_url db service_id robots_checker
           known_paths [] ;;
  let '(all_results, known) := out in
  ret (all_results, caller_view known_paths known).
End WithEnvironment.

End Discovery.

(** ** discovery/orchestrator.py *)

Module Orchestrator.
Import Py Json Http Robots SchemaExtractor Database Discovery.

(** The objects a [ProbeOrchestrator] holds and changes: its client, the
    database file, and, as a ghost field, how often the [STOP] file has been
    looked for. *)
Record World := {
  client : HttpClient;
  db : Db;
  stop_checks : nat
}.

Definition with_client (w : World) (c : HttpClient) : World :=
  {| client := c; db := db w; stop_checks := stop_checks w |}.

Definition with_db (w : World) (d : Db) : World :=
  {| client := client w; db := d; stop_checks := stop_checks w |}.

(** What [probe] returns, or that it raised. *)
Inductive ProbeResult :=
  | ErrorResult (error : str)
  | Summary (service base_url : str) (endpoints_found total_requests : Z) (status : str)
  | Raised.

(** The outcome of a phase that may raise. *)
Inductive Outcome (A : Type) :=
  | Done (a : A) (w : World)
  | Raise (w : World).
Arguments Done {A} a w.
Arguments Raise {A} w.

(** The auth hint [_process_results] stores for a response. *)
Definition ingest_auth_hint (resp : HttpResponse) : str :=
  if bool_decide (status_code resp ∈ [401; 403]%Z)
  then
    let www_auth := dict_get_or (headers resp) (lit "WWW-Authenticate") [] in
    if contains (lower www_auth) (lit "bearer") then lit "bearer"
    else if contains (lower www_auth) (lit "basic") then lit "basic"
    else []
  else [].

Section WithEnvironment.
Variable transport : Transport.
Variable can_fetch : str -> str -> str -> bool.
Variable parser_crawl_delay : str -> str -> option Z.
Variable json_loads : str -> option json.
Variable re_findall : nat -> str -> list str.
Variable read_lines : str -> option (list str).
(** The text [RobotsChecker.load] reads from [<base>/robots.txt] for a
    user agent; [None] when the fetch fails.  The fetch does not go through
    the client. *)
Variable fetch_robots : str -> str -> option str.
(** Whether the [STOP] file exists at the [n]-th look (counted from 0). *)
Variable stop_file_exists : nat -> bool.
(** [datetime.utcnow().isoformat()], and SQLite's [CURRENT_TIMESTAMP]. *)
Variable utcnow : str.
(** [urlparse(url).hostname]: the host name, if the URL has one; [None]
    when [urlparse] raises [ValueError]. *)
Variable hostname : str -> option (option str).
(** [extract_endpoints_from_spec(spec)] of discovery/openapi_detect.py,
    [None] when it raises.  It reads the document only; what it extracts
    plays no part in the properties below and is left open. *)
Variable extract_endpoints_from_spec : json -> option (list SpecEndpoint).

(** [_process_results(service_id, results, discovered_by)] *)
Definition _process_results (d : Db) (service_id : nat)
    (results : list (str * HttpResponse)) (discovered_by : str) : Db :=
  fold_left
    (fun d '(path, resp) =>
       let content_types :=
         if truthy (content_type resp)
         then let ct := media_type (content_type resp) in
              if truthy ct then [ct] else []
         else [] in
       let auth_required := bool_decide (status_code resp ∈ [401; 403]%Z) in
       let auth_hint := ingest_auth_hint resp in
       let '(ep_id, d) :=
         upsert_endpoint d service_id path
           (if truthy (method resp) then [method resp] else [])
           [status_code resp] auth_required auth_hint content_types discovered_by in
       if truthy (body resp) && ok resp
       then
         let schema := extract_schema_from_body json_loads (body resp) in
         add_response d ep_id
           (if truthy (method resp) then method resp else lit "GET")
           (status_code resp) (headers resp) schema
           (slice_to (body resp) 2048) (content_type resp) (elapsed_ms resp)
       else d)
    results d.

(** [_check_limits(max_requests)] *)
Definition _check_limits (w : World) (max_requests : Z) : bool * World :=
  if (max_requests <=? request_count (client w))%Z then (true, w)
  else (stop_file_exists (stop_checks w),
        {| client := client w; db := db w; stop_checks := S (stop_checks w) |}).

(** [_derive_service_name(url)]; [None] when it raises. *)
Definition _derive_service_name (u : str) : option str :=
  match hostname u with
  | None => None
  | Some parsed =>
      let host :=
        match parsed with
        | Some h => if truthy h then h else lit "unknown"
        | None => lit "unknown"
        end in
      let parts := split host (cp ".") in
      Some (if (2 <=? length parts)%nat
            then default host (rev parts !! 1)
            else host)
  end.

(** Running a client computation in the world. *)
Definition run {A} (m : M A) (w : World) : Outcome A :=
  match m (client w) with
  | (Some a, c) => Done a (with_client w c)
  | (None, c) => Raise (with_client w c)
  end.

(** The world an outcome leaves. *)
Definition world_of {A} (o : Outcome A) : World :=
  match o with
  | Done _ w => w
  | Raise w => w
  end.

Section Probe.
Variable config : Config.Config.
Variable service_name base_url : str.
Variable service_id : nat.
Variable robots : option RobotsChecker.

Definition max_requests : Z := Config.max_requests config.
Definition strategies : list str := Config.strategies config.

(** [name in strategies and not self._check_limits(max_requests)] *)
Definition enabled (name : string) (w : World) : bool * World :=
  if bool_decide (lit name ∈ strategies)
  then let '(stop, w) := _check_limits w max_requests in (negb stop, w)
  else (false, w).

(** Phase 1: OpenAPI detection. *)
Definition store_spec_endpoints (spec_endpoints : list SpecEndpoint)
    (d : Db) (known_paths : gset str) : Db * gset str :=
  fold_left
    (fun '(d, known_paths) ep =>
       let '(ep_id, d) :=
         upsert_endpoint d service_id (se_path ep) (se_methods ep) [] false [] []
           (lit "openapi") in
       let d :=
         fold_left
           (fun d param =>
              upsert_parameter d ep_id (sp_name param) (sp_type param)
                (sp_location param) (sp_required param) [])
           (se_parameters ep) d in
       (d, known_paths ∪ {[ se_path ep ]}))
    spec_endpoints (d, known_paths).

(** [meta], or [None] when [spec["info"].get] raises. *)
Definition spec_metadata (spec_url : str) (spec : json)
  : option (list (str * json)) :=
  let meta := [(lit "openapi_spec_url", JStr spec_url)] in
  match spec with
  | JObj fields =>
      match dict_get fields (lit "info") with
      | None => Some meta
      | Some (JObj info) =>
          Some (meta ++
                [(lit "api_title", dict_get_or info (lit "title") (JStr []));
                 (lit "api_version", dict_get_or info (lit "version") (JStr []));
                 (lit "api_description",
                  dict_get_or info (lit "description") (JStr []))])
      | Some _ => None
      end
  | _ => Some meta
  end.

Definition phase_openapi (known_paths : gset str) (w : World)
  : Outcome (gset str) :=
  let '(go, w) := enabled "openapi" w in
  if go then
    match run (detect_openapi transport can_fetch json_loads base_url robots) w with
    | Raise w => Raise w
    | Done None w => Done known_paths w
    | Done (Some (spec_url, spec)) w =>
        match extract_endpoints_from_spec spec with
        | None => Raise w
        | Some spec_endpoints =>
            let '(d, known_paths) :=
              store_spec_endpoints spec_endpoints (db w) known_paths in
            let w := with_db w d in
            match spec_metadata spec_url spec with
            | None => Raise w
            | Some meta =>
                let '(_, d) :=
                  upsert_service utcnow (db w) service_name base_url [] [] [] meta in
                Done known_paths (with_db w d)
            end
        end
    end
  else Done known_paths w.

(** Phase 2: wordlist probing. *)
Definition phase_wordlist (known_paths : gset str) (w : World)
  : Outcome (gset str) :=
  let '(go, w) := enabled "wordlist" w in
  if go then
    match run (probe_wordlist transport can_fetch read_lines base_url
                 (Config.wordlists config) robots known_paths max_requests) w with
    | Raise w => Raise w
    | Done (results, known_paths) w =>
        Done known_paths
          (with_db w (_process_results (db w) service_id results (lit "wordlist")))
    end
  else Done known_paths w.

(** Phase 3: pattern probing. *)
Definition phase_pattern (known_paths : gset str) (w : World)
  : Outcome (gset str) :=
  let '(go, w) := enabled "pattern" w in
  if go then
    match run (probe_patterns transport can_fetch base_url config robots
                 known_paths max_requests) w with
    | Raise w => Raise w
    | Done (results, known_paths) w =>
        Done known_paths
          (with_db w (_process_results (db w) service_id results (lit "pattern")))
    end
  else Done known_paths w.

(** Phase 4: the loop over the endpoints. *)
Fixpoint method_testing (endpoints : list EndpointRow) (w : World) : Outcome unit :=
  match endpoints with
  | [] => Done tt w
  | ep :: rest =>
      let '(stop, w) := _check_limits w max_requests in
      if stop then Done tt w
      else
        match run (test_methods transport base_url (ep_path ep)
                     (Config.skip_destructive config)) w with
        | Raise w => Raise w
        | Done method_info w =>
            let '(_, d) :=
              upsert_endpoint (db w) service_id (ep_path ep)
                (mi_methods method_info)
                (List.map snd (mi_status_codes method_info))
                (mi_auth_required method_info)
                (mi_auth_type_hint method_info)
                (mi_content_types method_info) [] in
            method_testing rest (with_db w d)
        end
  end.

Definition phase_methods (w : World) : Outcome unit :=
  let '(stop, w) := _check_limits w max_requests in
  if stop then Done tt w else method_testing (get_endpoints (db w) service_id) w.

(** Phase 5: the loop over the endpoints. *)
Fixpoint schema_extraction (endpoints : list EndpointRow) (w : World) : Outcome unit :=
  match endpoints with
  | [] => Done tt w
  | ep :: rest =>
      let '(stop, w) := _check_limits w max_requests in
      if stop then Done tt w
      else if negb (bool_decide (lit "GET" ∈ ep_methods_json ep))
      then schema_extraction rest w
      else
        match run (get transport (base_url ++ ep_path ep)) w with
        | Raise w => Raise w
        | Done resp w =>
            if ok resp && truthy (body resp)
            then
              let schema := extract_schema_from_body json_loads (body resp) in
              if json_truthy schema
              then schema_extraction rest
                     (with_db w
                        (add_response (db w) (ep_id ep) (lit "GET") (status_code resp)
                           (headers resp) schema (slice_to (body resp) 2048)
                           (content_type resp) (elapsed_ms resp)))
              else schema_extraction rest w
            else if bool_decide (status_code resp ∈ [400; 422]%Z) && truthy (body resp)
            then
              let params := extract_params_from_error re_findall (body resp) in
              schema_extraction rest
                (with_db w
                   (fold_left
                      (fun d '(name, required) =>
                         upsert_parameter d (ep_id ep) name (lit "string") (lit "query")
                           required [])
                      params (db w)))
            else schema_extraction rest w
        end
  end.

Definition phase_schema (w : World) : Outcome unit :=
  let '(stop, w) := _check_limits w max_requests in
  if stop then Done tt w else schema_extraction (get_endpoints (db w) service_id) w.

(** Phase 6: response-driven discovery. *)
Definition phase_response_driven (known_paths : gset str) (w : World)
  : Outcome (gset str) :=
  let '(go, w) := enabled "response_driven" w in
  if go then
    match run (discover_from_responses transport can_fetch json_loads base_url (db w)
                 service_id robots known_paths (Config.max_depth config)) w with
    | Raise w => Raise w
    | Done (results, known_paths) w =>
        Done known_paths
          (with_db w
             (_process_results (db w) service_id results (lit "response_driven")))
    end
  else Done known_paths w.

(** The closing steps of [probe]. *)
Definition finish (run_id : nat) (w : World) : ProbeResult * World :=
  let d := update_service_last_probed utcnow (db w) service_id in
  let total_requests := request_count (client w) in
  let final_ep_count := Z.of_nat (length (get_endpoints d service_id)) in
  let d :=
    update_probe_run utcnow d run_id (Some (lit "completed"))
      (Some total_requests) (Some final_ep_count)
      (Some (JObj [(lit "completed_strategies",
                    JArr (List.map JStr strategies))])) in
  (Summary service_name base_url final_ep_count total_requests (lit "completed"),
   with_db w d).

(** One phase after another: an exception of a phase leaves [probe]. *)
Definition and_then {A} (o : Outcome A) (k : A -> World -> ProbeResult * World)
  : ProbeResult * World :=
  match o with
  | Done a w => k a w
  | Raise w => (Raised, w)
  end.

(** Phases 1 to 6 and the closing steps. *)
Definition phases (run_id : nat) (known_paths : gset str) (w : World)
  : ProbeResult * World :=
  and_then (phase_openapi known_paths w) (fun known_paths w =>
  and_then (phase_wordlist known_paths w) (fun known_paths w =>
  and_then (phase_pattern known_paths w) (fun known_paths w =>
  and_then (phase_methods w) (fun _ w =>
  and_then (phase_schema w) (fun _ w =>
  and_then (phase_response_driven known_paths w) (fun _ w =>
  finish run_id w)))))).
End Probe.

(** The robots step of [probe]: the checker, the stored text, the delay. *)
Definition load_robots (config : Config.Config) (service_name base_url : str)
    (w : World) : option RobotsChecker * World :=
  if Config.respect_robots_txt config then
    let text := fetch_robots base_url (Config.user_agent config) in
    let rc := {| Robots.base_url := rstrip base_url (cp "/");
                 Robots.user_agent := Config.user_agent config;
                 raw := text |} in
    match text with
    | Some raw_text =>
        let '(_, d) := upsert_service utcnow (db w) service_name base_url [] []
                         raw_text [] in
        let w := with_db w d in
        match crawl_delay parser_crawl_delay rc with
        | Some delay =>
            if negb (delay =? 0)%Z
            then (Some rc,
                  with_client w
                    (set_delay_ms (client w)
                       (Z.max (Config.delay_ms config) (delay * 1000))))
            else (Some rc, w)
        | None => (Some rc, w)
        end
    | None => (Some rc, w)
    end
  else (None, w).

(** [probe] from its first write to the store on. *)
Definition start (config : Config.Config) (service_name base_url : str) (w : World)
  : ProbeResult * World :=
  let '(service_id, d) := upsert_service utcnow (db w) service_name base_url [] [] [] [] in
  let '(run_id, d) := create_probe_run utcnow d service_id (Some config) in
  let known_paths := get_endpoint_paths d service_id in
  let w := with_db w d in
  let '(robots, w) := load_robots config service_name base_url w in
  and_then (run (get transport base_url) w) (fun base_resp w =>
  if (0 <? status_code base_resp)%Z
  then
    let server := dict_get_or (headers base_resp) (lit "Server") [] in
    let w :=
      if truthy server
      then with_db w (upsert_service utcnow (db w) service_name base_url [] server [] []).2
      else w in
    phases config service_name base_url service_id robots run_id known_paths w
  else
    (ErrorResult (error base_resp),
     with_db w (update_probe_run utcnow (db w) run_id (Some (lit "error"))
                  None None None))).

(** [probe(url)] on an orchestrator with configuration [config]; a [depth]
    argument has been written into [config] by then. *)
Definition probe (config : Config.Config) (u : str) (w : World)
  : ProbeResult * World :=
  let base_url := rstrip u (cp "/") in
  match _derive_service_name base_url with
  | None => (Raised, w)
  | Some service_name => start config service_name base_url w
  end.

(** A new orchestrator: [HttpClient(config)] and the database file. *)
Definition new_world (config : Config.Config) (d : Db) : World :=
  {| client := new_client (Config.delay_ms config); db := d; stop_checks := 0 |}.
End WithEnvironment.

End Orchestrator.

(** ** Vocabulary of the properties *)

Module SchemaShape.
Import Py Json SchemaExtractor.






End SchemaShape.

Module LinkShape.
Import Py.

(** The shape of a normalised link: it begins with a slash, holds neither
    [?] nor [#], and ends with a slash only if it is the root. *)
Definition normal (r : str) : Prop :=
  (exists t, r = cp "/" :: t)
  /\ ~ In (cp "?") r /\ ~ In (cp "#") r
  /\ (r = lit "/" \/ endswith r (lit "/") = false).

End LinkShape.

Module StoreShape.
Import Py Json Database.

(** The row of a run, as a [SELECT] by id returns it. *)
Definition probe_run (db : Db) (run : nat) : option ProbeRunRow :=
  List.find (fun r => bool_decide (run_id r = run)) (probe_runs db).






(** The arguments of one call of [upsert_endpoint]. *)
Record EndpointCall := {
  c_service_id : nat;
  c_path : str;
  c_methods : list str;
  c_status_codes : list Z;
  c_auth_required : bool;
  c_auth_type_hint : str;
  c_content_types : list str;
  c_discovered_by : str
}.

Definition upsert_call (db : Db) (c : EndpointCall) : Db :=
  (upsert_endpoint db (c_service_id c) (c_path c) (c_methods c) (c_status_codes c)
     (c_auth_required c) (c_auth_type_hint c) (c_content_types c)
     (c_discovered_by c)).2.

Definition upsert_calls (db : Db) (calls : list EndpointCall) : Db :=
  fold_left upsert_call calls db.

(** The calls that address the endpoint [(service_id, path)]. *)
Definition calls_for (service_id : nat) (path : str) (calls : list EndpointCall)
  : list EndpointCall :=
  List.filter
    (fun c => bool_decide (c_service_id c = service_id) && bool_decide (c_path c = path))
    calls.

(** The row of an endpoint, as the [SELECT] of [upsert_endpoint] returns it. *)
Definition endpoint (db : Db) (service_id : nat) (path : str) : option EndpointRow :=
  List.find (same_endpoint service_id path) (endpoints db).

(** The sets a row stands for; no row stands for empty sets, no
    authentication and no hint. *)
Definition methods_of (row : option EndpointRow) : gset str :=
  match row with Some r => list_to_set (ep_methods_json r) | None => ∅ end.

Definition status_codes_of (row : option EndpointRow) : gset Z :=
  match row with Some r => list_to_set (ep_status_codes_json r) | None => ∅ end.

Definition content_types_of (row : option EndpointRow) : gset str :=
  match row with Some r => list_to_set (ep_content_types_json r) | None => ∅ end.

Definition auth_required_of (row : option EndpointRow) : bool :=
  match row with Some r => ep_auth_required r | None => false end.

Definition auth_type_hint_of (row : option EndpointRow) : str :=
  match row with Some r => ep_auth_type_hint r | None => [] end.

(** The union of the sets the calls supply. *)
Definition supplied {A} `{Countable A} (field : EndpointCall -> list A)
    (calls : list EndpointCall) : gset A :=
  ⋃ (List.map (fun c => list_to_set (field c)) calls).

(** The hint after the calls: the last one that is not empty, if any. *)
Definition last_hint (hint : str) (calls : list EndpointCall) : str :=
  fold_left
    (fun hint c => if bool_decide (c_auth_type_hint c ≠ []) then c_auth_type_hint c else hint)
    calls hint.

(** Row ids of the [endpoints] table are pairwise distinct and were handed
    out by its sequence. *)
Definition endpoints_ok (db : Db) : Prop :=
  NoDup (List.map ep_id (endpoints db))
  /\ Forall (fun r => ep_id r <= seq_endpoints db) (endpoints db).

(** A store with one service and one endpoint, for the examples. *)
Definition example_time : str := lit "2026-01-01T00:00:00".

Definition example_db : Db :=
  let db := (upsert_service example_time empty_db (lit "example")
               (lit "http://api.example.com") [] [] [] []).2 in
  (upsert_endpoint db 1 (lit "/notes") [lit "GET"] [200%Z] false [] [] (lit "wordlist")).2.

(** 2048 times the letter e with acute accent (U+00E9). *)
Definition accented_body : str := repeat 233%N 2048.

End StoreShape.

Module ScannerShape.
Import Py Json Http Robots Discovery.
#[local] Open Scope client_scope.

Section WithEnvironment.
Variable transport : Transport.
Variable can_fetch : str -> str -> str -> bool.
Variable json_loads : str -> option json.

(** The scanner as the specification words it: every well-known path is
    requested in order, and the first body that parses to a mapping with one
    of the keys [paths], [swagger], [openapi] is returned with its URL. *)
Fixpoint scan_as_specified (base_url : str) (paths : list str)
  : M (option (str * json)) :=
  match paths with
  | [] => ret None
  | path :: rest =>
      let u := base_url ++ path in
      resp <- get transport u ;;
      match _try_parse_spec json_loads (body resp) with
      | Some spec => ret (Some (u, spec))
      | None => scan_as_specified base_url rest
      end
  end.

Definition detect_openapi_as_specified (base_url : str) : M (option (str * json)) :=
  scan_as_specified (rstrip base_url (cp "/")) SWAGGER_PATHS.

(** The well-known paths the robots policy lets through, in order. *)
Definition allowed_paths (robots_checker : option RobotsChecker) : list str :=
  List.filter (fun path => negb (denied can_fetch robots_checker path)) SWAGGER_PATHS.

(** The answer to the [i]-th request a client makes from now on, when that
    request is a [GET] of [path]. *)
Definition answer (c : HttpClient) (base_url : str) (i : nat) (path : str)
  : HttpResponse :=
  receive transport (length (issued c) + i) (base_url ++ path) (lit "GET").

(** The document of an answer the scanner takes: a status from 200 to 399,
    a body that is not empty and parses to a mapping with one of the keys. *)
Definition document (resp : HttpResponse) : option json :=
  if ok resp && truthy (body resp) then _try_parse_spec json_loads (body resp)
  else None.

(** The requests for the first [n] of some paths. *)
Definition gets (base_url : str) (paths : list str) : list (str * str) :=
  List.map (fun path => (lit "GET", base_url ++ path)) paths.
End WithEnvironment.

(** An example: a document published at [/swagger.json]. *)
Definition quote : str := [34%N].

Definition spec_body : str :=
  lit "{" ++ quote ++ lit "paths" ++ quote ++ lit ": {}}".

Definition spec_document : json := JObj [(lit "paths", JObj [])].

(** [json.loads] on the body of the example; other bodies do not occur. *)
Definition loads_example (text : str) : option json :=
  if bool_decide (text = spec_body) then Some spec_document else None.

Definition example_base : str := lit "http://api.example.com".

(** A server that answers [/swagger.json] with status 404 and the document
    as body, and nothing else. *)
Definition not_found_with_document : Transport :=
  serving
    (fun _ m u =>
      if bool_decide (u = example_base ++ lit "/swagger.json")
      then HttpError 404 [(lit "Content-Type", lit "application/json")] spec_body 3
             (lit "HTTP Error 404: Not Found")
      else Failed (lit "timed out") 1000).

(** A server that publishes the document at [/swagger.json], behind a
    robots file that disallows that path. *)
Definition publishes_document : Transport :=
  serving
    (fun _ m u =>
      if bool_decide (u = example_base ++ lit "/swagger.json")
      then Returned 200 [(lit "Content-Type", lit "application/json")] spec_body 3
      else HttpError 404 [] [] 3 (lit "HTTP Error 404: Not Found")).

Definition disallows_swagger : str -> str -> str -> bool :=
  fun _ _ u => negb (bool_decide (u = example_base ++ lit "/swagger.json")).

Definition example_robots : RobotsChecker :=
  {| Robots.base_url := example_base; Robots.user_agent := lit "ApiProber/0.1";
     raw := Some (lit "User-agent: *" ++ [10%N] ++ lit "Disallow: /swagger.json") |}.

End ScannerShape.

Module Scenario.
Import Py Json Http Robots Database Discovery Orchestrator ScannerShape StoreShape.

(** A configuration with the given budget and strategies. *)
Definition config (max_requests : Z) (strategies : list string) : Config.Config :=
  {| Config.delay_ms := 0;
     Config.max_requests := max_requests;
     Config.max_depth := 3;
     Config.user_agent := lit "ApiProber/0.1";
     Config.respect_robots_txt := true;
     Config.skip_destructive := true;
     Config.strategies := List.map lit strategies;
     Config.wordlists := [lit "common_rest.txt"];
     Config.pattern_versions := [lit "1"; lit "2"; lit "3"];
     Config.pattern_resources := [lit "users"; lit "posts"] |}.

(** A server that answers the base URL with 200 and every other URL with 404. *)
Definition only_root : Transport :=
  serving
    (fun _ m u =>
      if bool_decide (u = example_base)
      then Returned 200 [(lit "Server", lit "nginx")] (lit "ok") 7
      else HttpError 404 [] [] 3 (lit "HTTP Error 404: Not Found")).

(** A server that answers every request with 200 and an empty body. *)
Definition answers_all : Transport :=
  serving (fun _ m u => Returned 200 [(lit "Content-Type", lit "text/plain")] [] 3).

(** The wordlists directory: one file. *)
Definition wordlist_files (name : str) : option (list str) :=
  if bool_decide (name = lit "common_rest.txt")
  then Some [lit "# common REST paths"; lit "/users"; lit "/posts"; lit "/admin"]
  else None.

(** A probe of [http://api.example.com/] by a new orchestrator on a new
    database, without a robots file; no body is JSON. *)
Definition run_probe (transport : Transport) (stop_file_exists : nat -> bool)
    (cfg : Config.Config) : ProbeResult * World :=
  probe transport (fun _ _ _ => true) (fun _ _ => None) (fun _ => None)
    (fun _ _ => []) wordlist_files (fun _ _ => None) stop_file_exists example_time
    (fun _ => Some (Some (lit "api.example.com"))) (fun _ => Some [])
    cfg (lit "http://api.example.com/") (new_world cfg empty_db).

(** An answer 401 that asks for Digest authentication, and one that asks
    for an API key. *)
Definition unauthorized (challenge : string) : HttpResponse :=
  {| url := example_base ++ lit "/private"; method := lit "HEAD";
     status_code := 401;
     headers := [(lit "WWW-Authenticate", lit challenge)];
     body := []; content_type := []; elapsed_ms := 4;
     error := lit "HTTP Error 401: Unauthorized"; is_json := false |}.

(** A server that answers every request with 401 and the challenge. *)
Definition challenges (challenge : string) : Transport :=
  serving
    (fun _ m u =>
      HttpError 401 [(lit "WWW-Authenticate", lit challenge)] [] 4
        (lit "HTTP Error 401: Unauthorized")).

End Scenario.

Module RunShape.
Import Py Json Http Database Orchestrator StoreShape.

(** From [c] to [c'] the client has made some requests and counted each. *)
Definition counted (c c' : HttpClient) : Prop :=
  exists l, issued c' = issued c ++ l
            /\ request_count c' = (request_count c + Z.of_nat (length l))%Z.

(** A client computation counts the requests it makes. *)
Definition counts {A} (m : M A) : Prop := forall c, counted c (m c).2.

(** The [probe_runs] table is the same in both stores. *)
Definition same_runs (d d' : Db) : Prop :=
  probe_runs d' = probe_runs d /\ seq_probe_runs d' = seq_probe_runs d.

(** From [w] to [w'] requests were made and counted, and no run was written. *)
Definition advanced (w w' : World) : Prop :=
  counted (client w) (client w') /\ same_runs (db w) (db w').

(** The row ids of the [probe_runs] table were handed out by its sequence. *)
Definition runs_ok (d : Db) : Prop :=
  Forall (fun r => run_id r <= seq_probe_runs d) (probe_runs d).

End RunShape.

(** ** core/database.py: the remaining queries *)

Module DatabaseQueries.
Import Py Json Database.

(** [get_service_by_id(service_id)] *)
Definition get_service_by_id (db : Db) (service_id : nat) : option ServiceRow :=
  List.find (fun r => bool_decide (svc_id r = service_id)) (services db).

Definition svc_name_le (r1 r2 : ServiceRow) : Prop := str_le (svc_name r1) (svc_name r2).

#[export] Instance svc_name_le_dec r1 r2 : Decision (svc_name_le r1 r2).
Proof. unfold svc_name_le. apply _. Defined.

(** [list_services()]: [... ORDER BY name] *)
Definition list_services (db : Db) : list ServiceRow :=
  merge_sort svc_name_le (services db).

(** [ORDER BY location, name] *)
Definition par_le (r1 r2 : ParameterRow) : Prop :=
  if bool_decide (par_location r1 = par_location r2)
  then str_le (par_name r1) (par_name r2)
  else str_le (par_location r1) (par_location r2).

#[export] Instance par_le_dec r1 r2 : Decision (par_le r1 r2).
Proof. unfold par_le. destruct (bool_decide _); apply _. Defined.

(** [get_parameters(endpoint_id)] *)
Definition get_parameters (db : Db) (endpoint_id : nat) : list ParameterRow :=
  merge_sort par_le
    (List.filter (fun r => bool_decide (par_endpoint_id r = endpoint_id)) (parameters db)).

(** [ORDER BY id DESC] *)
Definition run_id_ge (r1 r2 : ProbeRunRow) : Prop := run_id r2 <= run_id r1.

#[export] Instance run_id_ge_dec r1 r2 : Decision (run_id_ge r1 r2).
Proof. unfold run_id_ge. apply _. Defined.

(** [get_probe_runs(service_id)] *)
Definition get_probe_runs (db : Db) (service_id : nat) : list ProbeRunRow :=
  merge_sort run_id_ge
    (List.filter (fun r => bool_decide (run_service_id r = service_id)) (probe_runs db)).

(** What [get_service_stats] returns. *)
Record ServiceStats := {
  stat_endpoints : nat;
  stat_responses : nat;
  stat_parameters : nat
}.

(** The endpoints of the service a row joins with: [JOIN endpoints e ON
    x.endpoint_id = e.id WHERE e.service_id = ?]. *)
Definition joined (db : Db) (service_id endpoint_id : nat) : list EndpointRow :=
  List.filter
    (fun e => bool_decide (ep_id e = endpoint_id)
              && bool_decide (ep_service_id e = service_id))
    (endpoints db).

(** [get_service_stats(service_id)]: the three counts. *)
Definition get_service_stats (db : Db) (service_id : nat) : ServiceStats :=
  {| stat_endpoints :=
       length (List.filter (fun e => bool_decide (ep_service_id e = service_id))
                 (endpoints db));
     stat_responses :=
       length (List.flat_map (fun r => joined db service_id (rsp_endpoint_id r))
                 (responses db));
     stat_parameters :=
       length (List.flat_map (fun p => joined db service_id (par_endpoint_id p))
                 (parameters db)) |}.

(** The row of a parameter, as the conflict target of [upsert_parameter]
    finds it. *)
Definition parameter (db : Db) (endpoint_id : nat) (name location : str)
  : option ParameterRow :=
  List.find (same_parameter endpoint_id name location) (parameters db).

(** The triples [(endpoint_id, name, location)] of the [parameters] table
    are pairwise distinct, as its [UNIQUE] constraint says. *)
Definition parameter_keys_unique (db : Db) : Prop :=
  NoDup (List.map (fun r => (par_endpoint_id r, par_name r, par_location r))
           (parameters db)).

(** A store with one parameter of the endpoint of the example store. *)
Definition example_parameters : Db :=
  upsert_parameter StoreShape.example_db 1 (lit "page") (lit "integer") (lit "query")
    false [].

(** The pairs [(service_id, path)] of the [endpoints] table are pairwise
    distinct, as its [UNIQUE] constraint says. *)
Definition endpoint_keys_unique (db : Db) : Prop :=
  NoDup (List.map (fun r => (ep_service_id r, ep_path r)) (endpoints db)).

End DatabaseQueries.

(** ** Link extraction, as a set of occurrences *)

Module ExtractionShape.
Import Py Json SchemaExtractor.

(** The test [_walk_for_links] makes on a string before it adds it. *)
Definition collectable (base_url s : str) : bool :=
  if startswith s (lit "http://") || startswith s (lit "https://")
  then truthy base_url && startswith s base_url
  else startswith s (lit "/") && negb (startswith s (lit "//")).

(** [occurs s data]: the string [s] is reached from [data] through values
    of mappings and the first 50 items of arrays. *)
Inductive occurs (s : str) : json -> Prop :=
  | occurs_str : occurs s (JStr s)
  | occurs_item (l : list json) (item : json) :
      item ∈ take 50 l -> occurs s item -> occurs s (JArr l)
  | occurs_value (d : list (str * json)) (k : str) (v : json) :
      (k, v) ∈ d -> occurs s v -> occurs s (JObj d).

(** What a walk of [data] adds to the set, as far as [link] goes. *)
Definition adds (base_url link : str) (data : json) : Prop :=
  forall links,
    link ∈ _walk_for_links data links base_url
    <-> link ∈ links \/ (collectable base_url link = true /\ occurs link data).

(** The three loops of [_walk_for_links], over a walk of the members. *)
Section Loops.
Variable walk : json -> gset str -> gset str.

Fixpoint walk_key (key : str) (d : list (str * json)) (links : gset str) : gset str :=
  match d with
  | [] => links
  | (k, v) :: d' => if decide (k = key) then walk v links else walk_key key d' links
  end.

Fixpoint walk_values (d : list (str * json)) (links : gset str) : gset str :=
  match d with
  | [] => links
  | (_, v) :: d' => walk_values d' (walk v links)
  end.

Fixpoint walk_items (n : nat) (l : list json) (links : gset str) : gset str :=
  match n, l with
  | S n', item :: l' => walk_items n' l' (walk item links)
  | _, _ => links
  end.
End Loops.

End ExtractionShape.

(** ** Vocabulary for the requests of a strategy *)

Module RequestShape.
Import Py Json Http Robots Discovery.

(** The requests a client computation hands to [urlopen], as (method, URL),
    all satisfy [P]. *)
Definition issues {A} (P : str * str -> Prop) (m : M A) : Prop :=
  forall c, exists l, issued (m c).2 = issued c ++ l /\ Forall P l.

(** A request of [probe_wordlist] or [probe_patterns] for one of [paths]:
    a [HEAD] or a [GET] of the base URL followed by a path that was not
    known and that the robots file allows. *)
Definition path_probe (can_fetch : str -> str -> str -> bool) (base_url : str)
    (robots_checker : option RobotsChecker) (paths : list str) (known : gset str)
    (req : str * str) : Prop :=
  (req.1 = lit "HEAD" \/ req.1 = lit "GET")
  /\ exists path, req.2 = base_url ++ path
       /\ path ∈ paths /\ (path ∉ known)
       /\ denied can_fetch robots_checker path = false.

(** Where [probe_wordlist] and [probe_patterns] raise: at a path they
    would probe whose request cannot be built. *)
Definition path_refused (transport : Transport) (can_fetch : str -> str -> str -> bool)
    (base_url : str) (robots_checker : option RobotsChecker) (paths : list str)
    (known : gset str) : Prop :=
  exists path, path ∈ paths /\ (path ∉ known)
    /\ denied can_fetch robots_checker path = false
    /\ builds transport (base_url ++ path) = false.

(** A find of [probe_wordlist] or [probe_patterns]: the path was not known,
    and the response is the answer to a [HEAD] or a [GET] of its URL, with a
    status other than 404. *)
Definition path_find (base_url : str) (paths : list str) (known : gset str)
    (result : str * HttpResponse) : Prop :=
  found result.2 = true
  /\ result.1 ∈ paths /\ (result.1 ∉ known)
  /\ url result.2 = base_url ++ result.1
  /\ (method result.2 = lit "HEAD" \/ method result.2 = lit "GET").

End RequestShape.

(** ** A server for the examples of the path strategies *)

Module ProbingScenario.
Import Py Json Http.

(** A server that refuses [HEAD] with 405 and answers every other request
    with 200. *)
Definition head_refused : Transport :=
  serving
    (fun _ m u =>
      if bool_decide (m = lit "HEAD")
      then HttpError 405 [] [] 3 (lit "HTTP Error 405: Method Not Allowed")
      else Returned 200 [] (lit "ok") 3).

End ProbingScenario.

(** ** Vocabulary for the method tester *)

Module MethodShape.
Import Py Json Http Discovery.

(** [methods_to_test = SAFE_METHODS if skip_destructive else ALL_METHODS] *)
Definition methods_to_test (skip_destructive : bool) : list str :=
  if skip_destructive then SAFE_METHODS else ALL_METHODS.

(** The answers to the requests for [u] with the given methods, when the
    first of them is request number [n] of the client. *)
Fixpoint answers (transport : Transport) (n : nat) (u : str) (methods : list str)
  : list (str * HttpResponse) :=
  match methods with
  | [] => []
  | m :: rest => (m, receive transport n u m) :: answers transport (S n) u rest
  end.

(** One round of the loop of [test_methods], on the answer it gets. *)
Definition step (a : MethodAcc) (r : str * HttpResponse) : option MethodAcc :=
  test_methods_step r.1 r.2 a.

(** The rounds for a list of answers: the accumulators after the last
    one, or [None] when a round raises. *)
Fixpoint steps (rs : list (str * HttpResponse)) (a : MethodAcc) : option MethodAcc :=
  match rs with
  | [] => Some a
  | r :: rs' =>
      match step a r with
      | Some a' => steps rs' a'
      | None => None
      end
  end.

(** The number of answers the rounds get to: all of them, or those up to
    the one at which a round raises. *)
Fixpoint consumed (rs : list (str * HttpResponse)) (a : MethodAcc) : nat :=
  match rs with
  | [] => 0
  | r :: rs' =>
      S (match step a r with
         | Some a' => consumed rs' a'
         | None => 0
         end)
  end.

(** An answer that does not make [test_methods] raise: its status is not
    401 or 403, or its [WWW-Authenticate] value is empty, or that value
    yields a hint. *)
Definition challenge_ok (resp : HttpResponse) : bool :=
  let www_auth := dict_get_or (headers resp) (lit "WWW-Authenticate") [] in
  negb (bool_decide (status_code resp ∈ [401; 403]%Z) && truthy www_auth)
  || bool_decide (is_Some (method_auth_hint www_auth)).

(** The methods that were answered, with the status of the answer. *)
Definition answered (rs : list (str * HttpResponse)) : list (str * Z) :=
  omap (fun r => if (status_code r.2 =? 0)%Z then None else Some (r.1, status_code r.2)) rs.

(** [status_code in (401, 403)] *)
Definition asks_for_credentials (resp : HttpResponse) : bool :=
  bool_decide (status_code resp ∈ [401; 403]%Z).

(** The methods an answer to [OPTIONS] names in its [Allow] header. *)
Definition allow_tokens (r : str * HttpResponse) : list str :=
  if negb (status_code r.2 =? 0)%Z && bool_decide (r.1 = lit "OPTIONS")
     && dict_has (headers r.2) (lit "Allow")
  then
    List.filter truthy
      (List.map (fun m => upper (strip m))
         (split (remove_cp (dict_get_or (headers r.2) (lit "Allow") []) (cp " "))
            (cp ",")))
  else [].

(** A status with which [test_methods] takes the method as supported. *)
Definition accepts (resp : HttpResponse) : bool :=
  negb (status_code resp =? 0)%Z
  && negb (bool_decide (status_code resp ∈ [404; 405; 501]%Z)).

End MethodShape.

(** ** Vocabulary for link following *)

Module FollowShape.
Import Py Json Http Robots SchemaExtractor Database Discovery LinkShape.

Section WithEnvironment.
Variable can_fetch : str -> str -> str -> bool.
Variable json_loads : str -> option json.

(** [path] is what [_normalize_link] makes of a link in the stored sample
    of a response of the service. *)
Definition linked (db : Db) (service_id : nat) (base_url path : str) : Prop :=
  exists ep row data link,
    ep ∈ get_endpoints db service_id
    /\ row ∈ get_responses db (ep_id ep)
    /\ rsp_body_sample row <> []
    /\ json_loads (rsp_body_sample row) = Some data
    /\ link ∈ extract_links_from_json data base_url
    /\ _normalize_link link base_url = Some path.

(** A request of [discover_from_responses]: a [GET] of the base URL
    followed by a linked path that was not known and that the robots file
    allows. *)
Definition follow (base_url : str) (robots_checker : option RobotsChecker) (db : Db)
    (service_id : nat) (known : gset str) (req : str * str) : Prop :=
  req.1 = lit "GET"
  /\ exists path, req.2 = base_url ++ path
       /\ linked db service_id base_url path
       /\ normal path
       /\ (path ∉ known)
       /\ denied can_fetch robots_checker path = false.
End WithEnvironment.

End FollowShape.

(** ** Vocabulary for runs that are cut short *)

Module HaltShape.
Import Py Json Http Database Orchestrator.

(** Every call of [_check_limits] answers that the run is to stop: the
    budget is used up, or the [STOP] file is there at every look. *)
Definition halted (stop_file_exists : nat -> bool) (max_requests : Z)
    (c : HttpClient) : Prop :=
  (max_requests <= request_count c)%Z \/ forall n, stop_file_exists n = true.

(** The tables of findings are the same in both stores. *)
Definition same_findings (d d' : Db) : Prop :=
  endpoints d' = endpoints d
  /\ responses d' = responses d
  /\ parameters d' = parameters d.

(** A server that cannot be reached. *)
Definition unreachable : Transport :=
  serving (fun _ _ _ => Failed (lit "<urlopen error [Errno 111] Connection refused>") 2).

(** A probe of [http://api.example.com/] by an orchestrator in the world
    [w], in the environment of [Scenario.run_probe]. *)
Definition probe_again (transport : Transport) (stop_file_exists : nat -> bool)
    (cfg : Config.Config) (w : World) : ProbeResult * World :=
  probe transport (fun _ _ _ => true) (fun _ _ => None) (fun _ => None)
    (fun _ _ => []) Scenario.wordlist_files (fun _ _ => None) stop_file_exists
    StoreShape.example_time
    (fun _ => Some (Some (lit "api.example.com"))) (fun _ => Some [])
    cfg (lit "http://api.example.com/") w.

End HaltShape.

(** ** Vocabulary for the requests of a run *)

Module SafetyShape.
Import Py Json Http Discovery Orchestrator MethodShape.

(** A request for a URL of the service with one of the methods that
    [test_methods] may use under the configuration. *)
Definition permitted (config : Config.Config) (base_url : str) (req : str * str) : Prop :=
  req.1 ∈ methods_to_test (Config.skip_destructive config)
  /\ exists path, req.2 = base_url ++ path.

(** From [w] to [w'] the client has made requests that all satisfy [P]. *)
Definition sends (P : str * str -> Prop) (w w' : World) : Prop :=
  exists l, issued (client w') = issued (client w) ++ l /\ Forall P l.

End SafetyShape.

(** ** core/config.py: merging a configuration file into the defaults *)

Module ConfigMerge.
Import Py Json.

(** [_deep_merge(base, override)] for a mapping [override] given as a
    document; the source changes [base] in place, here it is returned. *)
Fixpoint merge_into (base : list (str * json)) (override : json) {struct override}
  : list (str * json) :=
  match override with
  | JObj fields =>
      (* [for key, value in override.items()] *)
      (fix items (fields : list (str * json)) (base : list (str * json)) :=
         match fields with
         | [] => base
         | (key, value) :: rest =>
             items rest
               match dict_get base key, value with
               | Some (JObj sub), JObj _ => dict_set base key (JObj (merge_into sub value))
               | _, _ => dict_set base key value
               end
         end) fields base
  | _ => base
  end.

(** [_deep_merge(base, override)] *)
Definition _deep_merge (base override : list (str * json)) : list (str * json) :=
  merge_into base (JObj override).

(** What one item of [override] does to [base]. *)
Definition merge_item (base : list (str * json)) (item : str * json)
  : list (str * json) :=
  match dict_get base item.1, item.2 with
  | Some (JObj sub), JObj fields => dict_set base item.1 (JObj (_deep_merge sub fields))
  | _, _ => dict_set base item.1 item.2
  end.

(** The value of a key after the merge, from its values before. *)
Definition merged_value (old : option json) (new : json) : json :=
  match old, new with
  | Some (JObj sub), JObj fields => JObj (_deep_merge sub fields)
  | _, _ => new
  end.

(** A part of the default configuration, and a configuration file that
    sets the credentials and the budget. *)
Definition example_defaults : list (str * json) :=
  [(lit "max_requests", JInt 500);
   (lit "auth", JObj [(lit "type", JStr (lit "none")); (lit "value", JStr [])]);
   (lit "export_dir", JStr (lit "exports"))].

Definition example_file : list (str * json) :=
  [(lit "auth", JObj [(lit "value", JStr (lit "secret"))]);
   (lit "max_requests", JInt 50)].

End ConfigMerge.

(** * Properties *)

(** ** The schema extractor *)

Module SchemaFacts.
Import Py Json SchemaExtractor SchemaShape.












End SchemaFacts.

(** ** Link normalisation *)

Module LinkFacts.
Import Py Json Discovery LinkShape.

Lemma contains_one (s : str) (c : codepoint) :
  contains s [c] = true <-> In c s.
Proof.
  induction s as [|d s IH]; simpl; [by intuition|].
  rewrite orb_true_iff, IH.
  destruct (N.eqb_spec c d) as [->|Hne]; [by intuition|].
  split; [intros [[=]|H]; by right|intros [->|H]; [congruence|by right]].
Qed.

Lemma contains_one_false (s : str) (c : codepoint) :
  ~ In c s -> contains s [c] = false.
Proof.
  intros H. destruct (contains s [c]) eqn:E; [|done].
  by apply contains_one in E.
Qed.

Lemma split_head_subset (s : str) (c d : codepoint) :
  In d (split_head s c) -> In d s.
Proof.
  induction s as [|e s IH]; simpl; [done|].
  destruct (N.eqb e c); simpl; [done|]. intros [->|H]; [by left|right; auto].
Qed.

Lemma split_head_removes (s : str) (c : codepoint) :
  ~ In c (split_head s c).
Proof.
  induction s as [|e s IH]; simpl; [by intros []|].
  destruct (N.eqb_spec e c) as [->|Hne]; simpl; [by intros []|].
  intros [->|H]; [done|by apply IH].
Qed.

Lemma rstrip_subset (s : str) (c d : codepoint) :
  In d (rstrip s c) -> In d s.
Proof.
  induction s as [|e s IH]; simpl; [done|].
  destruct (rstrip s c) as [|x r].
  - destruct (N.eqb e c); simpl; [done|]. intros [->|[]]. by left.
  - intros [->|H]; [by left|right; auto].
Qed.

Lemma startswith_app_one (a b : str) (c : codepoint) :
  a <> [] -> startswith (a ++ b) [c] = startswith a [c].
Proof. destruct a; [done|]. intros _. simpl. by destruct (N.eqb c n). Qed.

Lemma endswith_cons (e : codepoint) (s : str) (c : codepoint) :
  s <> [] -> endswith (e :: s) [c] = endswith s [c].
Proof.
  intros Hs. unfold endswith. cbn [rev].
  apply startswith_app_one. destruct s; [done|]. simpl. by destruct (rev s).
Qed.

(** What [rstrip] leaves does not end with the stripped character. *)
Lemma rstrip_not_endswith (s : str) (c : codepoint) :
  endswith (rstrip s c) [c] = false.
Proof.
  induction s as [|e s IH]; [done|]. cbn [rstrip].
  destruct (rstrip s c) as [|x r] eqn:E.
  - destruct (N.eqb_spec e c) as [->|Hne]; [done|].
    unfold endswith. simpl. destruct (N.eqb_spec c e); congruence.
  - rewrite endswith_cons; [exact IH|done].
Qed.

Lemma rstrip_head (e : codepoint) (s : str) (c : codepoint) :
  rstrip (e :: s) c <> [] -> exists r, rstrip (e :: s) c = e :: r.
Proof.
  simpl. destruct (rstrip s c) as [|x r]; [|by eauto].
  destruct (N.eqb e c); [done|by eauto].
Qed.

#[local] Arguments cp : simpl never.
#[local] Arguments lit : simpl never.

Lemma lit_slash : lit "/" = [cp "/"].
Proof. reflexivity. Qed.
Lemma lit_question : lit "?" = [cp "?"].
Proof. reflexivity. Qed.
Lemma lit_hash : lit "#" = [cp "#"].
Proof. reflexivity. Qed.
Lemma slash_ne_question : N.eqb (cp "/") (cp "?") = false.
Proof. reflexivity. Qed.
Lemma slash_ne_hash : N.eqb (cp "/") (cp "#") = false.
Proof. reflexivity. Qed.

Lemma split_head_slash (t : str) (c : codepoint) :
  N.eqb (cp "/") c = false -> split_head (cp "/" :: t) c = cp "/" :: split_head t c.
Proof. intros H. cbn [split_head]. by rewrite H. Qed.

Lemma _normalize_link_normal (link base_url r : str) :
  _normalize_link link base_url = Some r -> normal r.
Proof.
  unfold _normalize_link.
  set (l1 := if startswith link base_url then _ else _).
  set (l2 := if negb (startswith l1 (lit "/")) then _ else _).
  assert (H2 : exists t, l2 = cp "/" :: t).
  { unfold l2. rewrite lit_slash. destruct l1 as [|c t]; cbn; [by eauto|].
    destruct (N.eqb_spec (cp "/") c) as [<-|_]; cbn; eauto. }
  set (l3 := if contains l2 (lit "?") then _ else _).
  assert (H3 : (exists t, l3 = cp "/" :: t) /\ ~ In (cp "?") l3).
  { unfold l3. rewrite lit_question. destruct (contains l2 [cp "?"]) eqn:E.
    - split; [|apply split_head_removes].
      destruct H2 as [t ->]. rewrite split_head_slash by apply slash_ne_question.
      eauto.
    - split; [done|]. intros H. apply (contains_one l2) in H. congruence. }
  set (l4 := if contains l3 (lit "#") then _ else _).
  assert (H4 : (exists t, l4 = cp "/" :: t) /\ ~ In (cp "?") l4 /\ ~ In (cp "#") l4).
  { unfold l4. rewrite lit_hash. destruct H3 as [[t Ht] Hq].
    destruct (contains l3 [cp "#"]) eqn:E.
    - split; [rewrite Ht, split_head_slash by apply slash_ne_hash; eauto|].
      split; [|apply split_head_removes].
      intros H. by apply split_head_subset in H.
    - split; [eauto|]. split; [done|]. intros H. apply (contains_one l3) in H.
      congruence. }
  destruct H4 as [[t Ht] [Hq Hh]]. clearbody l4. clear l1 l2 l3 H2 H3.
  rewrite lit_slash.
  destruct (bool_decide (l4 ≠ [cp "/"]) && endswith l4 [cp "/"]) eqn:E.
  - destruct (rstrip l4 (cp "/")) as [|c r'] eqn:Er; [done|].
    cbn [truthy]. intros [= <-]. rewrite <- Er. unfold normal. rewrite lit_slash.
    split; [|split; [|split]].
    + rewrite Ht in *. destruct (rstrip_head (cp "/") t (cp "/")) as [r0 Hr0];
        [by rewrite Er|]. eauto.
    + intros H. by apply rstrip_subset in H.
    + intros H. by apply rstrip_subset in H.
    + right. apply rstrip_not_endswith.
  - subst l4. cbn [truthy]. intros [= <-]. unfold normal. rewrite lit_slash.
    split; [eauto|]. split; [done|]. split; [done|].
    apply andb_false_iff in E as [E|E]; [left|by right].
    apply bool_decide_eq_false in E.
    destruct (decide (cp "/" :: t = [cp "/"])); [done|]. by destruct E.
Qed.

(** A normal link is left as it is, for a base URL that does not begin
    with a slash. *)
Lemma _normalize_link_fixed (r base_url : str) :
  startswith base_url (lit "/") = false ->
  normal r -> _normalize_link r base_url = Some r.
Proof.
  rewrite lit_slash. intros Hbase [[t ->] [Hq [Hh Hend]]].
  unfold _normalize_link.
  assert (E1 : (if startswith (cp "/" :: t) base_url
                then slice_from (cp "/" :: t) (length base_url)
                else cp "/" :: t) = cp "/" :: t).
  { destruct base_url as [|b base]; [done|].
    cbn in Hbase. cbn [startswith]. rewrite N.eqb_sym.
    by destruct (N.eqb (cp "/") b). }
  rewrite E1, lit_slash, lit_question, lit_hash.
  cbn [startswith]. rewrite N.eqb_refl. cbn [negb].
  rewrite (contains_one_false _ _ Hq), (contains_one_false _ _ Hh).
  rewrite lit_slash in Hend. destruct Hend as [E|E].
  - injection E as ->. reflexivity.
  - by rewrite E, andb_false_r.
Qed.

(** C9: normalising a normalised link changes nothing.  The base URL is
    the one the run was started with, an absolute URL: it does not begin
    with a slash. *)
Theorem _normalize_link_idempotent (link base_url path : str) :
  startswith base_url (lit "/") = false ->
  _normalize_link link base_url = Some path ->
  _normalize_link path base_url = Some path.
Proof.
  intros Hbase H. apply _normalize_link_fixed; [done|].
  by apply _normalize_link_normal in H.
Qed.

(** An absolute link with a query and a fragment. *)
Lemma _normalize_link_idempotent_witness :
  startswith (lit "http://api.example.com") (lit "/") = false
  /\ _normalize_link (lit "http://api.example.com/users/?page=2#top")
       (lit "http://api.example.com") = Some (lit "/users")
  /\ _normalize_link (lit "/users") (lit "http://api.example.com") = Some (lit "/users").
Proof.
  split; [reflexivity|]. split; [reflexivity|].
  apply (_normalize_link_idempotent (lit "http://api.example.com/users/?page=2#top"));
    reflexivity.
Defined.

(** With a base URL that begins with a slash the prefix is stripped again. *)
Lemma _normalize_link_relative_base :
  _normalize_link (lit "/api/api/x") (lit "/api") = Some (lit "/api/x")
  /\ _normalize_link (lit "/api/x") (lit "/api") = Some (lit "/x").
Proof. split; reflexivity. Qed.

End LinkFacts.

(** ** The store *)

Module DatabaseFacts.
Import Py Json Database StoreShape.

Section Rows.
Context {R : Type}.
Implicit Types (p q : R -> bool) (f : R -> R) (rows : list R).

(** Reading after an [UPDATE] that keeps the columns the [SELECT] tests. *)
Lemma find_update_where p q f rows :
  (forall r, p (f r) = p r) ->
  List.find p (update_where q f rows)
  = (fun r => if q r then f r else r) <$> List.find p rows.
Proof.
  intros Hp. induction rows as [|r rows IH]; [done|].
  cbn [update_where List.map List.find]. fold (update_where q f rows).
  destruct (q r) eqn:Eq.
  - rewrite Hp. destruct (p r); [cbn; by rewrite Eq|exact IH].
  - destruct (p r); [cbn; by rewrite Eq|exact IH].
Qed.

(** Reading after an [INSERT]. *)
Lemma find_snoc p rows r :
  List.find p (rows ++ [r])
  = match List.find p rows with
    | Some r' => Some r'
    | None => if p r then Some r else None
    end.
Proof.
  induction rows as [|r0 rows IH]; cbn [app List.find]; [done|].
  destruct (p r0); [done|exact IH].
Qed.

Lemma find_some_true p rows r : List.find p rows = Some r -> p r = true.
Proof. intros H. by apply List.find_some in H as [_ H]. Qed.

Lemma length_update_where q f rows : length (update_where q f rows) = length rows.
Proof. apply length_map. Qed.
End Rows.

(** C10: [upsert_service] leaves a row for [name] whose base URL is the one
    supplied.  When a row for [name] was there, it keeps its id, and its
    description, server header, robots text and metadata are replaced by the
    supplied value only when that value is not empty: an upsert with another
    base URL repoints the service and otherwise leaves it as it was. *)
Theorem upsert_service_overwrites_base_url (now : str) (db : Db)
    (name base_url description server_header robots_txt : str)
    (metadata : list (str * json)) :
  let result :=
    upsert_service now db name base_url description server_header robots_txt metadata in
  exists row,
    get_service result.2 name = Some row
    /\ svc_id row = result.1
    /\ svc_name row = name
    /\ svc_base_url row = base_url
    /\ match get_service db name with
       | Some old =>
           svc_id row = svc_id old
           /\ svc_description row
              = (if bool_decide (description ≠ []) then description
                 else svc_description old)
           /\ svc_server_header row
              = (if bool_decide (server_header ≠ []) then server_header
                 else svc_server_header old)
           /\ svc_robots_txt row
              = (if bool_decide (robots_txt ≠ []) then robots_txt
                 else svc_robots_txt old)
           /\ svc_metadata_json row
              = (if bool_decide (metadata ≠ []) then metadata
                 else svc_metadata_json old)
           /\ length (services result.2) = length (services db)
       | None =>
           svc_description row = description
           /\ svc_server_header row = server_header
           /\ svc_robots_txt row = robots_txt
           /\ svc_metadata_json row = metadata
       end.
Proof.
  unfold upsert_service, get_service.
  destruct (List.find _ (services db)) as [old|] eqn:E; cbn [fst snd services].
  - rewrite find_update_where by done. rewrite E. cbn [fmap option_fmap option_map].
    pose proof (find_some_true _ _ _ E) as Hname. rewrite Hname.
    apply bool_decide_eq_true in Hname.
    eexists. split; [reflexivity|]. cbn.
    rewrite length_update_where. by repeat split.
  - rewrite find_snoc, E. cbn. rewrite bool_decide_eq_true_2 by done.
    eexists. split; [reflexivity|]. by repeat split.
Qed.

(** *** Endpoints *)

Lemma sorted_set (xs : list str) : list_to_set (sorted xs) =@{gset str} list_to_set xs.
Proof. unfold sorted. by rewrite merge_sort_Permutation. Qed.

Lemma sorted_int_set (xs : list Z) : list_to_set (sorted_int xs) =@{gset Z} list_to_set xs.
Proof. unfold sorted_int. by rewrite merge_sort_Permutation. Qed.

(** The merge of a column with a supplied list holds the union. *)
Lemma merge_sorted_set (column incoming : list str) :
  list_to_set (merge_sorted column incoming)
  =@{gset str} list_to_set column ∪ list_to_set incoming.
Proof.
  unfold merge_sorted. rewrite sorted_set, list_to_set_elements_L.
  case_bool_decide as E; [done|].
  subst incoming. set_solver.
Qed.

Lemma merge_sorted_int_set (column incoming : list Z) :
  list_to_set (merge_sorted_int column incoming)
  =@{gset Z} list_to_set column ∪ list_to_set incoming.
Proof.
  unfold merge_sorted_int. rewrite sorted_int_set, list_to_set_elements_L.
  case_bool_decide as E; [done|].
  subst incoming. set_solver.
Qed.

Lemma map_ep_id_update_where (q : EndpointRow -> bool) (f : EndpointRow -> EndpointRow)
    (rows : list EndpointRow) :
  (forall r, ep_id (f r) = ep_id r) ->
  List.map ep_id (update_where q f rows) = List.map ep_id rows.
Proof.
  intros Hf. unfold update_where. rewrite List.map_map. apply map_ext.
  intros r. destruct (q r); [apply Hf|done].
Qed.

(** [upsert_endpoint] keeps the row ids distinct. *)
Lemma upsert_call_ok (db : Db) (c : EndpointCall) :
  endpoints_ok db -> endpoints_ok (upsert_call db c).
Proof.
  intros [Hnd Hle]. unfold upsert_call, upsert_endpoint, endpoints_ok.
  destruct (List.find _ (endpoints db)) as [existing|]; cbn.
  - rewrite map_ep_id_update_where by done. split; [done|].
    unfold update_where. apply Forall_map. eapply Forall_impl; [exact Hle|].
    intros r Hr. cbn. by destruct (bool_decide _).
  - rewrite List.map_app. cbn. split.
    + apply NoDup_app. split; [done|]. split; [|apply NoDup_singleton].
      intros i Hi Hin. apply list_elem_of_singleton in Hin. subst i.
      apply list_elem_of_In, in_map_iff in Hi as (r & Hid & Hr).
      rewrite List.Forall_forall in Hle. specialize (Hle r Hr). lia.
    + apply Forall_app. split; [|by apply Forall_singleton; cbn].
      eapply Forall_impl; [exact Hle|]. intros r Hr. cbn in *. lia.
Qed.

Lemma NoDup_map_In_inj {A B} (f : A -> B) (l : list A) (x y : A) :
  NoDup (List.map f l) -> In x l -> In y l -> f x = f y -> x = y.
Proof.
  induction l as [|a l IH]; cbn; [done|].
  intros Hnd Hx Hy Hf. apply NoDup_cons in Hnd as [Ha Hnd].
  destruct Hx as [->|Hx], Hy as [->|Hy]; [done| | |by apply IH].
  - exfalso. apply Ha. rewrite Hf. apply list_elem_of_In, in_map, Hy.
  - exfalso. apply Ha. rewrite <- Hf. apply list_elem_of_In, in_map, Hx.
Qed.

Lemma same_endpoint_true (service_id : nat) (path : str) (r : EndpointRow) :
  same_endpoint service_id path r = true <-> ep_service_id r = service_id /\ ep_path r = path.
Proof.
  unfold same_endpoint. rewrite andb_true_iff, !bool_decide_eq_true. done.
Qed.

(** A call that addresses another endpoint leaves the row as it is. *)
Lemma upsert_call_other (db : Db) (c : EndpointCall) (service_id : nat) (path : str) :
  endpoints_ok db ->
  ~ (c_service_id c = service_id /\ c_path c = path) ->
  endpoint (upsert_call db c) service_id path = endpoint db service_id path.
Proof.
  intros [Hnd _] Hother. unfold endpoint, upsert_call, upsert_endpoint.
  destruct (List.find (same_endpoint (c_service_id c) (c_path c)) (endpoints db))
    as [existing|] eqn:E; cbn.
  - rewrite find_update_where by done.
    destruct (List.find (same_endpoint service_id path) (endpoints db)) as [r|] eqn:Er;
      [|done].
    cbn. rewrite bool_decide_eq_false_2; [done|].
    intros Hid. apply List.find_some in E as [He Hke], Er as [Hr Hkr].
    assert (r = existing) as -> by (by eapply NoDup_map_In_inj).
    apply same_endpoint_true in Hke, Hkr. apply Hother. destruct Hke, Hkr. split; congruence.
  - rewrite find_snoc.
    destruct (List.find (same_endpoint service_id path) (endpoints db)); [done|].
    destruct (same_endpoint service_id path _) eqn:Ek; [|done].
    apply same_endpoint_true in Ek. cbn in Ek. by destruct Hother.
Qed.

(** A call that addresses the endpoint leaves a row for it: its sets are
    the unions with the supplied lists, its flag the disjunction, and its
    hint the supplied one unless that is empty. *)
Lemma upsert_call_same (db : Db) (c : EndpointCall) :
  let old := endpoint db (c_service_id c) (c_path c) in
  let new := endpoint (upsert_call db c) (c_service_id c) (c_path c) in
  is_Some new
  /\ methods_of new = methods_of old ∪ list_to_set (c_methods c)
  /\ status_codes_of new = status_codes_of old ∪ list_to_set (c_status_codes c)
  /\ content_types_of new = content_types_of old ∪ list_to_set (c_content_types c)
  /\ auth_required_of new = auth_required_of old || c_auth_required c
  /\ auth_type_hint_of new
     = (if bool_decide (c_auth_type_hint c ≠ []) then c_auth_type_hint c
        else auth_type_hint_of old).
Proof.
  unfold endpoint, upsert_call, upsert_endpoint.
  destruct (List.find (same_endpoint (c_service_id c) (c_path c)) (endpoints db))
    as [existing|] eqn:E; cbn.
  - rewrite find_update_where by done. rewrite E. cbn.
    rewrite bool_decide_eq_true_2 by done. cbn.
    rewrite !merge_sorted_set, merge_sorted_int_set.
    split; [by eexists|]. do 3 (split; [done|]). split; [|done].
    destruct (c_auth_required c); [by rewrite orb_true_r|by rewrite orb_false_r].
  - rewrite find_snoc, E.
    assert (Ek : same_endpoint (c_service_id c) (c_path c)
                   {| ep_id := S (seq_endpoints db);
                      ep_service_id := c_service_id c; ep_path := c_path c;
                      ep_methods_json := sorted (c_methods c);
                      ep_status_codes_json := sorted_int (c_status_codes c);
                      ep_auth_required := if c_auth_required c then true else false;
                      ep_auth_type_hint := c_auth_type_hint c;
                      ep_content_types_json := sorted (c_content_types c);
                      ep_discovered_by := c_discovered_by c |} = true)
      by (by apply same_endpoint_true).
    rewrite Ek. cbn. rewrite !sorted_set, sorted_int_set.
    split; [by eexists|]. do 3 (split; [set_solver|]).
    split; [by destruct (c_auth_required c)|].
    by case_bool_decide as Eh.
Qed.

Lemma upsert_calls_ok (db : Db) (calls : list EndpointCall) :
  endpoints_ok db -> endpoints_ok (upsert_calls db calls).
Proof.
  revert db. induction calls as [|c calls IH]; intros db H; [done|].
  cbn. apply IH. by apply upsert_call_ok.
Qed.

(** A row that is there stays there. *)
Lemma upsert_call_keeps (db : Db) (c : EndpointCall) (service_id : nat) (path : str) :
  endpoints_ok db ->
  is_Some (endpoint db service_id path) ->
  is_Some (endpoint (upsert_call db c) service_id path).
Proof.
  intros Hok H.
  destruct (decide (c_service_id c = service_id /\ c_path c = path)) as [[<- <-]|Hne].
  - by destruct (upsert_call_same db c) as (? & _).
  - by rewrite upsert_call_other.
Qed.

Lemma upsert_calls_keeps (db : Db) (calls : list EndpointCall) (service_id : nat)
    (path : str) :
  endpoints_ok db ->
  is_Some (endpoint db service_id path) ->
  is_Some (endpoint (upsert_calls db calls) service_id path).
Proof.
  revert db. induction calls as [|c calls IH]; intros db Hok H; [done|].
  cbn. apply IH; [by apply upsert_call_ok|by apply upsert_call_keeps].
Qed.

(** C3: after any sequence of [upsert_endpoint] calls, the row of an
    endpoint holds, as sets, its former methods, status codes and content
    types together with all those the calls for this endpoint supplied;
    [auth_required] is the disjunction of its former value and the supplied
    ones, so that it stays true once true; and [auth_type_hint] is the last
    supplied hint that is not empty, the former hint when there is none. *)
Theorem upsert_endpoint_accumulates (db : Db) (calls : list EndpointCall)
    (service_id : nat) (path : str) :
  endpoints_ok db ->
  let old := endpoint db service_id path in
  let new := endpoint (upsert_calls db calls) service_id path in
  let mine := calls_for service_id path calls in
  methods_of new = methods_of old ∪ supplied c_methods mine
  /\ status_codes_of new = status_codes_of old ∪ supplied c_status_codes mine
  /\ content_types_of new = content_types_of old ∪ supplied c_content_types mine
  /\ auth_required_of new = auth_required_of old || existsb c_auth_required mine
  /\ (auth_required_of old = true -> auth_required_of new = true)
  /\ auth_type_hint_of new = last_hint (auth_type_hint_of old) mine
  /\ (mine <> [] -> is_Some new).
Proof.
  revert db. induction calls as [|c calls IH]; intros db Hok; cbn zeta.
  - cbn. unfold supplied. cbn. rewrite orb_false_r.
    repeat split; try done; set_solver.
  - pose proof (upsert_call_ok db c Hok) as Hok'.
    specialize (IH (upsert_call db c) Hok'). cbn zeta in IH.
    change (upsert_calls db (c :: calls)) with (upsert_calls (upsert_call db c) calls).
    destruct IH as (IHm & IHs & IHc & IHa & _ & IHh & IHe).
    unfold calls_for in *. cbn [List.filter].
    destruct (bool_decide (c_service_id c = service_id) && bool_decide (c_path c = path))
      eqn:Ekey.
    + apply andb_true_iff in Ekey as [E1 E2].
      apply bool_decide_eq_true in E1, E2. subst service_id path.
      destruct (upsert_call_same db c) as (Hnew & Hm & Hs & Hc & Ha & Hh).
      rewrite IHm, IHs, IHc, IHa, IHh, Hm, Hs, Hc, Ha, Hh.
      unfold supplied. cbn [List.map union_list foldr existsb last_hint fold_left].
      split; [set_solver|]. split; [set_solver|]. split; [set_solver|].
      split; [by rewrite orb_assoc|]. split; [by intros ->|]. split; [done|].
      intros _. by apply upsert_calls_keeps.
    + assert (Hne : ~ (c_service_id c = service_id /\ c_path c = path)).
      { intros [<- <-]. by rewrite !bool_decide_eq_true_2 in Ekey. }
      rewrite (upsert_call_other db c service_id path Hok Hne) in *.
      do 4 (split; [done|]). split; [|done]. intros E. by rewrite IHa, E.
Qed.

(** Two calls for the endpoint of the example store. *)
Lemma upsert_endpoint_accumulates_witness :
  let calls :=
    [{| c_service_id := 1; c_path := lit "/notes"; c_methods := [lit "POST"];
        c_status_codes := [401%Z]; c_auth_required := true;
        c_auth_type_hint := lit "bearer"; c_content_types := [lit "application/json"];
        c_discovered_by := lit "pattern" |};
     {| c_service_id := 1; c_path := lit "/notes"; c_methods := [lit "HEAD"; lit "GET"];
        c_status_codes := [200%Z]; c_auth_required := false;
        c_auth_type_hint := []; c_content_types := [];
        c_discovered_by := [] |}] in
  endpoints_ok example_db
  /\ methods_of (endpoint (upsert_calls example_db calls) 1 (lit "/notes"))
     = {[ lit "GET"; lit "POST"; lit "HEAD" ]}
  /\ auth_required_of (endpoint (upsert_calls example_db calls) 1 (lit "/notes")) = true
  /\ auth_type_hint_of (endpoint (upsert_calls example_db calls) 1 (lit "/notes"))
     = lit "bearer".
Proof.
  assert (Hok : endpoints_ok example_db).
  { split; [apply NoDup_singleton|]. apply Forall_singleton. vm_compute. lia. }
  split; [exact Hok|].
  pose proof (upsert_endpoint_accumulates example_db
    [{| c_service_id := 1; c_path := lit "/notes"; c_methods := [lit "POST"];
        c_status_codes := [401%Z]; c_auth_required := true;
        c_auth_type_hint := lit "bearer"; c_content_types := [lit "application/json"];
        c_discovered_by := lit "pattern" |};
     {| c_service_id := 1; c_path := lit "/notes"; c_methods := [lit "HEAD"; lit "GET"];
        c_status_codes := [200%Z]; c_auth_required := false;
        c_auth_type_hint := []; c_content_types := [];
        c_discovered_by := [] |}] 1 (lit "/notes") Hok) as (Hm & _ & _ & Ha & _ & Hh & _).
  cbn zeta. rewrite Hm, Ha, Hh. split; [|split; reflexivity].
  apply set_eq. intros x. vm_compute list_to_set. set_solver.
Defined.

(** *** Responses *)

(** Every call appends one row; the sample kept is the first 2048
    characters of the one supplied. *)
Lemma add_response_appends (db : Db) (endpoint_id : nat) (method : str)
    (status_code : Z) (headers : list (str * str)) (body_schema : json)
    (body_sample content_type : str) (elapsed_ms : Z) :
  exists row,
    responses (add_response db endpoint_id method status_code headers body_schema
                 body_sample content_type elapsed_ms)
    = responses db ++ [row]
    /\ rsp_endpoint_id row = endpoint_id
    /\ rsp_body_sample row = take 2048 body_sample
    /\ length (rsp_body_sample row) <= 2048.
Proof.
  unfold add_response. eexists. cbn [responses]. split; [reflexivity|].
  cbn [rsp_endpoint_id rsp_body_sample]. split; [done|].
  unfold len, slice_to.
  destruct (Z.ltb_spec 2048 (Z.of_nat (length body_sample))) as [Hlt|Hle].
  - split; [done|]. rewrite length_take. lia.
  - rewrite take_ge by lia. split; [done|lia].
Qed.

(** C4, at the failing input: a sample of 2048 characters that are not
    ASCII is stored whole, and its UTF-8 encoding, which is what the column
    holds, has 4096 bytes. *)
Theorem add_response_sample_longer_than_2048_bytes :
  let db :=
    add_response example_db 1 (lit "GET") 200 [] (JObj []) accented_body
      (lit "text/plain; charset=utf-8") 12 in
  (rsp_body_sample <$> last (responses db)) = Some accented_body
  /\ length accented_body = 2048
  /\ utf8_len accented_body = 4096.
Proof. vm_compute. done. Qed.

(** *** Probe runs *)












End DatabaseFacts.

(** ** The spec scanner *)

Module ScannerFacts.
Import Py Json Http Robots Discovery ScannerShape.

Section WithEnvironment.
Variable transport : Transport.
Variable can_fetch : str -> str -> str -> bool.
Variable json_loads : str -> option json.

(** A document [_try_parse_spec] returns is a mapping with a member. *)
Lemma _try_parse_spec_truthy (text : str) (spec : json) :
  _try_parse_spec json_loads text = Some spec -> json_truthy spec = true.
Proof.
  unfold _try_parse_spec. destruct (json_loads text) as [[| | | | | |data]|]; try done.
  destruct (_ || _) eqn:E; [|done]. intros [= <-].
  destruct data; [|done]. by vm_compute in E.
Qed.

Lemma get_issued (u : str) (c : HttpClient) :
  builds transport u = true ->
  get transport u c
  = (Some (receive transport (length (issued c)) u (lit "GET")),
     {| delay_ms := delay_ms c; _request_count := (_request_count c + 1)%Z;
        issued := issued c ++ [(lit "GET", u)] |}).
Proof. intros H. unfold get, request. by rewrite H. Qed.

Lemma get_refused (u : str) (c : HttpClient) :
  builds transport u = false -> get transport u c = (None, c).
Proof. intros H. unfold get, request. by rewrite H. Qed.

(** The loop of the scanner over any list of paths. *)
Lemma detect_openapi_from_scan (base_url : str) (robots_checker : option RobotsChecker)
    (paths : list str) (c : HttpClient) :
  let allowed :=
    List.filter (fun path => negb (denied can_fetch robots_checker path)) paths in
  let result := detect_openapi_from transport can_fetch json_loads base_url
                  robots_checker paths c in
  match result.1 with
  | Some (Some (u, spec)) =>
      exists j path,
        allowed !! j = Some path
        /\ u = base_url ++ path
        /\ document json_loads (answer transport c base_url j path) = Some spec
        /\ (forall i q, i < j -> allowed !! i = Some q ->
                        document json_loads (answer transport c base_url i q) = None)
        /\ issued result.2 = issued c ++ gets base_url (take (S j) allowed)
  | Some None =>
      (forall i q, allowed !! i = Some q ->
                   document json_loads (answer transport c base_url i q) = None)
      /\ issued result.2 = issued c ++ gets base_url allowed
  | None =>
      exists j path,
        allowed !! j = Some path
        /\ builds transport (base_url ++ path) = false
        /\ (forall i q, i < j -> allowed !! i = Some q ->
                        document json_loads (answer transport c base_url i q) = None)
        /\ issued result.2 = issued c ++ gets base_url (take j allowed)
  end
  /\ request_count result.2
     = (request_count c + Z.of_nat (length (issued result.2) - length (issued c)))%Z.
Proof.
  revert c. induction paths as [|path rest IH]; intros c; cbn zeta.
  - cbn. rewrite app_nil_r, Nat.sub_diag. split; [|lia]. split; [|done].
    intros i q Hq. by destruct i.
  - cbn [detect_openapi_from List.filter].
    destruct (denied can_fetch robots_checker path) eqn:Ed; cbn [negb]; [apply IH|].
    unfold bind.
    destruct (builds transport (base_url ++ path)) eqn:Eb; cycle 1.
    { rewrite (get_refused _ _ Eb). cbn [fst snd]. split.
      - exists 0, path. split; [done|]. split; [done|]. split.
        + intros i q Hi. lia.
        + cbn. by rewrite app_nil_r.
      - rewrite Nat.sub_diag. lia. }
    rewrite (get_issued _ _ Eb).
    set (c1 := {| delay_ms := delay_ms c; _request_count := (_request_count c + 1)%Z;
                  issued := issued c ++ [(lit "GET", base_url ++ path)] |}).
    set (resp := receive transport (length (issued c)) (base_url ++ path) (lit "GET")).
    assert (Hresp : answer transport c base_url 0 path = resp)
      by (unfold answer; by rewrite Nat.add_0_r).
    assert (Hshift : forall i q, answer transport c1 base_url i q
                                 = answer transport c base_url (S i) q).
    { intros i q. unfold answer, c1. cbn [issued]. rewrite length_app. cbn.
      by replace (length (issued c) + 1 + i) with (length (issued c) + S i) by lia. }
    set (allowed := List.filter _ rest) in *.
    assert (Hrest :
      document json_loads resp = None ->
      let result := detect_openapi_from transport can_fetch json_loads base_url
                      robots_checker rest c1 in
      match result.1 with
      | Some (Some (u, spec)) =>
          exists j path0,
            (path :: allowed) !! j = Some path0
            /\ u = base_url ++ path0
            /\ document json_loads (answer transport c base_url j path0) = Some spec
            /\ (forall i q, i < j -> (path :: allowed) !! i = Some q ->
                            document json_loads (answer transport c base_url i q) = None)
            /\ issued result.2 = issued c ++ gets base_url (take (S j) (path :: allowed))
      | Some None =>
          (forall i q, (path :: allowed) !! i = Some q ->
                       document json_loads (answer transport c base_url i q) = None)
          /\ issued result.2 = issued c ++ gets base_url (path :: allowed)
      | None =>
          exists j path0,
            (path :: allowed) !! j = Some path0
            /\ builds transport (base_url ++ path0) = false
            /\ (forall i q, i < j -> (path :: allowed) !! i = Some q ->
                            document json_loads (answer transport c base_url i q) = None)
            /\ issued result.2 = issued c ++ gets base_url (take j (path :: allowed))
      end
      /\ request_count result.2
         = (request_count c + Z.of_nat (length (issued result.2) - length (issued c)))%Z).
    { intros Hnone. cbn zeta. specialize (IH c1). cbn zeta in IH.
      destruct IH as [IH Hcount].
      assert (Hlen : forall c2 l,
        issued c2 = issued c1 ++ l ->
        request_count c2
        = (request_count c1 + Z.of_nat (length (issued c2) - length (issued c1)))%Z ->
        request_count c2
        = (request_count c + Z.of_nat (length (issued c2) - length (issued c)))%Z).
      { intros c2 l Hissued ->. rewrite Hissued. unfold c1, request_count.
        cbn [issued _request_count]. rewrite !length_app. cbn [length]. lia. }
      destruct (detect_openapi_from transport can_fetch json_loads base_url
                  robots_checker rest c1) as [[[[u spec]|]|] c2]; cbn [fst snd] in *.
      - destruct IH as (j & path0 & Hj & -> & Hdoc & Hbefore & Hissued).
        split; [|by eapply Hlen].
        exists (S j), path0. split; [done|]. split; [done|].
        split; [by rewrite <- Hshift|]. split.
        + intros [|i] q Hi Hq; [cbn in Hq; injection Hq as <-; by rewrite Hresp|].
          rewrite <- Hshift. apply Hbefore; [lia|done].
        + rewrite Hissued. unfold c1. cbn [issued]. by rewrite <- app_assoc.
      - destruct IH as (Hall & Hissued). split; [split|by eapply Hlen].
        + intros [|i] q Hq; [cbn in Hq; injection Hq as <-; by rewrite Hresp|].
          rewrite <- Hshift. by apply Hall.
        + rewrite Hissued. unfold c1. cbn [issued]. by rewrite <- app_assoc.
      - destruct IH as (j & path0 & Hj & Hb & Hbefore & Hissued).
        split; [|by eapply Hlen].
        exists (S j), path0. split; [done|]. split; [done|]. split.
        + intros [|i] q Hi Hq; [cbn in Hq; injection Hq as <-; by rewrite Hresp|].
          rewrite <- Hshift. apply Hbefore; [lia|done].
        + rewrite Hissued. unfold c1. cbn [issued]. by rewrite <- app_assoc. }
    unfold document in Hrest.
    destruct (ok resp && truthy (body resp)) eqn:Eok; [|by apply Hrest].
    destruct (_try_parse_spec json_loads (body resp)) as [spec|] eqn:Espec;
      [|by apply Hrest].
    rewrite (_try_parse_spec_truthy _ _ Espec). cbn [ret fst snd].
    split.
    + exists 0, path. split; [done|]. split; [done|]. split.
      * rewrite Hresp. unfold document. by rewrite Eok.
      * split; [intros i q Hi; lia|done].
    + unfold c1, request_count. cbn [issued _request_count].
      rewrite length_app. cbn [length]. lia.
Qed.

(** C8, as amended: the scanner requests, in the fixed order, the
    well-known paths the robots policy allows, and stops at the first answer
    with a status from 200 to 399 and a body that is not empty and parses to
    a mapping with one of the keys [paths], [swagger], [openapi]; it returns
    the URL and the document of that answer, and null when no answer is of
    this kind.  Each request is counted once.  When the request for an
    allowed path cannot be built, which is the case of a base URL without a
    scheme, the scanner raises there, after the requests for the allowed
    paths before it, none of which had such an answer. *)
Theorem detect_openapi_first_allowed_match (base_url : str)
    (robots_checker : option RobotsChecker) (c : HttpClient) :
  let base := rstrip base_url (cp "/") in
  let allowed := allowed_paths can_fetch robots_checker in
  let result := detect_openapi transport can_fetch json_loads base_url robots_checker c in
  match result.1 with
  | Some (Some (u, spec)) =>
      exists j path,
        allowed !! j = Some path
        /\ u = base ++ path
        /\ document json_loads (answer transport c base j path) = Some spec
        /\ (forall i q, i < j -> allowed !! i = Some q ->
                        document json_loads (answer transport c base i q) = None)
        /\ issued result.2 = issued c ++ gets base (take (S j) allowed)
  | Some None =>
      (forall i q, allowed !! i = Some q ->
                   document json_loads (answer transport c base i q) = None)
      /\ issued result.2 = issued c ++ gets base allowed
  | None =>
      exists j path,
        allowed !! j = Some path
        /\ builds transport (base ++ path) = false
        /\ (forall i q, i < j -> allowed !! i = Some q ->
                        document json_loads (answer transport c base i q) = None)
        /\ issued result.2 = issued c ++ gets base (take j allowed)
  end
  /\ request_count result.2
     = (request_count c + Z.of_nat (length (issued result.2) - length (issued c)))%Z.
Proof. apply detect_openapi_from_scan. Qed.
End WithEnvironment.

(** C8, the claim as stated fails.  An answer with status 404 whose body is
    a specification document is passed over: the scanner returns null after
    all fourteen requests, where the claim has it return the document after
    the first.  And a path the robots file disallows is not requested at
    all. *)
Lemma detect_openapi_passes_over_document :
  let c := new_client 0 in
  (detect_openapi_as_specified not_found_with_document loads_example example_base c).1
  = Some (Some (example_base ++ lit "/swagger.json", spec_document))
  /\ (detect_openapi not_found_with_document (fun _ _ _ => true) loads_example
        example_base None c).1 = Some None
  /\ length (issued (detect_openapi not_found_with_document (fun _ _ _ => true)
                       loads_example example_base None c).2) = 14
  /\ (detect_openapi_as_specified publishes_document loads_example example_base c).1
     = Some (Some (example_base ++ lit "/swagger.json", spec_document))
  /\ (detect_openapi publishes_document disallows_swagger loads_example
        example_base (Some example_robots) c).1 = Some None
  /\ ~ In (lit "GET", example_base ++ lit "/swagger.json")
         (issued (detect_openapi publishes_document disallows_swagger loads_example
                    example_base (Some example_robots) c).2).
Proof.
  vm_compute. repeat split; try reflexivity.
  intros H. repeat (destruct H as [[=]|H]). destruct H.
Qed.

End ScannerFacts.

(** ** The orchestrator *)

Module OrchestratorFacts.
Import Py Json Http Robots Database Discovery Orchestrator.
Import StoreShape ScannerShape Scenario RunShape.
#[local] Open Scope client_scope.

(** *** Counting requests *)

Lemma counted_refl (c : HttpClient) : counted c c.
Proof. exists []. rewrite app_nil_r. cbn. split; [done|lia]. Qed.

Lemma counted_trans (c1 c2 c3 : HttpClient) :
  counted c1 c2 -> counted c2 c3 -> counted c1 c3.
Proof.
  intros (l1 & E1 & N1) (l2 & E2 & N2). exists (l1 ++ l2).
  rewrite E2, E1, N2, N1, <- app_assoc, length_app. split; [done|lia].
Qed.

Lemma counted_set_delay_ms (c : HttpClient) (d : Z) : counted c (set_delay_ms c d).
Proof. exists []. cbn. rewrite app_nil_r. split; [done|]. unfold request_count. cbn. lia. Qed.

Lemma counts_ret {A} (a : A) : counts (ret a).
Proof. intros c. apply counted_refl. Qed.

Lemma counts_bind {A B} (m : M A) (k : A -> M B) :
  counts m -> (forall a, counts (k a)) -> counts (bind m k).
Proof.
  intros Hm Hk c. unfold bind. specialize (Hm c).
  destruct (m c) as [[a|] c1]; [|exact Hm].
  eapply counted_trans; [exact Hm|apply Hk].
Qed.

Lemma counts_raise {A} : counts (@raise A).
Proof. intros c. apply counted_refl. Qed.

Lemma counts_get_request_count : counts get_request_count.
Proof. intros c. apply counted_refl. Qed.

Section Counting.
Variable transport : Transport.
Variable can_fetch : str -> str -> str -> bool.
Variable json_loads : str -> option json.
Variable read_lines : str -> option (list str).

(** Each call of [request] that returns is counted once and logged once;
    one that raises is neither counted nor logged. *)
Lemma request_counted (u m : str) (c : HttpClient) :
  let out := request transport u m c in
  if builds transport u
  then out.1 = Some (receive transport (length (issued c)) u m)
       /\ request_count out.2 = (request_count c + 1)%Z
       /\ issued out.2 = issued c ++ [(m, u)]
  else out = (None, c).
Proof. cbn zeta. unfold request. by destruct (builds transport u). Qed.

Lemma counts_request (u m : str) : counts (request transport u m).
Proof.
  intros c. unfold request. destruct (builds transport u); [|apply counted_refl].
  exists [(m, u)]. split; [done|]. unfold request_count. cbn. lia.
Qed.

#[local] Ltac counting :=
  repeat first
    [ apply counts_ret | apply counts_request | apply counts_get_request_count
    | apply counts_raise
    | apply counts_bind; [|intros ?]
    | match goal with
      | |- counts (if ?b then _ else _) => destruct b
      | |- counts (match ?x with _ => _ end) => destruct x
      | |- counts (let (_, _) := ?x in _) => destruct x
      end ].

Lemma counts_detect_openapi_from (base_url : str) (robots_checker : option RobotsChecker)
    (paths : list str) :
  counts (detect_openapi_from transport can_fetch json_loads base_url robots_checker paths).
Proof.
  induction paths as [|path rest IH]; cbn [detect_openapi_from]; [counting|].
  destruct (denied _ _ _); [exact IH|].
  apply counts_bind; [apply counts_request|]. intros resp.
  destruct (ok resp && truthy (body resp)); [|exact IH].
  destruct (_try_parse_spec _ _) as [spec|]; [|exact IH].
  destruct (json_truthy spec); [apply counts_ret|exact IH].
Qed.

Lemma counts_probe_each (base_url : str) (robots_checker : option RobotsChecker)
    (max_requests : Z) (paths : list str) (known : gset str)
    (results : list (str * HttpResponse)) :
  counts (probe_each transport can_fetch base_url robots_checker max_requests paths
            known results).
Proof.
  revert known results. induction paths as [|path rest IH]; intros known results;
    cbn [probe_each]; [counting|].
  apply counts_bind; [apply counts_get_request_count|]. intros n.
  destruct (_ && _); [apply counts_ret|].
  destruct (decide (path ∈ known)); [apply IH|].
  destruct (denied _ _ _); [apply IH|].
  apply counts_bind; [apply counts_request|]. intros resp.
  apply counts_bind; [destruct (_ =? _)%Z; [apply counts_request|apply counts_ret]|].
  intros resp'. destruct (found resp'); apply IH.
Qed.

Lemma counts_test_methods_loop (u : str) (methods_to_test : list str) (a : MethodAcc) :
  counts (test_methods_loop transport u methods_to_test a).
Proof.
  revert a. induction methods_to_test as [|m rest IH]; intros a;
    cbn [test_methods_loop]; [counting|].
  apply counts_bind; [apply counts_request|]. intros resp.
  destruct (test_methods_step m resp a); [apply IH|apply counts_raise].
Qed.

Lemma counts_get_each (base_url : str) (robots_checker : option RobotsChecker)
    (paths : list str) (known : gset str) (round_results : list (str * HttpResponse)) :
  counts (get_each transport can_fetch base_url robots_checker paths known round_results).
Proof.
  revert known round_results. induction paths as [|path rest IH];
    intros known round_results; cbn [get_each]; [counting|].
  destruct (denied _ _ _); [apply IH|].
  apply counts_bind; [apply counts_request|]. intros resp.
  destruct (found resp); apply IH.
Qed.

Lemma counts_discover_rounds (rounds : nat) (base_url : str) (d : Db) (service_id : nat)
    (robots_checker : option RobotsChecker) (known : gset str)
    (all_results : list (str * HttpResponse)) :
  counts (discover_rounds transport can_fetch json_loads rounds base_url d service_id
            robots_checker known all_results).
Proof.
  revert known all_results. induction rounds as [|rounds IH]; intros known all_results;
    cbn [discover_rounds]; [counting|].
  destruct (decide (_ = ∅)); [apply counts_ret|].
  apply counts_bind; [apply counts_get_each|]. intros [round_results known'].
  destruct round_results; [apply counts_ret|apply IH].
Qed.

(** Every strategy counts the requests it makes. *)
Lemma counts_probe_wordlist (base_url : str) (names : list str)
    (robots_checker : option RobotsChecker) (known_paths : gset str) (max_requests : Z) :
  counts (probe_wordlist transport can_fetch read_lines base_url names robots_checker
            known_paths max_requests).
Proof.
  apply counts_bind; [apply counts_probe_each|]. intros [? ?]. apply counts_ret.
Qed.

Lemma counts_probe_patterns (base_url : str) (config : Config.Config)
    (robots_checker : option RobotsChecker) (known_paths : gset str) (max_requests : Z) :
  counts (probe_patterns transport can_fetch base_url config robots_checker known_paths
            max_requests).
Proof.
  apply counts_bind; [apply counts_probe_each|]. intros [? ?]. apply counts_ret.
Qed.

Lemma counts_test_methods (base_url path : str) (skip_destructive : bool) :
  counts (test_methods transport base_url path skip_destructive).
Proof.
  apply counts_bind; [apply counts_test_methods_loop|]. intros ?. apply counts_ret.
Qed.

Lemma counts_discover_from_responses (base_url : str) (d : Db) (service_id : nat)
    (robots_checker : option RobotsChecker) (known_paths : gset str) (max_depth : nat) :
  counts (discover_from_responses transport can_fetch json_loads base_url d service_id
            robots_checker known_paths max_depth).
Proof.
  apply counts_bind; [apply counts_discover_rounds|]. intros [? ?]. apply counts_ret.
Qed.
End Counting.

(** *** What leaves the [probe_runs] table alone *)

Lemma same_runs_refl (d : Db) : same_runs d d.
Proof. done. Qed.

Lemma same_runs_trans (d1 d2 d3 : Db) :
  same_runs d1 d2 -> same_runs d2 d3 -> same_runs d1 d3.
Proof. intros [E1 S1] [E2 S2]. split; congruence. Qed.

Lemma same_runs_upsert_service (now : str) (d : Db) (name base_url description
    server_header robots_txt : str) (metadata : list (str * json)) :
  same_runs d
    (upsert_service now d name base_url description server_header robots_txt metadata).2.
Proof. unfold upsert_service. by destruct (List.find _ _). Qed.

Lemma same_runs_upsert_endpoint (d : Db) (service_id : nat) (path : str)
    (methods : list str) (status_codes : list Z) (auth_required : bool)
    (auth_type_hint : str) (content_types : list str) (discovered_by : str) :
  same_runs d
    (upsert_endpoint d service_id path methods status_codes auth_required
       auth_type_hint content_types discovered_by).2.
Proof. unfold upsert_endpoint. by destruct (List.find _ _). Qed.

Lemma same_runs_add_response (d : Db) (endpoint_id : nat) (method : str)
    (status_code : Z) (headers : list (str * str)) (body_schema : json)
    (body_sample content_type : str) (elapsed_ms : Z) :
  same_runs d
    (add_response d endpoint_id method status_code headers body_schema body_sample
       content_type elapsed_ms).
Proof. done. Qed.

Lemma same_runs_upsert_parameter (d : Db) (endpoint_id : nat) (name param_type
    location : str) (required : bool) (example_value : str) :
  same_runs d
    (upsert_parameter d endpoint_id name param_type location required example_value).
Proof. unfold upsert_parameter. by destruct (List.find _ _). Qed.

Lemma same_runs_fold_left {A} (f : Db -> A -> Db) (l : list A) (d : Db) :
  (forall d a, same_runs d (f d a)) -> same_runs d (fold_left f l d).
Proof.
  intros Hf. revert d. induction l as [|a l IH]; intros d; [done|].
  cbn. eapply same_runs_trans; [apply Hf|apply IH].
Qed.

Lemma same_runs__process_results (json_loads : str -> option json) (d : Db)
    (service_id : nat) (results : list (str * HttpResponse)) (discovered_by : str) :
  same_runs d (_process_results json_loads d service_id results discovered_by).
Proof.
  unfold _process_results. apply same_runs_fold_left.
  intros d0 [path resp].
  pose proof (same_runs_upsert_endpoint d0 service_id path
                (if truthy (method resp) then [method resp] else [])
                [status_code resp] (bool_decide (status_code resp ∈ [401%Z; 403%Z]))
                (ingest_auth_hint resp)
                (if truthy (content_type resp)
                 then if truthy (media_type (content_type resp))
                      then [media_type (content_type resp)] else []
                 else [])
                discovered_by) as H.
  destruct (upsert_endpoint _ _ _ _ _ _ _ _ _) as [ep_id d1]. cbn [snd] in H.
  destruct (_ && _); [|done].
  eapply same_runs_trans; [exact H|apply same_runs_add_response].
Qed.

(** The hint [_process_results] stores is [bearer], [basic] or empty. *)
Lemma ingest_auth_hint_values (resp : HttpResponse) :
  ingest_auth_hint resp = lit "bearer"
  \/ ingest_auth_hint resp = lit "basic"
  \/ ingest_auth_hint resp = [].
Proof.
  unfold ingest_auth_hint. repeat case_match; auto.
Qed.

(** C6, at failing inputs: for an answer 401 that asks for Digest
    authentication, [_process_results] stores the endpoint with
    [auth_required] set and an empty hint, where [test_methods] yields the
    first token of the header; for one that names [api_key] it stores an
    empty hint as well, where [test_methods] yields [api_key]. *)
Theorem _process_results_leaves_hint_empty :
  let ingest (challenge : string) :=
    endpoint
      (_process_results (fun _ => None) example_db 1
         [(lit "/private", unauthorized challenge)] (lit "wordlist"))
      1 (lit "/private") in
  let tested (challenge : string) :=
    (test_methods (challenges challenge) example_base (lit "/private") true
       (new_client 0)).1 in
  (ep_auth_required <$> ingest "Digest realm=x"%string) = Some true
  /\ (ep_auth_type_hint <$> ingest "Digest realm=x"%string) = Some []
  /\ (mi_auth_type_hint <$> tested "Digest realm=x"%string) = Some (lit "Digest")
  /\ (ep_auth_required <$> ingest "api_key realm=x"%string) = Some true
  /\ (ep_auth_type_hint <$> ingest "api_key realm=x"%string) = Some []
  /\ (mi_auth_type_hint <$> tested "api_key realm=x"%string) = Some (lit "api_key").
Proof. vm_compute. done. Qed.

(** C1, at a failing input: with a budget of 2 requests and the spec scan
    as only strategy, against a server that knows none of the well-known
    paths, the run issues 15 requests: the base probe and all fourteen paths
    of the scan, which is entered with one request made and never compares
    the counter with the budget. *)
Theorem probe_exceeds_budget :
  let cfg := config 2 ["openapi"]%string in
  let w := (run_probe only_root (fun _ => false) cfg).2 in
  Config.max_requests cfg = 2%Z
  /\ request_count (client w) = 15%Z
  /\ length (issued (client w)) = 15
  /\ issued (client w)
     = (lit "GET", example_base) :: gets example_base SWAGGER_PATHS
  /\ ~ (request_count (client w) <= Config.max_requests cfg + 1)%Z.
Proof. vm_compute. repeat split; try reflexivity. intros H. by apply H. Qed.

Section AnyEnvironment.
Variable transport : Transport.
Variable can_fetch : str -> str -> str -> bool.
Variable parser_crawl_delay : str -> str -> option Z.
Variable json_loads : str -> option json.
Variable re_findall : nat -> str -> list str.
Variable read_lines : str -> option (list str).
Variable fetch_robots : str -> str -> option str.
Variable stop_file_exists : nat -> bool.
Variable utcnow : str.
Variable hostname : str -> option (option str).
Variable extract_endpoints_from_spec : json -> option (list SpecEndpoint).

(** *** The phases count their requests and write no run *)

Lemma advanced_refl (w : World) : advanced w w.
Proof. split; [apply counted_refl|done]. Qed.

Lemma advanced_trans (w1 w2 w3 : World) :
  advanced w1 w2 -> advanced w2 w3 -> advanced w1 w3.
Proof.
  intros [C1 R1] [C2 R2]. split; [by eapply counted_trans|by eapply same_runs_trans].
Qed.

Lemma advanced_run {A} (m : M A) (w : World) :
  counts m -> advanced w (world_of (run m w)).
Proof.
  intros Hm. unfold run. specialize (Hm (client w)).
  destruct (m (client w)) as [[a|] c]; by split.
Qed.

Lemma advanced_with_db (w : World) (d : Db) :
  same_runs (db w) d -> advanced w (with_db w d).
Proof. intros H. split; [apply counted_refl|exact H]. Qed.

Lemma advanced__check_limits (w : World) (n : Z) :
  advanced w (_check_limits stop_file_exists w n).2.
Proof.
  unfold _check_limits. destruct (_ <=? _)%Z; [apply advanced_refl|].
  split; [apply counted_refl|done].
Qed.

Lemma advanced_enabled (config : Config.Config) (name : string) (w : World) :
  advanced w (enabled stop_file_exists config name w).2.
Proof.
  unfold enabled. destruct (bool_decide _); [|apply advanced_refl].
  pose proof (advanced__check_limits w (max_requests config)) as H.
  by destruct (_check_limits _ _ _).
Qed.

Lemma same_runs_store_spec_endpoints (service_id : nat)
    (spec_endpoints : list SpecEndpoint) (d : Db) (known_paths : gset str) :
  same_runs d (store_spec_endpoints service_id spec_endpoints d known_paths).1.
Proof.
  unfold store_spec_endpoints. revert d known_paths.
  induction spec_endpoints as [|ep rest IH]; intros d known_paths; [done|].
  cbn [fold_left].
  pose proof (same_runs_upsert_endpoint d service_id (se_path ep) (se_methods ep) []
                false [] [] (lit "openapi")) as H.
  destruct (upsert_endpoint _ _ _ _ _ _ _ _ _) as [ep_id d1]. cbn [snd] in H.
  eapply same_runs_trans; [|apply IH].
  eapply same_runs_trans; [exact H|].
  apply same_runs_fold_left. intros d0 param. apply same_runs_upsert_parameter.
Qed.

Lemma advanced_phase_openapi (config : Config.Config) (service_name base_url : str)
    (service_id : nat) (robots : option RobotsChecker) (known_paths : gset str)
    (w : World) :
  advanced w
    (world_of
       (phase_openapi transport can_fetch json_loads stop_file_exists utcnow
          extract_endpoints_from_spec config service_name base_url service_id robots
          known_paths w)).
Proof.
  unfold phase_openapi.
  pose proof (advanced_enabled config "openapi" w) as H0.
  destruct (enabled _ _ _ _) as [go w0]. cbn [snd] in H0.
  destruct go; [|exact H0].
  pose proof (advanced_run
                (detect_openapi transport can_fetch json_loads base_url robots) w0
                (counts_detect_openapi_from _ _ _ _ _ _)) as H1.
  destruct (run _ w0) as [detected w1|w1]; cbn [world_of] in H1;
    pose proof (advanced_trans _ _ _ H0 H1) as H01; [|exact H01].
  destruct detected as [[spec_url spec]|]; [|exact H01].
  destruct (extract_endpoints_from_spec spec) as [spec_endpoints|]; [|exact H01].
  pose proof (same_runs_store_spec_endpoints service_id spec_endpoints (db w1)
                known_paths) as H2.
  destruct (store_spec_endpoints _ _ _ _) as [d2 known2]. cbn [fst] in H2.
  pose proof (advanced_trans _ _ _ H01 (advanced_with_db w1 d2 H2)) as H012.
  destruct (spec_metadata spec_url spec) as [meta|]; [|exact H012].
  pose proof (same_runs_upsert_service utcnow (db (with_db w1 d2)) service_name
                base_url [] [] [] meta) as H3.
  destruct (upsert_service _ _ _ _ _ _ _ _) as [sid d3]. cbn [snd] in H3.
  eapply advanced_trans; [exact H012|].
  split; [apply counted_refl|exact H3].
Qed.

Lemma advanced_phase_wordlist (config : Config.Config) (base_url : str)
    (service_id : nat) (robots : option RobotsChecker) (known_paths : gset str)
    (w : World) :
  advanced w
    (world_of
       (phase_wordlist transport can_fetch json_loads read_lines stop_file_exists config
          base_url service_id robots known_paths w)).
Proof.
  unfold phase_wordlist.
  pose proof (advanced_enabled config "wordlist" w) as H0.
  destruct (enabled _ _ _ _) as [go w0]. cbn [snd] in H0.
  destruct go; [|exact H0].
  pose proof (advanced_run _ w0
                (counts_probe_wordlist transport can_fetch read_lines base_url
                   (Config.wordlists config) robots known_paths (max_requests config)))
    as H1.
  destruct (run _ w0) as [[results known] w1|w1]; cbn [world_of] in *;
    (eapply advanced_trans; [exact H0|]); [|exact H1].
  eapply advanced_trans; [exact H1|].
  apply advanced_with_db, same_runs__process_results.
Qed.

Lemma advanced_phase_pattern (config : Config.Config) (base_url : str)
    (service_id : nat) (robots : option RobotsChecker) (known_paths : gset str)
    (w : World) :
  advanced w
    (world_of
       (phase_pattern transport can_fetch json_loads stop_file_exists config base_url
          service_id robots known_paths w)).
Proof.
  unfold phase_pattern.
  pose proof (advanced_enabled config "pattern" w) as H0.
  destruct (enabled _ _ _ _) as [go w0]. cbn [snd] in H0.
  destruct go; [|exact H0].
  pose proof (advanced_run _ w0
                (counts_probe_patterns transport can_fetch base_url config robots
                   known_paths (max_requests config))) as H1.
  destruct (run _ w0) as [[results known] w1|w1]; cbn [world_of] in *;
    (eapply advanced_trans; [exact H0|]); [|exact H1].
  eapply advanced_trans; [exact H1|].
  apply advanced_with_db, same_runs__process_results.
Qed.

Lemma advanced_phase_response_driven (config : Config.Config) (base_url : str)
    (service_id : nat) (robots : option RobotsChecker) (known_paths : gset str)
    (w : World) :
  advanced w
    (world_of
       (phase_response_driven transport can_fetch json_loads stop_file_exists config
          base_url service_id robots known_paths w)).
Proof.
  unfold phase_response_driven.
  pose proof (advanced_enabled config "response_driven" w) as H0.
  destruct (enabled _ _ _ _) as [go w0]. cbn [snd] in H0.
  destruct go; [|exact H0].
  pose proof (advanced_run _ w0
                (counts_discover_from_responses transport can_fetch json_loads base_url
                   (db w0) service_id robots known_paths (Config.max_depth config)))
    as H1.
  destruct (run _ w0) as [[results known] w1|w1]; cbn [world_of] in *;
    (eapply advanced_trans; [exact H0|]); [|exact H1].
  eapply advanced_trans; [exact H1|].
  apply advanced_with_db, same_runs__process_results.
Qed.

Lemma advanced_method_testing (config : Config.Config) (base_url : str)
    (service_id : nat) (endpoints : list EndpointRow) (w : World) :
  advanced w
    (world_of
       (method_testing transport stop_file_exists config base_url service_id
          endpoints w)).
Proof.
  revert w. induction endpoints as [|ep rest IH]; intros w; [apply advanced_refl|].
  cbn [method_testing].
  pose proof (advanced__check_limits w (max_requests config)) as H0.
  destruct (_check_limits _ _ _) as [stop w0]. cbn [snd] in H0.
  destruct stop; [exact H0|].
  pose proof (advanced_run _ w0
                (counts_test_methods transport base_url (ep_path ep)
                   (Config.skip_destructive config))) as H1.
  destruct (run _ w0) as [method_info w1|w1]; cbn [world_of] in H1;
    [|by eapply advanced_trans].
  pose proof (same_runs_upsert_endpoint (db w1) service_id (ep_path ep)
                (mi_methods method_info) (List.map snd (mi_status_codes method_info))
                (mi_auth_required method_info) (mi_auth_type_hint method_info)
                (mi_content_types method_info) []) as H2.
  destruct (upsert_endpoint _ _ _ _ _ _ _ _ _) as [ep_id d2]. cbn [snd] in H2.
  eapply advanced_trans; [exact H0|]. eapply advanced_trans; [exact H1|].
  eapply advanced_trans; [apply (advanced_with_db w1 d2 H2)|apply IH].
Qed.

Lemma advanced_schema_extraction (config : Config.Config) (base_url : str)
    (endpoints : list EndpointRow) (w : World) :
  advanced w
    (world_of
       (schema_extraction transport json_loads re_findall stop_file_exists config
          base_url endpoints w)).
Proof.
  revert w. induction endpoints as [|ep rest IH]; intros w; [apply advanced_refl|].
  cbn [schema_extraction].
  pose proof (advanced__check_limits w (max_requests config)) as H0.
  destruct (_check_limits _ _ _) as [stop w0]. cbn [snd] in H0.
  destruct stop; [exact H0|].
  destruct (negb _); [by eapply advanced_trans; [exact H0|apply IH]|].
  pose proof (advanced_run (get transport (base_url ++ ep_path ep)) w0
                (counts_request transport _ _)) as H1.
  destruct (run _ w0) as [resp w1|w1]; cbn [world_of] in H1;
    pose proof (advanced_trans _ _ _ H0 H1) as H01; [|exact H01].
  destruct (ok resp && truthy (body resp)).
  - destruct (json_truthy _); [|by eapply advanced_trans; [exact H01|apply IH]].
    eapply advanced_trans; [exact H01|]. eapply advanced_trans; [|apply IH].
    apply advanced_with_db, same_runs_add_response.
  - destruct (_ && _); [|by eapply advanced_trans; [exact H01|apply IH]].
    eapply advanced_trans; [exact H01|]. eapply advanced_trans; [|apply IH].
    apply advanced_with_db, same_runs_fold_left.
    intros d0 [name required]. apply same_runs_upsert_parameter.
Qed.

Lemma advanced_phase_methods (config : Config.Config) (base_url : str)
    (service_id : nat) (w : World) :
  advanced w
    (world_of (phase_methods transport stop_file_exists config base_url service_id w)).
Proof.
  unfold phase_methods.
  pose proof (advanced__check_limits w (max_requests config)) as H0.
  destruct (_check_limits _ _ _) as [stop w0]. cbn [snd] in H0.
  destruct stop; [exact H0|].
  eapply advanced_trans; [exact H0|apply advanced_method_testing].
Qed.

Lemma advanced_phase_schema (config : Config.Config) (base_url : str)
    (service_id : nat) (w : World) :
  advanced w
    (world_of
       (phase_schema transport json_loads re_findall stop_file_exists config base_url
          service_id w)).
Proof.
  unfold phase_schema.
  pose proof (advanced__check_limits w (max_requests config)) as H0.
  destruct (_check_limits _ _ _) as [stop w0]. cbn [snd] in H0.
  destruct stop; [exact H0|].
  eapply advanced_trans; [exact H0|apply advanced_schema_extraction].
Qed.

Lemma advanced_load_robots (config : Config.Config) (service_name base_url : str)
    (w : World) :
  advanced w
    (load_robots parser_crawl_delay fetch_robots utcnow config service_name base_url w).2.
Proof.
  unfold load_robots. destruct (Config.respect_robots_txt config); [|apply advanced_refl].
  destruct (fetch_robots _ _) as [raw_text|]; [|apply advanced_refl].
  pose proof (same_runs_upsert_service utcnow (db w) service_name base_url [] []
                raw_text []) as H.
  destruct (upsert_service _ _ _ _ _ _ _ _) as [sid d1]. cbn [snd] in H.
  pose proof (advanced_with_db w d1 H) as H1.
  destruct (crawl_delay _ _) as [delay|]; [|exact H1].
  destruct (negb _); [|exact H1].
  eapply advanced_trans; [exact H1|].
  split; [apply counted_set_delay_ms|done].
Qed.

(** The phases either reach the closing steps or raise, and until then
    requests are counted and no run is written. *)
Lemma phases_outcome (config : Config.Config) (service_name base_url : str)
    (service_id : nat) (robots : option RobotsChecker) (run : nat)
    (known_paths : gset str) (w : World) :
  let out :=
    phases transport can_fetch json_loads re_findall read_lines stop_file_exists utcnow
      extract_endpoints_from_spec config service_name base_url service_id robots run
      known_paths w in
  exists w',
    advanced w w'
    /\ (out = finish utcnow config service_name base_url service_id run w'
        \/ out = (Raised, w')).
Proof.
  cbn zeta. unfold phases.
  pose proof (advanced_phase_openapi config service_name base_url service_id robots
                known_paths w) as H1.
  destruct (phase_openapi _ _ _ _ _ _ _ _ _ _ _ _ _) as [known1 w1|w1];
    cbn [world_of and_then] in *; [|exists w1; by auto].
  pose proof (advanced_phase_wordlist config base_url service_id robots known1 w1) as H2.
  destruct (phase_wordlist _ _ _ _ _ _ _ _ _ _ _) as [known2 w2|w2];
    cbn [world_of and_then] in *;
    pose proof (advanced_trans _ _ _ H1 H2) as H12; [|exists w2; by auto].
  pose proof (advanced_phase_pattern config base_url service_id robots known2 w2) as H3.
  destruct (phase_pattern _ _ _ _ _ _ _ _ _ _) as [known3 w3|w3];
    cbn [world_of and_then] in *;
    pose proof (advanced_trans _ _ _ H12 H3) as H13; [|exists w3; by auto].
  pose proof (advanced_phase_methods config base_url service_id w3) as H4.
  destruct (phase_methods _ _ _ _ _ w3) as [[] w4|w4];
    cbn [world_of and_then] in *;
    pose proof (advanced_trans _ _ _ H13 H4) as H14; [|exists w4; by auto].
  pose proof (advanced_phase_schema config base_url service_id w4) as H5.
  destruct (phase_schema _ _ _ _ _ _ _ w4) as [[] w5|w5];
    cbn [world_of and_then] in *;
    pose proof (advanced_trans _ _ _ H14 H5) as H15; [|exists w5; by auto].
  pose proof (advanced_phase_response_driven config base_url service_id robots known3 w5)
    as H6.
  destruct (phase_response_driven _ _ _ _ _ _ _ _ _ _) as [known6 w6|w6];
    cbn [world_of and_then] in *;
    pose proof (advanced_trans _ _ _ H15 H6) as H16; exists w6; by auto.
Qed.

Lemma find_new_run (rows : list ProbeRunRow) (row : ProbeRunRow) (n : nat) :
  Forall (fun r => run_id r <= n) rows ->
  run_id row = S n ->
  List.find (fun r => bool_decide (run_id r = S n)) (rows ++ [row]) = Some row.
Proof.
  intros Hle Hid. rewrite DatabaseFacts.find_snoc.
  destruct (List.find _ rows) as [r|] eqn:E.
  - apply List.find_some in E as [Hin Hr]. apply bool_decide_eq_true in Hr.
    rewrite List.Forall_forall in Hle. specialize (Hle r Hin). lia.
  - by rewrite bool_decide_eq_true_2.
Qed.

(** X23: what a call of [probe] leaves behind, in every environment, on a
    store whose run ids were handed out by its sequence.  The requests it
    made are counted one by one.  When [urlparse] raises on the URL, [probe]
    raises with the store and the client as they were.  Otherwise it creates
    a run, and that run is recorded as [completed] with a finish timestamp
    and the final count when [probe] returns a summary, as [error] with a
    finish timestamp when the base probe fails, and stays [running] without
    a finish timestamp when [probe] raises, whether at the request for the
    base URL, in the spec scan, in a probing strategy or in the method
    tests. *)
Lemma probe_outcome (config : Config.Config) (u : str) (w : World) :
  runs_ok (db w) ->
  let out :=
    probe transport can_fetch parser_crawl_delay json_loads re_findall read_lines
      fetch_robots stop_file_exists utcnow hostname extract_endpoints_from_spec
      config u w in
  counted (client w) (client out.2)
  /\ match hostname (rstrip u (cp "/")) with
     | None => out = (Raised, w)
     | Some _ =>
         exists r,
           probe_run (db out.2) (S (seq_probe_runs (db w))) = Some r
           /\ match out.1 with
              | Summary _ _ _ total_requests status =>
                  status = lit "completed"
                  /\ total_requests = request_count (client out.2)
                  /\ run_status r = lit "completed"
                  /\ run_finished_at r = Some utcnow
                  /\ run_total_requests r = total_requests
              | ErrorResult _ =>
                  run_status r = lit "error" /\ run_finished_at r = Some utcnow
              | Raised =>
                  run_status r = lit "running" /\ run_finished_at r = None
              end
     end.
Proof.
  intros Hok. cbn zeta. unfold probe, _derive_service_name.
  set (base_url := rstrip u (cp "/")).
  destruct (hostname base_url) as [parsed|]; [|split; [apply counted_refl|done]].
  set (service_name := if (2 <=? _)%nat then _ else _).
  unfold start.
  pose proof (same_runs_upsert_service utcnow (db w) service_name base_url [] [] [] [])
    as [Hrows0 Hseq0].
  destruct (upsert_service _ _ _ _ _ _ _ _) as [service_id d0]. cbn [snd] in *.
  unfold create_probe_run. cbn [fst snd]. rewrite Hseq0.
  set (run := S (seq_probe_runs (db w))).
  set (row := {| run_id := run; run_service_id := service_id; run_started_at := utcnow;
                 run_finished_at := None; run_status := lit "running";
                 run_config_json := Some config; run_total_requests := 0;
                 run_endpoints_found := 0; run_progress_json := JObj [] |}).
  set (d1 := with_probe_runs d0 (probe_runs d0 ++ [row]) run).
  set (w0 := with_db w d1).
  assert (Hc0 : counted (client w) (client w0)) by apply counted_refl.
  assert (Hfind : forall w', advanced w0 w' ->
                    List.find (fun r => bool_decide (run_id r = run)) (probe_runs (db w'))
                    = Some row).
  { intros w' [_ [Hrows _]]. rewrite Hrows. cbn [w0 with_db db d1 with_probe_runs
      probe_runs]. rewrite Hrows0. by apply find_new_run. }
  pose proof (advanced_load_robots config service_name base_url w0) as H1.
  destruct (load_robots _ _ _ _ _ _ w0) as [robots w1]. cbn [snd] in H1.
  pose proof (advanced_run (get transport base_url) w1 (counts_request transport _ _))
    as H2.
  destruct (Orchestrator.run _ w1) as [base_resp w2|w2]; cbn [world_of and_then] in *;
    pose proof (advanced_trans _ _ _ H1 H2) as H12; cycle 1.
  { cbn [fst snd]. split; [apply H12|]. unfold probe_run.
    rewrite (Hfind w2 H12). eexists. split; [reflexivity|]. done. }
  destruct (0 <? status_code base_resp)%Z.
  - set (w3 := if truthy _ then _ else w2).
    assert (H3 : advanced w0 w3).
    { unfold w3. destruct (truthy _); [|exact H12].
      eapply advanced_trans; [exact H12|].
      apply advanced_with_db, same_runs_upsert_service. }
    destruct (phases_outcome config service_name base_url service_id robots run
                (get_endpoint_paths d1 service_id) w3) as (w' & H4 & [Hout|Hout]);
      cbn zeta in Hout; rewrite Hout; pose proof (advanced_trans _ _ _ H3 H4) as H34.
    + unfold finish. cbn [fst snd client db with_db]. split; [apply H34|].
      unfold probe_run, update_probe_run, with_probe_runs.
      cbn [probe_runs update_service_last_probed].
      rewrite DatabaseFacts.find_update_where by done.
      rewrite (Hfind w' H34). cbn. rewrite bool_decide_eq_true_2 by done.
      eexists. split; [reflexivity|]. cbn. done.
    + cbn [fst snd]. split; [apply H34|]. unfold probe_run.
      rewrite (Hfind w' H34). eexists. split; [reflexivity|]. done.
  - cbn [fst snd client db with_db]. split; [apply H12|].
    unfold probe_run, update_probe_run, with_probe_runs. cbn [probe_runs].
    rewrite DatabaseFacts.find_update_where by done.
    rewrite (Hfind w2 H12). cbn. rewrite bool_decide_eq_true_2 by done.
    eexists. split; [reflexivity|]. done.
Qed.

End AnyEnvironment.

(** C2, at failing inputs.  With a budget of 3 the wordlist phase stops
    after two of its three paths and every later phase is skipped; with the
    [STOP] file present every phase after the base probe is skipped.  Both
    runs are recorded as [completed], with a finish timestamp, and report
    [completed]. *)
Theorem probe_records_completed_when_cut_short :
  let exhausted :=
    run_probe answers_all (fun _ => false)
      (config 3 ["wordlist"; "pattern"; "response_driven"]%string) in
  let halted :=
    run_probe answers_all (fun _ => true)
      (config 500 ["openapi"; "wordlist"; "pattern"; "response_driven"]%string) in
  exhausted.1 = Summary (lit "example") example_base 2 3 (lit "completed")
  /\ issued (client exhausted.2)
     = [(lit "GET", example_base);
        (lit "HEAD", example_base ++ lit "/users");
        (lit "HEAD", example_base ++ lit "/posts")]
  /\ (run_status <$> probe_run (db exhausted.2) 1) = Some (lit "completed")
  /\ halted.1 = Summary (lit "example") example_base 0 1 (lit "completed")
  /\ issued (client halted.2) = [(lit "GET", example_base)]
  /\ (run_status <$> probe_run (db halted.2) 1) = Some (lit "completed")
  /\ (run_finished_at <$> probe_run (db halted.2) 1) = Some (Some example_time).
Proof. vm_compute. done. Qed.

End OrchestratorFacts.

(** ** More on the store *)

Module StoreExtras.
Import Py Json Database StoreShape DatabaseQueries.

Lemma same_parameter_true (endpoint_id : nat) (name location : str) (r : ParameterRow) :
  same_parameter endpoint_id name location r = true
  <-> par_endpoint_id r = endpoint_id /\ par_name r = name /\ par_location r = location.
Proof.
  unfold same_parameter. rewrite !andb_true_iff, !bool_decide_eq_true. tauto.
Qed.

Lemma filter_find_none {R} (p : R -> bool) (rows : list R) :
  List.find p rows = None -> List.filter p rows = [].
Proof.
  induction rows as [|r rows IH]; [done|]. cbn. destruct (p r); [done|exact IH].
Qed.

(** Under the [UNIQUE] constraint the row [find] returns for a key is the
    only row with that key. *)
Lemma filter_same_parameter (endpoint_id : nat) (name location : str)
    (rows : list ParameterRow) (old : ParameterRow) :
  NoDup (List.map (fun r => (par_endpoint_id r, par_name r, par_location r)) rows) ->
  List.find (same_parameter endpoint_id name location) rows = Some old ->
  List.filter (same_parameter endpoint_id name location) rows = [old].
Proof.
  induction rows as [|r rows IH]; [done|].
  cbn [List.map List.find List.filter]. intros Hnd Hfind.
  apply NoDup_cons in Hnd as [Hr Hnd].
  destruct (same_parameter endpoint_id name location r) eqn:Er.
  - injection Hfind as ->. f_equal.
    destruct (List.filter _ rows) as [|r' rest] eqn:Ef; [done|]. exfalso.
    assert (Hin : In r' (List.filter (same_parameter endpoint_id name location) rows))
      by (rewrite Ef; by left).
    apply List.filter_In in Hin as [Hin Hr'].
    apply same_parameter_true in Er as (E1 & E2 & E3), Hr' as (F1 & F2 & F3).
    apply Hr. apply list_elem_of_In, List.in_map_iff. exists r'.
    split; [congruence|done].
  - by apply IH.
Qed.

Lemma filter_update_where {R} (p : R -> bool) (f : R -> R) (rows : list R) :
  (forall r, p (f r) = p r) ->
  List.filter p (update_where p f rows) = List.map f (List.filter p rows).
Proof.
  intros Hp. unfold update_where. induction rows as [|r rows IH]; [done|].
  cbn [List.map List.filter]. destruct (p r) eqn:Er.
  - rewrite Hp, Er. cbn. by rewrite IH.
  - by rewrite Er.
Qed.

(** X1: [upsert_parameter] on a table that satisfies its [UNIQUE]
    constraint leaves a table that satisfies it, with exactly one row for
    [(endpoint_id, name, location)]: its type is the supplied one,
    [required] is the disjunction of the stored and the supplied flag, and
    the example is the supplied one unless that is empty.  A row is added
    only when there was none, and the rows of all other parameters are as
    before. *)
Theorem upsert_parameter_merges (db : Db) (endpoint_id : nat) (name param_type
    location : str) (required : bool) (example_value : str) :
  parameter_keys_unique db ->
  let db' := upsert_parameter db endpoint_id name param_type location required
               example_value in
  let old := parameter db endpoint_id name location in
  parameter_keys_unique db'
  /\ (exists row,
        List.filter (same_parameter endpoint_id name location) (parameters db') = [row]
        /\ parameter db' endpoint_id name location = Some row
        /\ par_param_type row = param_type
        /\ par_required row
           = (match old with Some r => par_required r | None => false end || required)
        /\ par_example_value row
           = (if bool_decide (example_value ≠ []) then example_value
              else match old with Some r => par_example_value r | None => [] end)
        /\ match old with
           | Some r => par_id row = par_id r
           | None => par_id row = S (seq_parameters db)
           end)
  /\ length (parameters db')
     = length (parameters db) + (match old with Some _ => 0 | None => 1 end)
  /\ (forall endpoint_id' name' location',
        (endpoint_id', name', location') <> (endpoint_id, name, location) ->
        parameter db' endpoint_id' name' location'
        = parameter db endpoint_id' name' location').
Proof.
  intros Hunique. cbn zeta. unfold parameter_keys_unique, parameter, upsert_parameter in *.
  destruct (List.find (same_parameter endpoint_id name location) (parameters db))
    as [old|] eqn:E; cbn [parameters].
  - split; [|split; [|split]].
    + unfold update_where. rewrite List.map_map.
      erewrite List.map_ext; [exact Hunique|].
      intros r. by destruct (same_parameter endpoint_id name location r).
    + rewrite filter_update_where by done.
      rewrite (filter_same_parameter _ _ _ _ _ Hunique E).
      rewrite DatabaseFacts.find_update_where by done. rewrite E. cbn.
      rewrite (DatabaseFacts.find_some_true _ _ _ E).
      eexists. split; [reflexivity|]. split; [reflexivity|]. cbn. split; [done|].
      split; [by destruct required, (par_required old)|]. done.
    + rewrite DatabaseFacts.length_update_where. lia.
    + intros e' n' l' Hne. rewrite DatabaseFacts.find_update_where by done.
      destruct (List.find (same_parameter e' n' l') (parameters db)) as [r|] eqn:Er;
        [|done].
      cbn. destruct (same_parameter endpoint_id name location r) eqn:Ek; [|done].
      apply DatabaseFacts.find_some_true in Er.
      apply same_parameter_true in Er as (<- & <- & <-), Ek as (<- & <- & <-). done.
  - split; [|split; [|split]].
    + rewrite List.map_app. cbn [List.map]. apply NoDup_app.
      split; [exact Hunique|]. split; [|apply NoDup_singleton].
      intros k Hk ->%list_elem_of_singleton.
      apply list_elem_of_In, List.in_map_iff in Hk as (r & Hkey & Hr).
      eapply List.find_none in E; [|exact Hr].
      injection Hkey as K1 K2 K3.
      rewrite (proj2 (same_parameter_true endpoint_id name location r)) in E; done.
    + rewrite List.filter_app, (filter_find_none _ _ E). cbn [List.filter app].
      rewrite DatabaseFacts.find_snoc, E.
      rewrite (proj2 (same_parameter_true endpoint_id name location _)) by done.
      eexists. split; [reflexivity|]. split; [reflexivity|]. cbn. split; [done|].
      split; [by destruct required|]. split; [|done]. by case_bool_decide.
    + rewrite length_app. cbn. lia.
    + intros e' n' l' Hne. rewrite DatabaseFacts.find_snoc.
      destruct (List.find (same_parameter e' n' l') (parameters db)); [done|].
      destruct (same_parameter e' n' l' _) eqn:Ek; [|done].
      apply same_parameter_true in Ek as (<- & <- & <-). done.
Qed.

(** A store that holds the parameter [page] of an endpoint, and an upsert
    of that parameter with another type and [required] set. *)
Lemma upsert_parameter_merges_witness :
  parameter_keys_unique example_parameters
  /\ List.filter (same_parameter 1 (lit "page") (lit "query"))
       (parameters
          (upsert_parameter example_parameters 1 (lit "page") (lit "string")
             (lit "query") true []))
     = [{| par_id := 1; par_endpoint_id := 1; par_name := lit "page";
           par_param_type := lit "string"; par_location := lit "query";
           par_required := true; par_example_value := [] |}].
Proof.
  assert (H : parameter_keys_unique example_parameters) by apply NoDup_singleton.
  split; [exact H|].
  destruct (upsert_parameter_merges example_parameters 1 (lit "page") (lit "string")
              (lit "query") true [] H) as (_ & (row & Hrow & _) & _).
  rewrite Hrow. vm_compute in Hrow. by injection Hrow as <-.
Defined.

(** X2: [upsert_endpoint] returns the id of the row that holds
    [(service_id, path)] afterwards.  When such a row was there it is the
    same row id and no row is added; otherwise one row is added, with a new
    id, tagged with [discovered_by]. *)
Theorem upsert_endpoint_returns_row_id (db : Db) (service_id : nat) (path : str)
    (methods : list str) (status_codes : list Z) (auth_required : bool)
    (auth_type_hint : str) (content_types : list str) (discovered_by : str) :
  let out := upsert_endpoint db service_id path methods status_codes auth_required
               auth_type_hint content_types discovered_by in
  exists row,
    endpoint out.2 service_id path = Some row
    /\ ep_id row = out.1
    /\ match endpoint db service_id path with
       | Some old =>
           ep_id row = ep_id old
           /\ ep_discovered_by row = ep_discovered_by old
           /\ length (endpoints out.2) = length (endpoints db)
       | None =>
           ep_id row = S (seq_endpoints db)
           /\ ep_discovered_by row = discovered_by
           /\ endpoints out.2 = endpoints db ++ [row]
       end.
Proof.
  cbn zeta. unfold endpoint, upsert_endpoint.
  destruct (List.find (same_endpoint service_id path) (endpoints db))
    as [old|] eqn:E; cbn [fst snd endpoints with_endpoints].
  - rewrite DatabaseFacts.find_update_where by done. rewrite E. cbn.
    rewrite bool_decide_eq_true_2 by done.
    eexists. split; [reflexivity|]. cbn.
    rewrite DatabaseFacts.length_update_where. done.
  - rewrite DatabaseFacts.find_snoc, E.
    rewrite (proj2 (DatabaseFacts.same_endpoint_true service_id path _)) by done.
    eexists. split; [reflexivity|]. done.
Qed.

(** X3: [upsert_endpoint] keeps the pairs [(service_id, path)] of the table
    pairwise distinct: it never stores a second row for an endpoint. *)
Theorem upsert_endpoint_keeps_keys_unique (db : Db) (service_id : nat) (path : str)
    (methods : list str) (status_codes : list Z) (auth_required : bool)
    (auth_type_hint : str) (content_types : list str) (discovered_by : str) :
  endpoint_keys_unique db ->
  endpoint_keys_unique
    (upsert_endpoint db service_id path methods status_codes auth_required
       auth_type_hint content_types discovered_by).2.
Proof.
  unfold endpoint_keys_unique, upsert_endpoint. intros Hnd.
  destruct (List.find (same_endpoint service_id path) (endpoints db))
    as [old|] eqn:E; cbn [fst snd endpoints with_endpoints].
  - unfold update_where. rewrite List.map_map.
    erewrite map_ext; [exact Hnd|]. intros r. cbn. by destruct (bool_decide _).
  - rewrite List.map_app. cbn. apply NoDup_app. split; [done|].
    split; [|apply NoDup_singleton].
    intros key Hin Hkey. apply list_elem_of_singleton in Hkey. subst key.
    apply list_elem_of_In, in_map_iff in Hin as (r & [= Hs Hp] & Hr).
    eapply List.find_none in E; [|exact Hr].
    rewrite (proj2 (DatabaseFacts.same_endpoint_true service_id path r)) in E; done.
Qed.

(** The example store, and an upsert for a path it does not hold. *)
Lemma upsert_endpoint_keeps_keys_unique_witness :
  endpoint_keys_unique example_db
  /\ endpoint_keys_unique
       (upsert_endpoint example_db 1 (lit "/users") [lit "HEAD"] [200%Z] false []
          [] (lit "pattern")).2.
Proof.
  assert (H : endpoint_keys_unique example_db) by apply NoDup_singleton.
  split; [exact H|]. by apply upsert_endpoint_keeps_keys_unique.
Defined.

(** X4: the run [create_probe_run] creates is the one [get_last_probe_run]
    returns for its service: it has the returned id, the status [running],
    no finish timestamp, zero counters and the configuration it was given. *)
Theorem create_probe_run_is_last (now : str) (db : Db) (service_id : nat)
    (config : option Config.Config) :
  let out := create_probe_run now db service_id config in
  exists row,
    get_last_probe_run out.2 service_id = Some row
    /\ run_id row = out.1
    /\ out.1 = S (seq_probe_runs db)
    /\ run_status row = lit "running"
    /\ run_finished_at row = None
    /\ run_started_at row = now
    /\ run_config_json row = config
    /\ run_total_requests row = 0%Z
    /\ run_endpoints_found row = 0%Z
    /\ probe_runs out.2 = probe_runs db ++ [row].
Proof.
  cbn zeta. unfold get_last_probe_run, create_probe_run.
  cbn [fst snd probe_runs with_probe_runs]. rewrite rev_app_distr. cbn.
  rewrite bool_decide_eq_true_2 by done. eexists. split; [reflexivity|]. done.
Qed.

(** X5: an update of a run that is not in the table changes nothing. *)
Theorem update_probe_run_missing (now : str) (db : Db) (run : nat) (status : option str)
    (total_requests endpoints_found : option Z) (progress : option json) :
  probe_run db run = None ->
  update_probe_run now db run status total_requests endpoints_found progress = db.
Proof.
  intros Hnone.
  assert (E : update_where (fun r => bool_decide (run_id r = run))
                (set_probe_run now status total_requests endpoints_found progress)
                (probe_runs db) = probe_runs db).
  { unfold update_where. rewrite <- (List.map_id (probe_runs db)) at 2.
    apply List.map_ext_in. intros r Hr.
    eapply List.find_none in Hnone; [|exact Hr]. cbn in Hnone. by rewrite Hnone. }
  unfold update_probe_run, with_probe_runs. rewrite E.
  destruct db. by destruct status, total_requests, endpoints_found, progress.
Qed.

(** The example store has no run. *)
Lemma update_probe_run_missing_witness :
  probe_run example_db 7 = None
  /\ update_probe_run example_time example_db 7 (Some (lit "stopped")) (Some 3%Z)
       None None = example_db.
Proof.
  split; [reflexivity|]. by apply update_probe_run_missing.
Defined.

(** X6: [upsert_service] leaves the rows of all other services as they
    were. *)
Theorem upsert_service_leaves_others (now : str) (db : Db)
    (name base_url description server_header robots_txt : str)
    (metadata : list (str * json)) (other : str) :
  other <> name ->
  get_service
    (upsert_service now db name base_url description server_header robots_txt
       metadata).2 other
  = get_service db other.
Proof.
  intros Hne. unfold get_service, upsert_service.
  destruct (List.find (fun r => bool_decide (svc_name r = name)) (services db));
    cbn [snd services].
  - rewrite DatabaseFacts.find_update_where by done.
    destruct (List.find (fun r => bool_decide (svc_name r = other)) (services db))
      as [r|] eqn:Er; [|done].
    cbn. apply DatabaseFacts.find_some_true in Er. apply bool_decide_eq_true in Er.
    rewrite bool_decide_eq_false_2; [done|congruence].
  - rewrite DatabaseFacts.find_snoc.
    destruct (List.find _ (services db)); [done|].
    cbn. by rewrite bool_decide_eq_false_2.
Qed.

(** A second service beside the one of the example store. *)
Lemma upsert_service_leaves_others_witness :
  lit "example" <> lit "httpbin"
  /\ get_service
       (upsert_service example_time example_db (lit "httpbin")
          (lit "https://httpbin.org") [] [] [] []).2 (lit "example")
     = get_service example_db (lit "example").
Proof.
  assert (H : lit "example" <> lit "httpbin") by (vm_compute; discriminate).
  split; [exact H|]. by apply upsert_service_leaves_others.
Defined.

End StoreExtras.

(** ** The queries of the store *)

Module QueryExtras.
Import Py Json Database StoreShape DatabaseQueries.

Lemma str_leb_total (s t : str) : str_leb s t = true \/ str_leb t s = true.
Proof.
  revert t. induction s as [|c s IH]; intros [|d t]; cbn; auto.
  destruct (N.ltb_spec c d), (N.ltb_spec d c), (N.eqb_spec c d), (N.eqb_spec d c);
    auto; lia.
Qed.

Lemma str_leb_trans (s t u : str) :
  str_leb s t = true -> str_leb t u = true -> str_leb s u = true.
Proof.
  revert t u. induction s as [|c s IH]; intros [|d t] [|e u]; cbn; try done.
  destruct (N.ltb_spec c d), (N.ltb_spec d e), (N.ltb_spec c e),
    (N.eqb_spec c d), (N.eqb_spec d e), (N.eqb_spec c e); try done; try lia.
  apply IH.
Qed.

#[local] Instance ep_path_le_total : Total ep_path_le.
Proof. intros r1 r2. apply str_leb_total. Qed.

#[local] Instance ep_path_le_trans : Transitive ep_path_le.
Proof. intros r1 r2 r3. apply str_leb_trans. Qed.

#[local] Instance rsp_method_le_total : Total rsp_method_le.
Proof. intros r1 r2. apply str_leb_total. Qed.

#[local] Instance rsp_method_le_trans : Transitive rsp_method_le.
Proof. intros r1 r2 r3. apply str_leb_trans. Qed.

Lemma elem_of_filter_list {A} (p : A -> bool) (l : list A) (x : A) :
  x ∈ List.filter p l <-> x ∈ l /\ p x = true.
Proof. rewrite !list_elem_of_In. apply List.filter_In. Qed.

(** X7: the three views of the endpoints of a service agree.  The listing
    [get_endpoints] holds exactly the rows of the service, in ascending
    order of path; the set [get_endpoint_paths] holds exactly their paths;
    and a path is in that set exactly when the lookup of [upsert_endpoint]
    finds a row for it. *)
Theorem get_endpoints_views_agree (db : Db) (service_id : nat) :
  StronglySorted ep_path_le (get_endpoints db service_id)
  /\ (forall row,
        row ∈ get_endpoints db service_id
        <-> row ∈ endpoints db /\ ep_service_id row = service_id)
  /\ (forall path,
        path ∈ get_endpoint_paths db service_id
        <-> exists row, row ∈ get_endpoints db service_id /\ ep_path row = path)
  /\ (forall path,
        path ∈ get_endpoint_paths db service_id
        <-> is_Some (endpoint db service_id path)).
Proof.
  assert (Hrow : forall row,
            row ∈ get_endpoints db service_id
            <-> row ∈ endpoints db /\ ep_service_id row = service_id).
  { intros row. unfold get_endpoints. rewrite merge_sort_Permutation.
    rewrite elem_of_filter_list, bool_decide_eq_true. done. }
  assert (Hpath : forall path,
            path ∈ get_endpoint_paths db service_id
            <-> exists row, row ∈ get_endpoints db service_id /\ ep_path row = path).
  { intros path. unfold get_endpoint_paths.
    rewrite elem_of_list_to_set, list_elem_of_In, List.in_map_iff.
    split; intros (row & H1 & H2); exists row.
    - apply list_elem_of_In, elem_of_filter_list in H2.
      rewrite bool_decide_eq_true in H2. by rewrite Hrow.
    - apply Hrow in H1. split; [done|].
      apply list_elem_of_In, elem_of_filter_list. by rewrite bool_decide_eq_true. }
  split; [apply StronglySorted_merge_sort; apply _|].
  split; [exact Hrow|]. split; [exact Hpath|].
  intros path. rewrite Hpath. unfold endpoint. split.
  - intros (row & Hin & Hp). apply Hrow in Hin as [Hin Hs].
    destruct (List.find (same_endpoint service_id path) (endpoints db)) eqn:E; [done|].
    eapply List.find_none in E; [|by apply list_elem_of_In].
    rewrite (proj2 (DatabaseFacts.same_endpoint_true service_id path row)) in E; done.
  - intros [row E]. apply List.find_some in E as [Hin Hk].
    apply DatabaseFacts.same_endpoint_true in Hk as [Hs Hp].
    exists row. split; [|done]. apply Hrow. split; [by apply list_elem_of_In|done].
Qed.

Lemma length_join_cons {A B} (R : A -> B -> bool) (xs : list A) (y : B) (ys : list B) :
  length (List.flat_map (fun x => List.filter (R x) (y :: ys)) xs)
  = length (List.filter (fun x => R x y) xs)
    + length (List.flat_map (fun x => List.filter (R x) ys) xs).
Proof.
  induction xs as [|x xs IH]; [done|].
  cbn [List.flat_map]. rewrite !length_app, IH. cbn [List.filter].
  destruct (R x y); cbn [length]; lia.
Qed.

(** Counting the pairs of a join by its left or by its right table. *)
Lemma length_join {A B} (R : A -> B -> bool) (xs : list A) (ys : list B) :
  length (List.flat_map (fun x => List.filter (R x) ys) xs)
  = sum_list_with (fun y => length (List.filter (fun x => R x y) xs)) ys.
Proof.
  induction ys as [|y ys IH].
  - cbn. induction xs; done.
  - rewrite length_join_cons, IH. done.
Qed.

Lemma sum_list_with_filter {A} (p : A -> bool) (f g : A -> nat) (l : list A) :
  (forall x, f x = if p x then g x else 0) ->
  sum_list_with f l = sum_list_with g (List.filter p l).
Proof.
  intros Hf. induction l as [|x l IH]; [done|].
  cbn. rewrite Hf, IH. by destruct (p x).
Qed.

Lemma sum_list_with_eq {A} (f g : A -> nat) (l : list A) :
  (forall x, f x = g x) -> sum_list_with f l = sum_list_with g l.
Proof. intros H. induction l as [|x l IH]; [done|]. cbn. by rewrite H, IH. Qed.

Lemma filter_none {A} (p : A -> bool) (l : list A) :
  (forall x, p x = false) -> List.filter p l = [].
Proof. intros Hp. induction l as [|x l IH]; [done|]. cbn. by rewrite Hp. Qed.

(** The rows of a table that the join of [get_service_stats] pairs with the
    endpoints of the service, counted endpoint by endpoint. *)
Lemma joined_count {R : Type} (key : R -> nat) (rows : list R) (db : Db)
    (service_id : nat) :
  length (List.flat_map (fun r => joined db service_id (key r)) rows)
  = sum_list_with
      (fun e => length (List.filter (fun r => bool_decide (key r = ep_id e)) rows))
      (List.filter (fun e => bool_decide (ep_service_id e = service_id)) (endpoints db)).
Proof.
  unfold joined.
  rewrite (length_join
             (fun r e => bool_decide (ep_id e = key r)
                         && bool_decide (ep_service_id e = service_id))).
  apply sum_list_with_filter. intros e.
  destruct (bool_decide (ep_service_id e = service_id)).
  - f_equal. apply List.filter_ext. intros r. rewrite andb_true_r.
    apply bool_decide_ext. split; congruence.
  - rewrite filter_none; [done|]. intros r. apply andb_false_r.
Qed.

(** X8: the statistics of a service count what the listings return: the
    endpoints of [get_endpoints], and for these endpoints the rows of
    [get_responses] and of [get_parameters]. *)
Theorem get_service_stats_counts_listings (db : Db) (service_id : nat) :
  let stats := get_service_stats db service_id in
  let listed := get_endpoints db service_id in
  stat_endpoints stats = length listed
  /\ stat_responses stats
     = sum_list_with (fun e => length (get_responses db (ep_id e))) listed
  /\ stat_parameters stats
     = sum_list_with (fun e => length (get_parameters db (ep_id e))) listed.
Proof.
  cbn zeta. unfold get_service_stats, get_endpoints, get_responses, get_parameters.
  cbn [stat_endpoints stat_responses stat_parameters].
  rewrite !merge_sort_Permutation. split; [done|].
  rewrite (joined_count rsp_endpoint_id), (joined_count par_endpoint_id).
  split; apply sum_list_with_eq; intros e; by rewrite merge_sort_Permutation.
Qed.

(** X9: [add_response] appends one row, which [get_responses] then lists
    for its endpoint, in ascending order of method.  The row holds the
    arguments as given, but for the sample, of which it holds the first 2048
    characters, and an empty schema, which is stored as the empty mapping.
    The listings of all other endpoints are as before. *)
Theorem add_response_is_listed (db : Db) (endpoint_id : nat) (method : str)
    (status_code : Z) (headers : list (str * str)) (body_schema : json)
    (body_sample content_type : str) (elapsed_ms : Z) :
  let db' := add_response db endpoint_id method status_code headers body_schema
               body_sample content_type elapsed_ms in
  (exists row,
      responses db' = responses db ++ [row]
      /\ row ∈ get_responses db' endpoint_id
      /\ rsp_id row = S (seq_responses db)
      /\ rsp_method row = method
      /\ rsp_status_code row = status_code
      /\ rsp_headers_json row = headers
      /\ rsp_content_type row = content_type
      /\ rsp_elapsed_ms row = elapsed_ms
      /\ rsp_body_sample row = take 2048 body_sample
      /\ rsp_body_schema_json row
         = (if json_truthy body_schema then body_schema else JObj []))
  /\ length (get_responses db' endpoint_id) = S (length (get_responses db endpoint_id))
  /\ StronglySorted rsp_method_le (get_responses db' endpoint_id)
  /\ (forall other, other <> endpoint_id ->
        get_responses db' other = get_responses db other).
Proof.
  cbn zeta. unfold get_responses, add_response. cbn [responses].
  split; [|split; [|split]].
  - eexists. split; [reflexivity|]. cbn.
    split.
    { rewrite merge_sort_Permutation, elem_of_filter_list. cbn.
      split; [|by apply bool_decide_eq_true]. apply elem_of_app. right. by left. }
    do 6 (split; [done|]). split; [|done].
    unfold len, slice_to. destruct (2048 <? _)%Z eqn:E; [done|].
    apply Z.ltb_ge in E. rewrite take_ge; [done|lia].
  - rewrite !merge_sort_Permutation, List.filter_app, length_app. cbn.
    rewrite bool_decide_eq_true_2 by done. cbn. lia.
  - apply StronglySorted_merge_sort; apply _.
  - intros other Hne. rewrite List.filter_app. cbn.
    rewrite bool_decide_eq_false_2 by done. by rewrite app_nil_r.
Qed.

End QueryExtras.

(** ** More on the schema extractor *)

Module ExtractionExtras.
Import Py Json SchemaExtractor ExtractionShape.

Lemma _walk_for_links_array (l : list json) (links : gset str) (base_url : str) :
  _walk_for_links (JArr l) links base_url
  = walk_items (fun data links => _walk_for_links data links base_url) 50 l links.
Proof. reflexivity. Qed.

Lemma _walk_for_links_object (d : list (str * json)) (links : gset str) (base_url : str) :
  let walk := fun data links => _walk_for_links data links base_url in
  _walk_for_links (JObj d) links base_url
  = walk_values walk d
      (walk_key walk (lit "_links") d
         (fold_left (fun acc key => walk_key walk key d acc) hateoas_keys links)).
Proof. reflexivity. Qed.

Lemma _walk_for_links_string (s : str) (links : gset str) (base_url : str) :
  _walk_for_links (JStr s) links base_url
  = if collectable base_url s then links ∪ {[ s ]} else links.
Proof.
  unfold collectable. cbn [_walk_for_links].
  by destruct (startswith s (lit "http://") || startswith s (lit "https://")).
Qed.

Section Walks.
Variable base_url : str.
Variable link : str.

#[local] Abbreviation walk := (fun data links => _walk_for_links data links base_url).

Lemma walk_items_adds (n : nat) (l : list json) (links : gset str) :
  Forall (adds base_url link) l ->
  link ∈ walk_items walk n l links
  <-> link ∈ links
      \/ (collectable base_url link = true
          /\ exists item, item ∈ take n l /\ occurs link item).
Proof.
  intros Hl. revert n links.
  induction Hl as [|item l Hitem Hl IH]; intros [|n] links; cbn;
    try (split; [by left | intros [?|(_ & ? & Hin & _)]; [done|by inversion Hin]]).
  rewrite IH, (Hitem _). split.
  - intros [[?|[? ?]]|(? & item' & ? & ?)]; [by left|right..].
    + split; [done|]. exists item. split; [by left|done].
    + split; [done|]. exists item'. split; [by right|done].
  - intros [?|(Hc & item' & Hin & Ho)]; [by left; left|].
    apply elem_of_cons in Hin as [->|Hin]; [left; right; done|].
    right. split; [done|]. by exists item'.
Qed.

Lemma walk_values_adds (d : list (str * json)) (links : gset str) :
  Forall (fun kv => adds base_url link kv.2) d ->
  link ∈ walk_values walk d links
  <-> link ∈ links
      \/ (collectable base_url link = true
          /\ exists k v, (k, v) ∈ d /\ occurs link v).
Proof.
  intros Hd. revert links.
  induction Hd as [|[k v] d Hv Hd IH]; intros links; cbn.
  { split; [by left | intros [?|(_ & ? & ? & Hin & _)]; [done|by inversion Hin]]. }
  rewrite IH, (Hv _). cbn. split.
  - intros [[?|[? ?]]|(? & k' & v' & ? & ?)]; [by left|right..].
    + split; [done|]. exists k, v. split; [by left|done].
    + split; [done|]. exists k', v'. split; [by right|done].
  - intros [?|(Hc & k' & v' & Hin & Ho)]; [by left; left|].
    apply elem_of_cons in Hin as [[= -> ->]|Hin]; [left; right; done|].
    right. split; [done|]. by exists k', v'.
Qed.

(** A walk of the value of one key adds nothing the walk of all values
    does not add. *)
Lemma walk_key_adds (key : str) (d : list (str * json)) (links : gset str) :
  Forall (fun kv => adds base_url link kv.2) d ->
  (link ∈ links -> link ∈ walk_key walk key d links)
  /\ (link ∈ walk_key walk key d links ->
      link ∈ links
      \/ (collectable base_url link = true
          /\ exists k v, (k, v) ∈ d /\ occurs link v)).
Proof.
  induction 1 as [|[k v] d Hv Hd IH]; cbn; [tauto|].
  destruct (decide (k = key)) as [_|_].
  - cbn in Hv. rewrite (Hv _). split; [by left|].
    intros [?|[? ?]]; [by left|right]. split; [done|]. exists k, v. split; [by left|done].
  - destruct IH as [IH1 IH2]. split; [done|].
    intros Hin. apply IH2 in Hin as [?|(? & k' & v' & ? & ?)]; [by left|right].
    split; [done|]. exists k', v'. split; [by right|done].
Qed.

Lemma walk_keys_adds (keys : list str) (d : list (str * json)) (links : gset str) :
  Forall (fun kv => adds base_url link kv.2) d ->
  (link ∈ links -> link ∈ fold_left (fun acc key => walk_key walk key d acc) keys links)
  /\ (link ∈ fold_left (fun acc key => walk_key walk key d acc) keys links ->
      link ∈ links
      \/ (collectable base_url link = true
          /\ exists k v, (k, v) ∈ d /\ occurs link v)).
Proof.
  intros Hd. revert links. induction keys as [|key keys IH]; intros links; cbn; [tauto|].
  destruct (IH (walk_key walk key d links)) as [IH1 IH2].
  destruct (walk_key_adds key d links Hd) as [K1 K2].
  split; [auto|]. intros Hin. apply IH2 in Hin as [Hin|?]; [auto|by right].
Qed.

Lemma _walk_for_links_adds (data : json) : adds base_url link data.
Proof.
  induction data as [| | | |s|l IH|d IH] using json_induction; intros links;
    try (cbn; split; [by left | intros [?|[_ Ho]]; [done|by inversion Ho]]).
  - rewrite _walk_for_links_string.
    destruct (collectable base_url s) eqn:E.
    + rewrite elem_of_union, elem_of_singleton. split.
      * intros [?| ->]; [by left|right]. split; [done|constructor].
      * intros [?|[_ Ho]]; [by left|right]. by inversion Ho.
    + split; [by left|]. intros [?|[Hc Ho]]; [done|].
      inversion Ho; subst. congruence.
  - rewrite _walk_for_links_array, walk_items_adds by done. split.
    + intros [?|(? & item & ? & ?)]; [by left|right]. split; [done|]. by econstructor.
    + intros [?|[? Ho]]; [by left|right]. split; [done|].
      inversion Ho; subst. by eexists.
  - rewrite _walk_for_links_object. cbn zeta. rewrite walk_values_adds by done.
    destruct (walk_keys_adds hateoas_keys d links IH) as [F1 F2].
    destruct (walk_key_adds (lit "_links") d
                (fold_left (fun acc key => walk_key walk key d acc) hateoas_keys links) IH)
      as [K1 K2].
    split.
    + intros [Hin|(? & k & v & ? & ?)]; [|right; split; [done|]; by econstructor].
      apply K2 in Hin as [Hin|(? & k & v & ? & ?)];
        [|right; split; [done|]; by econstructor].
      apply F2 in Hin as [Hin|(? & k & v & ? & ?)];
        [by left|right; split; [done|]; by econstructor].
    + intros [?|[? Ho]]; [left; auto|right]. split; [done|].
      inversion Ho; subst. by eexists _, _.
Qed.
End Walks.

(** X10: the links [extract_links_from_json] returns are the strings that
    occur in the document, reached through the values of mappings and the
    first 50 items of arrays, and pass the test for a link.  The walks of
    the keys [href], [url], ..., [_links] add nothing to them. *)
Theorem extract_links_from_json_collects (data : json) (base_url link : str) :
  link ∈ extract_links_from_json data base_url
  <-> collectable base_url link = true /\ occurs link data.
Proof.
  unfold extract_links_from_json.
  rewrite (_walk_for_links_adds base_url link data ∅). set_solver.
Qed.

(** X11: a link that is returned is a path that starts with one slash, or
    an [http] or [https] URL that starts with the base URL, which is then
    not empty.  With an empty base URL only paths are returned. *)
Theorem extract_links_from_json_same_site (data : json) (base_url link : str) :
  link ∈ extract_links_from_json data base_url ->
  (startswith link (lit "/") = true /\ startswith link (lit "//") = false)
  \/ ((startswith link (lit "http://") = true \/ startswith link (lit "https://") = true)
      /\ base_url <> [] /\ startswith link base_url = true).
Proof.
  unfold extract_links_from_json.
  rewrite (_walk_for_links_adds base_url link data ∅).
  intros [Hin|[Hc _]]; [set_solver|]. unfold collectable in Hc.
  destruct (startswith link (lit "http://") || startswith link (lit "https://")) eqn:E.
  - right. apply andb_true_iff in Hc as [Hb Hs]. apply orb_true_iff in E.
    split; [done|]. split; [|done]. by destruct base_url.
  - left. apply andb_true_iff in Hc as [H1 H2]. apply negb_true_iff in H2. done.
Qed.

(** The example store's service, with a link to a note in a document. *)
Lemma extract_links_from_json_same_site_witness :
  lit "/notes/1"
    ∈ extract_links_from_json (JObj [(lit "href", JStr (lit "/notes/1"))])
        (lit "http://api.example.com")
  /\ ((startswith (lit "/notes/1") (lit "/") = true
       /\ startswith (lit "/notes/1") (lit "//") = false)
      \/ ((startswith (lit "/notes/1") (lit "http://") = true
           \/ startswith (lit "/notes/1") (lit "https://") = true)
          /\ lit "http://api.example.com" <> []
          /\ startswith (lit "/notes/1") (lit "http://api.example.com") = true)).
Proof.
  assert (H : lit "/notes/1"
                ∈ extract_links_from_json (JObj [(lit "href", JStr (lit "/notes/1"))])
                    (lit "http://api.example.com")).
  { vm_compute. set_solver. }
  split; [exact H|]. exact (extract_links_from_json_same_site _ _ _ H).
Defined.

(** X12: the items of an array after the 50th are not searched, at any
    depth of the document the array is at the top of. *)
Theorem extract_links_from_json_first_50 (l : list json) (base_url : str) :
  extract_links_from_json (JArr l) base_url
  = extract_links_from_json (JArr (take 50 l)) base_url.
Proof.
  apply set_eq. intros link. unfold extract_links_from_json.
  rewrite !(_walk_for_links_adds base_url link _ ∅).
  assert (occurs link (JArr l) <-> occurs link (JArr (take 50 l))); [|tauto].
  split; intros Ho; inversion Ho; subst; econstructor; try done.
  - by rewrite take_take.
  - by rewrite take_take in *.
Qed.

(** X13: [extract_schema_from_body] returns the empty mapping exactly when
    the body is blank or is not a JSON document; otherwise it returns the
    descriptor of the document. *)
Theorem extract_schema_from_body_empty (json_loads : str -> option json) (body_str : str) :
  (extract_schema_from_body json_loads body_str = JObj []
   <-> strip body_str = [] \/ json_loads body_str = None)
  /\ (forall data,
        strip body_str <> [] -> json_loads body_str = Some data ->
        extract_schema_from_body json_loads body_str = extract_schema data).
Proof.
  unfold extract_schema_from_body.
  assert (Hne : forall data, extract_schema data <> JObj []).
  { intros [| | | |s|[|x l]|d]; cbn; try done. by destruct (0 <? len s)%Z. }
  destruct body_str as [|c s]; [split; [by split; [left|]|by intros]|].
  cbn [truthy negb orb].
  destruct (strip (c :: s)) as [|c' s'] eqn:E; cbn [truthy negb].
  { split; [by split; [left|]|by intros]. }
  destruct (json_loads (c :: s)) as [data|].
  - split; [|by intros ? _ [= ->]].
    split; [by intros ?%Hne|by intros [?|?]].
  - split; [by split; [right|]|by intros].
Qed.

End ExtractionExtras.

(** ** The wordlist and the pattern strategy *)

Module ProbingExtras.
Import Py Json Http Robots Database Discovery RequestShape.
#[local] Open Scope client_scope.

Lemma issues_ret {A} (P : str * str -> Prop) (a : A) : issues P (ret a).
Proof. intros c. exists []. by rewrite app_nil_r. Qed.

Lemma issues_get_request_count (P : str * str -> Prop) : issues P get_request_count.
Proof. intros c. exists []. by rewrite app_nil_r. Qed.

Lemma issues_bind {A B} (P : str * str -> Prop) (m : M A) (k : A -> M B) :
  issues P m -> (forall a, issues P (k a)) -> issues P (bind m k).
Proof.
  intros Hm Hk c. unfold bind. destruct (Hm c) as (l1 & E1 & F1).
  destruct (m c) as [[a|] c1]; [|by exists l1].
  destruct (Hk a c1) as (l2 & E2 & F2).
  exists (l1 ++ l2). cbn [snd] in *. rewrite E2, E1, <- app_assoc.
  split; [done|]. by apply Forall_app.
Qed.

Lemma issues_raise {A} (P : str * str -> Prop) : issues P (@raise A).
Proof. intros c. exists []. by rewrite app_nil_r. Qed.

Lemma issues_request (P : str * str -> Prop) (transport : Transport) (u m : str) :
  P (m, u) -> issues P (request transport u m).
Proof.
  intros HP c. unfold request. destruct (builds transport u).
  - exists [(m, u)]. split; [done|]. by constructor.
  - exists []. by rewrite app_nil_r.
Qed.

Lemma issues_weaken {A} (P Q : str * str -> Prop) (m : M A) :
  (forall req, P req -> Q req) -> issues P m -> issues Q m.
Proof.
  intros HPQ Hm c. destruct (Hm c) as (l & E & F). exists l. split; [done|].
  eapply Forall_impl; [exact F|exact HPQ].
Qed.

Lemma receive_url (transport : Transport) (n : nat) (u m : str) :
  url (receive transport n u m) = u /\ method (receive transport n u m) = m.
Proof. unfold receive. by destruct (reply transport n m u). Qed.

Lemma path_find_weaken (base_url path : str) (rest : list str) (known known' : gset str)
    (result : str * HttpResponse) :
  known ⊆ known' ->
  path_find base_url rest known' result ->
  path_find base_url (path :: rest) known result.
Proof.
  intros Hsub (Hf & Hin & Hk & Hu). split; [done|]. split; [by right|].
  split; [set_solver|done].
Qed.

Section Probing.
Variable transport : Transport.
Variable can_fetch : str -> str -> str -> bool.

Lemma path_probe_weaken (base_url : str) (robots_checker : option RobotsChecker)
    (path : str) (rest : list str) (known known' : gset str) (req : str * str) :
  known ⊆ known' ->
  path_probe can_fetch base_url robots_checker rest known' req ->
  path_probe can_fetch base_url robots_checker (path :: rest) known req.
Proof.
  intros Hsub (Hm & p & Hu & Hin & Hk & Hd). split; [done|].
  exists p. split; [done|]. split; [by right|]. split; [set_solver|done].
Qed.

Lemma probe_each_issues (base_url : str) (robots_checker : option RobotsChecker)
    (max_requests : Z) (paths : list str) (known : gset str)
    (results : list (str * HttpResponse)) :
  issues (path_probe can_fetch base_url robots_checker paths known)
    (probe_each transport can_fetch base_url robots_checker max_requests paths
       known results).
Proof.
  revert known results. induction paths as [|path rest IH]; intros known results;
    cbn [probe_each]; [apply issues_ret|].
  assert (Hrest : forall known' results', known ⊆ known' ->
            issues (path_probe can_fetch base_url robots_checker (path :: rest) known)
              (probe_each transport can_fetch base_url robots_checker max_requests rest
                 known' results')).
  { intros known' results' Hsub.
    apply (issues_weaken (path_probe can_fetch base_url robots_checker rest known'));
      [|apply IH].
    intros req. by apply path_probe_weaken. }
  apply issues_bind; [apply issues_get_request_count|]. intros n.
  destruct (_ && _); [apply issues_ret|].
  destruct (decide (path ∈ known)) as [|Hk]; [by apply Hrest|].
  destruct (denied _ _ _) eqn:Hd; [by apply Hrest|].
  assert (Hp : forall m, m = lit "HEAD" \/ m = lit "GET" ->
            path_probe can_fetch base_url robots_checker (path :: rest) known
              (m, base_url ++ path)).
  { intros m Hm. split; [done|]. exists path. split; [done|]. split; [by left|done]. }
  apply issues_bind; [apply issues_request, Hp; by left|]. intros resp.
  apply issues_bind.
  { destruct (_ =? _)%Z; [apply issues_request, Hp; by right|apply issues_ret]. }
  intros resp'. destruct (found resp'); apply Hrest; set_solver.
Qed.

(** X14: [probe_wordlist] and [probe_patterns] make [HEAD] and [GET]
    requests only, each for the base URL without trailing slashes followed
    by one of their paths, and never for a path that is known or that the
    robots file disallows. *)
Theorem path_probes_issue_allowed_requests (read_lines : str -> option (list str))
    (base_url : str) (wordlist_names : list str)
    (config : Config.Config) (robots_checker : option RobotsChecker)
    (known_paths : gset str) (max_requests : Z) :
  issues
    (path_probe can_fetch (rstrip base_url (cp "/")) robots_checker
       (load_all_wordlists read_lines wordlist_names) known_paths)
    (probe_wordlist transport can_fetch read_lines base_url wordlist_names
       robots_checker known_paths max_requests)
  /\ issues
       (path_probe can_fetch (rstrip base_url (cp "/")) robots_checker
          (generate_patterns config) known_paths)
       (probe_patterns transport can_fetch base_url config robots_checker known_paths
          max_requests).
Proof.
  split; (apply issues_bind; [apply probe_each_issues|]); intros [? ?]; apply issues_ret.
Qed.

Lemma probe_each_budget (base_url : str) (robots_checker : option RobotsChecker)
    (max_requests : Z) (paths : list str) (known : gset str)
    (results : list (str * HttpResponse)) (c : HttpClient) :
  max_requests <> 0%Z ->
  (request_count
     (probe_each transport can_fetch base_url robots_checker max_requests paths
        known results c).2
   <= Z.max (request_count c) (max_requests + 1))%Z.
Proof.
  intros Hmax. revert known results c.
  induction paths as [|path rest IH]; intros known results c; cbn [probe_each];
    [cbn; lia|].
  unfold bind at 1, get_request_count at 1.
  destruct (negb (max_requests =? 0)%Z && (max_requests <=? request_count c)%Z) eqn:E;
    [cbn; lia|].
  destruct (decide (path ∈ known)); [apply IH|].
  destruct (denied _ _ _); [apply IH|].
  apply andb_false_iff in E as [E|E];
    [apply negb_false_iff, Z.eqb_eq in E; lia|apply Z.leb_gt in E].
  unfold bind, head, get, request, ret.
  destruct (builds transport (base_url ++ path)); cbn [fst snd]; [|lia].
  destruct (status_code _ =? 405)%Z; cbn [fst snd];
    match goal with
    | |- context [if found ?r then _ else _] => destruct (found r)
    end;
    (etrans; [apply IH|]); unfold request_count in *; cbn [_request_count]; lia.
Qed.

(** X15: with a budget other than 0, [probe_wordlist] and [probe_patterns]
    leave the request counter at most one above the budget, unless it was
    higher when they were called: the counter is checked before each path,
    and a path takes one or two requests. *)
Theorem path_probes_overshoot_by_one (read_lines : str -> option (list str))
    (base_url : str) (wordlist_names : list str)
    (config : Config.Config) (robots_checker : option RobotsChecker)
    (known_paths : gset str) (max_requests : Z) (c : HttpClient) :
  max_requests <> 0%Z ->
  (request_count
     (probe_wordlist transport can_fetch read_lines base_url wordlist_names
        robots_checker known_paths max_requests c).2
   <= Z.max (request_count c) (max_requests + 1))%Z
  /\ (request_count
        (probe_patterns transport can_fetch base_url config robots_checker known_paths
           max_requests c).2
      <= Z.max (request_count c) (max_requests + 1))%Z.
Proof.
  intros Hmax. unfold probe_wordlist, probe_patterns, bind.
  split.
  - pose proof (probe_each_budget (rstrip base_url (cp "/")) robots_checker max_requests
                  (load_all_wordlists read_lines wordlist_names) known_paths [] c Hmax).
    by destruct (probe_each _ _ _ _ _ _ _ _ c) as [[[? ?]|] ?].
  - pose proof (probe_each_budget (rstrip base_url (cp "/")) robots_checker max_requests
                  (generate_patterns config) known_paths [] c Hmax).
    by destruct (probe_each _ _ _ _ _ _ _ _ c) as [[[? ?]|] ?].
Qed.

Lemma probe_each_finds (base_url : str) (robots_checker : option RobotsChecker)
    (max_requests : Z) (paths : list str) (known : gset str)
    (results : list (str * HttpResponse)) (c : HttpClient) :
  match (probe_each transport can_fetch base_url robots_checker max_requests paths
           known results c).1 with
  | Some out =>
      exists new,
        out.1 = results ++ new
        /\ out.2 = known ∪ list_to_set new.*1
        /\ NoDup new.*1
        /\ Forall (path_find base_url paths known) new
  | None => path_refused transport can_fetch base_url robots_checker paths known
  end.
Proof.
  revert known results c.
  assert (Hnil : forall (known : gset str) (results : list (str * HttpResponse)) ps,
            exists new : list (str * HttpResponse),
              results = results ++ new
              /\ known = known ∪ list_to_set new.*1
              /\ NoDup new.*1 /\ Forall (path_find base_url ps known) new).
  { intros known results ps. exists []. rewrite app_nil_r. cbn.
    split; [done|]. split; [set_solver|]. split; [constructor|constructor]. }
  induction paths as [|path rest IH]; intros known results c; cbn [probe_each];
    [apply Hnil|].
  assert (Hrefused : forall known',
            known ⊆ known' ->
            path_refused transport can_fetch base_url robots_checker rest known' ->
            path_refused transport can_fetch base_url robots_checker (path :: rest)
              known).
  { intros known' Hsub (p & Hin & Hk & Hd & Hb). exists p.
    split; [by right|]. split; [set_solver|done]. }
  assert (Hskip : forall c',
            match (probe_each transport can_fetch base_url robots_checker max_requests
                     rest known results c').1 with
            | Some out =>
                exists new,
                  out.1 = results ++ new
                  /\ out.2 = known ∪ list_to_set new.*1
                  /\ NoDup new.*1
                  /\ Forall (path_find base_url (path :: rest) known) new
            | None =>
                path_refused transport can_fetch base_url robots_checker (path :: rest)
                  known
            end).
  { intros c'. specialize (IH known results c').
    destruct (probe_each _ _ _ _ _ _ _ _ c').1 as [out|]; [|by eapply Hrefused].
    destruct IH as (new & E1 & E2 & Hnd & F).
    exists new. do 3 (split; [done|]).
    eapply Forall_impl; [exact F|]. intros r. by apply path_find_weaken. }
  assert (Hfound : forall resp c',
            found resp = true -> path ∉ known ->
            url resp = base_url ++ path ->
            (method resp = lit "HEAD" \/ method resp = lit "GET") ->
            match (probe_each transport can_fetch base_url robots_checker max_requests
                     rest (known ∪ {[path]}) (results ++ [(path, resp)]) c').1 with
            | Some out =>
                exists new,
                  out.1 = results ++ new
                  /\ out.2 = known ∪ list_to_set new.*1
                  /\ NoDup new.*1
                  /\ Forall (path_find base_url (path :: rest) known) new
            | None =>
                path_refused transport can_fetch base_url robots_checker (path :: rest)
                  known
            end).
  { intros resp c' Hf Hk Hu Hm.
    specialize (IH (known ∪ {[path]}) (results ++ [(path, resp)]) c').
    destruct (probe_each _ _ _ _ _ _ _ _ c').1 as [out|];
      [|eapply Hrefused; [|exact IH]; set_solver].
    destruct IH as (new & E1 & E2 & Hnd & F).
    exists ((path, resp) :: new). rewrite E1, E2, <- app_assoc. cbn.
    split; [done|]. split; [set_solver|]. split.
    - constructor; [|done]. intros Hin.
      apply list_elem_of_fmap in Hin as ([p r] & -> & Hin).
      rewrite Forall_forall in F. destruct (F _ Hin) as (_ & _ & Hn & _).
      cbn in Hn. set_solver.
    - constructor; [split; [done|]; split; [by left|done]|].
      eapply Forall_impl; [exact F|]. intros r. apply path_find_weaken. set_solver. }
  unfold bind, get_request_count, head, get, request, ret. cbn [fst snd].
  destruct (_ && _); [apply Hnil|].
  destruct (decide (path ∈ known)) as [|Hk]; [apply Hskip|].
  destruct (denied _ _ _) eqn:Hd; [apply Hskip|].
  destruct (builds transport (base_url ++ path)) eqn:Hb; cbn [fst snd]; cycle 1.
  { exists path. split; [by left|done]. }
  destruct (status_code _ =? 405)%Z; cbn [fst snd];
    match goal with
    | |- context [if found ?r then _ else _] => destruct (found r) eqn:Hf
    end; try apply Hskip;
    (apply Hfound; [done|done|apply receive_url|]);
    [right|left]; apply receive_url.
Qed.

(** X16: what [probe_wordlist] and [probe_patterns] return.  Each result is
    a path of the list that was not known, with the answer to the [HEAD] or
    [GET] of its URL, whose status is neither 404 nor missing; no path is
    returned twice.  The caller's set [known_paths] gains the paths of the
    results, unless it was empty: then it stays empty.  They raise instead
    of returning only at a path of the list, neither known nor disallowed,
    whose request cannot be built. *)
Theorem path_probes_return_new_finds (read_lines : str -> option (list str))
    (base_url : str) (wordlist_names : list str)
    (config : Config.Config) (robots_checker : option RobotsChecker)
    (known_paths : gset str) (max_requests : Z) (c : HttpClient) :
  let returns (paths : list str)
      (result : option (list (str * HttpResponse) * gset str)) :=
    match result with
    | Some out =>
        NoDup out.1.*1
        /\ Forall (path_find (rstrip base_url (cp "/")) paths known_paths) out.1
        /\ out.2 = (if decide (known_paths = ∅) then ∅
                    else known_paths ∪ list_to_set out.1.*1)
    | None =>
        path_refused transport can_fetch (rstrip base_url (cp "/")) robots_checker
          paths known_paths
    end in
  returns (load_all_wordlists read_lines wordlist_names)
    (probe_wordlist transport can_fetch read_lines base_url wordlist_names
       robots_checker known_paths max_requests c).1
  /\ returns (generate_patterns config)
       (probe_patterns transport can_fetch base_url config robots_checker known_paths
          max_requests c).1.
Proof.
  cbn zeta. unfold probe_wordlist, probe_patterns, bind, ret, caller_view.
  split.
  - pose proof (probe_each_finds (rstrip base_url (cp "/")) robots_checker max_requests
                  (load_all_wordlists read_lines wordlist_names) known_paths [] c) as H.
    destruct (probe_each _ _ _ _ _ _ _ _ c) as [[[results known]|] c']; [|exact H].
    destruct H as (new & E1 & E2 & Hnd & F). cbn in *. subst.
    split; [done|]. split; [done|]. by destruct (decide _) as [->|].
  - pose proof (probe_each_finds (rstrip base_url (cp "/")) robots_checker max_requests
                  (generate_patterns config) known_paths [] c) as H.
    destruct (probe_each _ _ _ _ _ _ _ _ c) as [[[results known]|] c']; [|exact H].
    destruct H as (new & E1 & E2 & Hnd & F). cbn in *. subst.
    split; [done|]. split; [done|]. by destruct (decide _) as [->|].
Qed.

End Probing.

(** With a budget of 1 and a server that refuses [HEAD], the first path
    takes two requests. *)
Lemma path_probes_overshoot_by_one_witness :
  (1 <> 0)%Z
  /\ (request_count
        (probe_wordlist ProbingScenario.head_refused (fun _ _ _ => true)
           Scenario.wordlist_files ScannerShape.example_base [lit "common_rest.txt"]
           None ∅ 1 (new_client 0)).2
      <= Z.max (request_count (new_client 0)) (1 + 1))%Z
  /\ (request_count
        (probe_patterns ProbingScenario.head_refused (fun _ _ _ => true)
           ScannerShape.example_base (Scenario.config 1 ["pattern"%string])
           None ∅ 1 (new_client 0)).2
      <= Z.max (request_count (new_client 0)) (1 + 1))%Z.
Proof.
  assert (H : (1 <> 0)%Z) by lia. split; [exact H|].
  exact (path_probes_overshoot_by_one ProbingScenario.head_refused (fun _ _ _ => true)
           Scenario.wordlist_files ScannerShape.example_base [lit "common_rest.txt"]
           (Scenario.config 1 ["pattern"%string]) None ∅ 1 (new_client 0) H).
Defined.

End ProbingExtras.

(** ** The method tester *)

Module MethodExtras.
Import Py Json Http Discovery ScannerShape Scenario MethodShape.
#[local] Open Scope client_scope.

Section Loop.
Variable transport : Transport.

(** The loop of [test_methods], when the requests can be built: it makes
    one request per method until a round raises, and folds the answers
    into its accumulators. *)
Lemma test_methods_loop_steps (u : str) (methods : list str) (a : MethodAcc)
    (c : HttpClient) :
  builds transport u = true ->
  let rs := answers transport (length (issued c)) u methods in
  test_methods_loop transport u methods a c
  = (steps rs a,
     {| delay_ms := delay_ms c;
        _request_count := (_request_count c + Z.of_nat (consumed rs a))%Z;
        issued := issued c ++ List.map (fun m => (m, u)) (take (consumed rs a) methods) |}).
Proof.
  intros Hb. cbn zeta. revert a c. induction methods as [|m rest IH]; intros a c.
  - cbn. rewrite Z.add_0_r, app_nil_r. by destruct c.
  - cbn [test_methods_loop answers steps consumed]. unfold bind, request. rewrite Hb.
    unfold step. cbn [fst snd].
    destruct (test_methods_step m (receive transport (length (issued c)) u m) a)
      as [a'|].
    + rewrite IH.
      cbn [issued delay_ms _request_count List.map take].
      rewrite length_app, <- app_assoc. cbn [length app].
      replace (length (issued c) + 1) with (S (length (issued c))) by lia.
      do 2 f_equal. lia.
    + cbn. rewrite take_0. done.
Qed.

(** The loop when the requests cannot be built: the first one raises. *)
Lemma test_methods_loop_refused (u m : str) (rest : list str) (a : MethodAcc)
    (c : HttpClient) :
  builds transport u = false ->
  test_methods_loop transport u (m :: rest) a c = (None, c).
Proof. intros Hb. cbn [test_methods_loop]. unfold bind, request. by rewrite Hb. Qed.
End Loop.

(** A round raises exactly on an answer 401 or 403 whose challenge is not
    empty and yields no hint. *)
Lemma step_challenge_ok (a : MethodAcc) (r : str * HttpResponse) :
  is_Some (step a r) <-> challenge_ok r.2 = true.
Proof.
  unfold step, test_methods_step, challenge_ok.
  destruct (status_code r.2 =? 0)%Z eqn:E.
  { apply Z.eqb_eq in E. rewrite E. cbn. split; [done|]. by eexists. }
  set (www_auth := dict_get_or (headers r.2) (lit "WWW-Authenticate") []).
  destruct (bool_decide (r.1 = lit "OPTIONS") && dict_has (headers r.2) (lit "Allow"));
    destruct (bool_decide (status_code r.2 ∈ [401; 403]%Z));
    destruct (truthy www_auth);
    destruct (method_auth_hint www_auth) as [h|];
    cbn [negb andb orb]; rewrite ?bool_decide_eq_true;
    (split; intros H; try done; try (by eexists); by destruct H).
Qed.

Lemma steps_consumed (rs : list (str * HttpResponse)) (a : MethodAcc) :
  match steps rs a with
  | Some _ =>
      Forall (fun r => challenge_ok r.2 = true) rs /\ consumed rs a = length rs
  | None =>
      exists j r,
        rs !! j = Some r
        /\ challenge_ok r.2 = false
        /\ (forall i r', i < j -> rs !! i = Some r' -> challenge_ok r'.2 = true)
        /\ consumed rs a = S j
  end.
Proof.
  revert a. induction rs as [|r rs IH]; intros a; cbn [steps consumed].
  { split; [constructor|done]. }
  pose proof (step_challenge_ok a r) as Hr.
  destruct (step a r) as [a'|].
  - assert (Hok : challenge_ok r.2 = true) by (apply Hr; by eexists).
    specialize (IH a'). destruct (steps rs a').
    + destruct IH as [Hall ->]. split; [by constructor|done].
    + destruct IH as (j & r0 & Hj & Hbad & Hbefore & ->).
      exists (S j), r0. split; [done|]. split; [done|]. split; [|done].
      intros [|i] r' Hi Hr'; [cbn in Hr'; by injection Hr' as <-|].
      apply (Hbefore i); [lia|done].
  - exists 0, r. split; [done|]. split.
    + destruct (challenge_ok r.2); [|done]. destruct Hr as [_ Hr].
      by destruct (Hr eq_refl).
    + split; [intros i r' Hi; lia|done].
Qed.

Lemma steps_returns (rs : list (str * HttpResponse)) (a : MethodAcc) :
  Forall (fun r => challenge_ok r.2 = true) rs -> is_Some (steps rs a).
Proof.
  intros Hall. pose proof (steps_consumed rs a) as H.
  destruct (steps rs a); [by eexists|].
  destruct H as (j & r & Hj & Hbad & _). rewrite Forall_forall in Hall.
  apply list_elem_of_lookup_2 in Hj. apply Hall in Hj. congruence.
Qed.

Lemma answers_methods (transport : Transport) (n : nat) (u : str) (methods : list str) :
  (answers transport n u methods).*1 = methods.
Proof. revert n. induction methods as [|m rest IH]; intros n; cbn; [done|]. by rewrite IH. Qed.

Lemma NoDup_methods_to_test (skip_destructive : bool) :
  NoDup (methods_to_test skip_destructive).
Proof. destruct skip_destructive; apply (bool_decide_unpack _); by vm_compute. Qed.

(** X17: the requests of [test_methods].  It makes one request per method
    of [SAFE_METHODS], or of [ALL_METHODS] when [skip_destructive] is off,
    in that order, all for the base URL without trailing slashes followed by
    the path.  When it returns it has made all 3 or 7 of them, and the
    counter has moved by 3 or by 7.  It raises without a request when the
    request for that URL cannot be built, and otherwise right after the
    first answer 401 or 403 whose [WWW-Authenticate] value is not empty and
    yields no hint, with the requests up to that one made and counted.  It
    returns whenever the request can be built and no answer is of that
    kind. *)
Theorem test_methods_requests (transport : Transport) (base_url path : str)
    (skip_destructive : bool) (c : HttpClient) :
  let u := rstrip base_url (cp "/") ++ path in
  let methods := if skip_destructive then SAFE_METHODS else ALL_METHODS in
  let rs := answers transport (length (issued c)) u methods in
  let out := test_methods transport base_url path skip_destructive c in
  match out.1 with
  | Some _ =>
      issued out.2 = issued c ++ List.map (fun m => (m, u)) methods
      /\ request_count out.2
         = (request_count c + (if skip_destructive then 3 else 7))%Z
  | None =>
      (builds transport u = false /\ out.2 = c)
      \/ (exists j r,
            rs !! j = Some r
            /\ challenge_ok r.2 = false
            /\ (forall i r', i < j -> rs !! i = Some r' -> challenge_ok r'.2 = true)
            /\ issued out.2 = issued c ++ List.map (fun m => (m, u)) (take (S j) methods)
            /\ request_count out.2 = (request_count c + Z.of_nat (S j))%Z)
  end
  /\ (builds transport u = true ->
      Forall (fun r => challenge_ok r.2 = true) rs ->
      is_Some out.1).
Proof.
  cbn zeta. unfold test_methods, bind.
  set (u := rstrip base_url (cp "/") ++ path).
  set (methods := if skip_destructive then SAFE_METHODS else ALL_METHODS).
  set (a := {| supported := []; status_codes := []; auth_required := false;
               auth_type_hint := []; allow_header := []; content_types := ∅ |}).
  destruct (builds transport u) eqn:Hb.
  - rewrite (test_methods_loop_steps transport u methods a c Hb).
    pose proof (steps_consumed (answers transport (length (issued c)) u methods) a) as H.
    pose proof (steps_returns (answers transport (length (issued c)) u methods) a) as R.
    destruct (steps _ a) as [a'|]; cbn [fst snd ret].
    + destruct H as [_ ->]. split; [|by eexists].
      assert (Hlen : length (answers transport (length (issued c)) u methods)
                     = length methods).
      { rewrite <- (length_fmap fst), answers_methods. done. }
      rewrite Hlen, firstn_all. cbn [issued request_count _request_count].
      split; [done|]. unfold methods. by destruct skip_destructive.
    + destruct H as (j & r & Hj & Hbad & Hbefore & ->).
      split; [|intros _ Hall; by destruct (R Hall)].
      right. exists j, r. done.
  - assert (E : test_methods_loop transport u methods a c = (None, c)).
    { unfold methods. destruct skip_destructive; by apply test_methods_loop_refused. }
    rewrite E. cbn [fst snd]. split; [by left|]. done.
Qed.

(** A server whose every answer is 401 with a Digest challenge: all three
    safe methods are requested. *)
Lemma test_methods_requests_witness :
  builds (challenges "Digest realm=x") (example_base ++ lit "/private") = true
  /\ is_Some (test_methods (challenges "Digest realm=x") example_base (lit "/private")
                true (new_client 0)).1.
Proof.
  assert (Hb : builds (challenges "Digest realm=x")
                 (rstrip example_base (cp "/") ++ lit "/private") = true)
    by reflexivity.
  split; [exact Hb|].
  apply (test_methods_requests (challenges "Digest realm=x") example_base
           (lit "/private") true (new_client 0)); [exact Hb|].
  vm_compute. repeat constructor.
Defined.

(** What a round that returns leaves in the accumulators. *)
Lemma step_returned (a a' : MethodAcc) (r : str * HttpResponse) :
  step a r = Some a' ->
  auth_required a' = auth_required a || asks_for_credentials r.2
  /\ status_codes a'
     = (if (status_code r.2 =? 0)%Z then status_codes a
        else dict_set (status_codes a) r.1 (status_code r.2))
  /\ supported a'
     = (if (status_code r.2 =? 0)%Z then supported a
        else
          let supported :=
            if bool_decide (r.1 = lit "OPTIONS") && dict_has (headers r.2) (lit "Allow")
            then
              fold_left
                (fun supported m =>
                   let m := upper (strip m) in
                   if truthy m then append_new supported m else supported)
                (split (remove_cp (dict_get_or (headers r.2) (lit "Allow") []) (cp " "))
                   (cp ","))
                (supported a)
            else supported a in
          if negb (bool_decide (status_code r.2 ∈ [404; 405; 501]%Z))
          then append_new supported r.1 else supported).
Proof.
  unfold step, test_methods_step, asks_for_credentials.
  destruct (status_code r.2 =? 0)%Z eqn:E.
  { intros [= <-]. apply Z.eqb_eq in E. rewrite E. by rewrite orb_false_r. }
  set (www_auth := dict_get_or (headers r.2) (lit "WWW-Authenticate") []).
  destruct (bool_decide (r.1 = lit "OPTIONS") && dict_has (headers r.2) (lit "Allow"));
    destruct (bool_decide (status_code r.2 ∈ [401; 403]%Z));
    destruct (truthy www_auth);
    try destruct (method_auth_hint www_auth) as [h|];
    cbn zeta; intros [= <-]; cbn; by rewrite ?orb_true_r, ?orb_false_r.
Qed.

Lemma dict_set_fresh {V} (d : list (str * V)) (k : str) (v : V) :
  k ∉ d.*1 -> dict_set d k v = d ++ [(k, v)].
Proof.
  induction d as [|[k' v'] d IH]; cbn; [done|]. intros Hk.
  apply not_elem_of_cons in Hk as [Hne Hk].
  destruct (decide (k' = k)); [done|]. by rewrite IH.
Qed.

Lemma answered_keys (rs : list (str * HttpResponse)) (k : str) :
  k ∈ (answered rs).*1 -> k ∈ rs.*1.
Proof.
  unfold answered. induction rs as [|[m resp] rs IH]; cbn; [done|].
  destruct (status_code resp =? 0)%Z; cbn; rewrite ?elem_of_cons; intuition.
Qed.

Lemma steps_status_codes (rs : list (str * HttpResponse)) (a a' : MethodAcc) :
  steps rs a = Some a' ->
  NoDup rs.*1 ->
  (forall k, k ∈ (status_codes a).*1 -> k ∉ rs.*1) ->
  status_codes a' = status_codes a ++ answered rs.
Proof.
  revert a. induction rs as [|[m resp] rs IH]; intros a Hsteps Hnd Hfresh.
  { cbn in Hsteps. injection Hsteps as <-. cbn. by rewrite app_nil_r. }
  cbn in Hnd. apply NoDup_cons in Hnd as [Hm Hnd].
  cbn [steps] in Hsteps. destruct (step a (m, resp)) as [a1|] eqn:E1; [|done].
  apply step_returned in E1 as (_ & Hcodes & _). cbn [fst snd] in Hcodes.
  rewrite (IH a1 Hsteps Hnd); rewrite Hcodes.
  - unfold answered. cbn.
    destruct (status_code resp =? 0)%Z; cbn; [done|].
    rewrite dict_set_fresh, <- app_assoc; [done|].
    intros Hin. apply Hfresh in Hin. cbn in Hin. set_solver.
  - intros k. destruct (status_code resp =? 0)%Z.
    + intros Hin. apply Hfresh in Hin. cbn in Hin. set_solver.
    + destruct (decide (k = m)) as [->|Hne]; [done|].
      intros Hin. assert (Hk : k ∈ (status_codes a).*1).
      { clear -Hin Hne. induction (status_codes a) as [|[k' v'] d IHd]; cbn in *.
        - set_solver.
        - destruct (decide (k' = m)); cbn in *; set_solver. }
      apply Hfresh in Hk. cbn in Hk. set_solver.
Qed.

Lemma steps_auth_required (rs : list (str * HttpResponse)) (a a' : MethodAcc) :
  steps rs a = Some a' ->
  auth_required a'
  = auth_required a || existsb (fun r => asks_for_credentials r.2) rs.
Proof.
  revert a. induction rs as [|r rs IH]; intros a Hsteps; cbn [steps existsb] in *.
  - injection Hsteps as <-. by rewrite orb_false_r.
  - destruct (step a r) as [a1|] eqn:E1; [|done].
    apply step_returned in E1 as (Hauth & _).
    by rewrite (IH a1 Hsteps), Hauth, orb_assoc.
Qed.

Section Report.
Variable transport : Transport.
Variable base_url path : str.
Variable skip_destructive : bool.
Variable c : HttpClient.

(** What [test_methods] returns when its requests can be built and no
    round raises. *)
Lemma test_methods_returns :
  let rs :=
    answers transport (length (issued c)) (rstrip base_url (cp "/") ++ path)
      (methods_to_test skip_destructive) in
  builds transport (rstrip base_url (cp "/") ++ path) = true ->
  Forall (fun r => challenge_ok r.2 = true) rs ->
  exists a,
    steps rs
      {| supported := []; status_codes := []; auth_required := false;
         auth_type_hint := []; allow_header := []; content_types := ∅ |} = Some a
    /\ (test_methods transport base_url path skip_destructive c).1
       = Some {| mi_methods := sorted (supported a);
                 mi_status_codes := status_codes a;
                 mi_auth_required := auth_required a;
                 mi_auth_type_hint := auth_type_hint a;
                 mi_allow_header := allow_header a;
                 mi_content_types := sorted (elements (content_types a)) |}.
Proof.
  cbn zeta. intros Hb Hall. unfold test_methods, bind.
  fold (methods_to_test skip_destructive).
  rewrite (test_methods_loop_steps transport _ _ _ c Hb).
  destruct (steps_returns _
              {| supported := []; status_codes := []; auth_required := false;
                 auth_type_hint := []; allow_header := []; content_types := ∅ |}
              Hall) as [a Ha].
  rewrite Ha. exists a. done.
Qed.
End Report.

(** X18: when its requests can be built and no answer 401 or 403 carries a
    challenge that is not empty and yields no hint, [test_methods] returns a
    report; it lists under [status_codes] each method it tested that was
    answered, with the status of the answer, in the order of testing; and
    [auth_required] is set exactly when one of the answers has status 401
    or 403. *)
Theorem test_methods_reports_answers (transport : Transport) (base_url path : str)
    (skip_destructive : bool) (c : HttpClient) :
  let rs :=
    answers transport (length (issued c)) (rstrip base_url (cp "/") ++ path)
      (methods_to_test skip_destructive) in
  builds transport (rstrip base_url (cp "/") ++ path) = true ->
  Forall (fun r => challenge_ok r.2 = true) rs ->
  exists info,
    (test_methods transport base_url path skip_destructive c).1 = Some info
    /\ mi_status_codes info = answered rs
    /\ mi_auth_required info = existsb (fun r => asks_for_credentials r.2) rs.
Proof.
  cbn zeta. intros Hb Hall.
  destruct (test_methods_returns transport base_url path skip_destructive c Hb Hall)
    as (a & Ha & ->).
  eexists. split; [reflexivity|]. cbn [mi_status_codes mi_auth_required]. split.
  - rewrite (steps_status_codes _ _ _ Ha); [done| |intros k Hk; cbn in Hk; set_solver].
    rewrite answers_methods. apply NoDup_methods_to_test.
  - by rewrite (steps_auth_required _ _ _ Ha).
Qed.

(** A server whose every answer is 401 with a Digest challenge. *)
Lemma test_methods_reports_answers_witness :
  exists info,
    (test_methods (challenges "Digest realm=x") example_base (lit "/private") true
       (new_client 0)).1 = Some info
    /\ mi_status_codes info
       = [(lit "GET", 401%Z); (lit "HEAD", 401%Z); (lit "OPTIONS", 401%Z)]
    /\ mi_auth_required info = true.
Proof.
  assert (Hb : builds (challenges "Digest realm=x")
                 (rstrip example_base (cp "/") ++ lit "/private") = true)
    by reflexivity.
  assert (Hall : Forall (fun r => challenge_ok r.2 = true)
                   (answers (challenges "Digest realm=x") (length (issued (new_client 0)))
                      (rstrip example_base (cp "/") ++ lit "/private")
                      (methods_to_test true)))
    by (vm_compute; repeat constructor).
  exact (test_methods_reports_answers (challenges "Digest realm=x") example_base
           (lit "/private") true (new_client 0) Hb Hall).
Defined.

Lemma append_new_elem (supported : list str) (m x : str) :
  x ∈ append_new supported m <-> x ∈ supported \/ x = m.
Proof.
  unfold append_new. case_bool_decide; [|set_solver].
  split; [by left|]. by intros [?| ->].
Qed.

Lemma append_new_NoDup (supported : list str) (m : str) :
  NoDup supported -> NoDup (append_new supported m).
Proof.
  unfold append_new. case_bool_decide; [done|]. intros Hnd.
  apply NoDup_app. split; [done|]. split; [|apply NoDup_singleton]. set_solver.
Qed.

(** The loop over the items of the [Allow] header. *)
Lemma allow_loop (tokens : list str) (supported : list str) :
  let supported' :=
    fold_left
      (fun supported m =>
         let m := upper (strip m) in
         if truthy m then append_new supported m else supported)
      tokens supported in
  (NoDup supported -> NoDup supported')
  /\ (forall x,
        x ∈ supported'
        <-> x ∈ supported
            \/ x ∈ List.filter truthy (List.map (fun m => upper (strip m)) tokens)).
Proof.
  cbn zeta. revert supported. induction tokens as [|t tokens IH]; intros supported.
  { cbn. split; [done|]. set_solver. }
  cbn [fold_left List.map List.filter].
  destruct (IH (if truthy (upper (strip t)) then append_new supported (upper (strip t))
                else supported)) as [IH1 IH2].
  split.
  - intros Hnd. apply IH1. destruct (truthy _); [by apply append_new_NoDup|done].
  - intros x. rewrite IH2. destruct (truthy (upper (strip t))).
    + rewrite append_new_elem, elem_of_cons. tauto.
    + done.
Qed.

Lemma step_supported (a a' : MethodAcc) (r : str * HttpResponse) :
  step a r = Some a' ->
  (NoDup (supported a) -> NoDup (supported a'))
  /\ (forall x,
        x ∈ supported a'
        <-> x ∈ supported a \/ x ∈ allow_tokens r \/ (accepts r.2 = true /\ x = r.1)).
Proof.
  intros (_ & _ & ->)%step_returned. unfold allow_tokens, accepts.
  destruct (status_code r.2 =? 0)%Z eqn:E.
  { cbn. split; [done|]. intros x. rewrite elem_of_nil. intuition discriminate. }
  cbn [negb andb]. cbn zeta.
  destruct (allow_loop
              (split (remove_cp (dict_get_or (headers r.2) (lit "Allow") []) (cp " "))
                 (cp ","))
              (supported a)) as [L1 L2].
  destruct (bool_decide (r.1 = lit "OPTIONS") && dict_has (headers r.2) (lit "Allow"));
    destruct (bool_decide (status_code r.2 ∈ [404; 405; 501]%Z));
    cbn [negb]; (split; [intros Hnd; try apply append_new_NoDup; auto|]);
    intros x; rewrite ?append_new_elem, ?L2, ?elem_of_nil; intuition discriminate.
Qed.

Lemma steps_supported (rs : list (str * HttpResponse)) (a a' : MethodAcc) :
  steps rs a = Some a' ->
  (NoDup (supported a) -> NoDup (supported a'))
  /\ (forall x,
        x ∈ supported a'
        <-> x ∈ supported a
            \/ exists r, r ∈ rs /\ (x ∈ allow_tokens r \/ (accepts r.2 = true /\ x = r.1))).
Proof.
  revert a. induction rs as [|r rs IH]; intros a Hsteps; cbn [steps] in Hsteps.
  { injection Hsteps as <-. split; [done|]. intros x. split; [by left|].
    intros [?|(r & Hr & _)]; [done|]. by apply elem_of_nil in Hr. }
  destruct (step a r) as [a1|] eqn:E1; [|done].
  destruct (IH a1 Hsteps) as [IH1 IH2]. destruct (step_supported a a1 r E1) as [S1 S2].
  split; [auto|]. intros x. rewrite IH2, S2. split.
  - intros [[?|H]|(r' & Hr' & H)]; [by left|right..].
    + exists r. split; [by left|done].
    + exists r'. split; [by right|done].
  - intros [?|(r' & Hr' & H)]; [by left; left|].
    apply elem_of_cons in Hr' as [->|Hr']; [left; by right|].
    right. by exists r'.
Qed.

#[local] Instance str_le_total : Total str_le.
Proof. intros s t. apply QueryExtras.str_leb_total. Qed.

#[local] Instance str_le_trans : Transitive str_le.
Proof. intros s t u. apply QueryExtras.str_leb_trans. Qed.

(** X19: when its requests can be built and no answer 401 or 403 carries a
    challenge that is not empty and yields no hint, [test_methods] returns a
    report whose [methods] are in ascending order without repetition, and
    they are the tested methods that were answered with a status other than
    404, 405 and 501, and the names the answer to [OPTIONS] lists in its
    [Allow] header, in upper case. *)
Theorem test_methods_reports_methods (transport : Transport) (base_url path : str)
    (skip_destructive : bool) (c : HttpClient) :
  let rs :=
    answers transport (length (issued c)) (rstrip base_url (cp "/") ++ path)
      (methods_to_test skip_destructive) in
  builds transport (rstrip base_url (cp "/") ++ path) = true ->
  Forall (fun r => challenge_ok r.2 = true) rs ->
  exists info,
    (test_methods transport base_url path skip_destructive c).1 = Some info
    /\ StronglySorted str_le (mi_methods info)
    /\ NoDup (mi_methods info)
    /\ (forall m,
          m ∈ mi_methods info
          <-> exists r, r ∈ rs /\ (m ∈ allow_tokens r \/ (accepts r.2 = true /\ m = r.1))).
Proof.
  cbn zeta. intros Hb Hall.
  destruct (test_methods_returns transport base_url path skip_destructive c Hb Hall)
    as (a & Ha & ->).
  eexists. split; [reflexivity|]. cbn [mi_methods]. unfold sorted.
  destruct (steps_supported _ _ _ Ha) as [F1 F2].
  split; [apply StronglySorted_merge_sort; apply _|].
  split.
  - rewrite merge_sort_Permutation. apply F1. constructor.
  - intros m. rewrite merge_sort_Permutation, F2. cbn [supported].
    rewrite elem_of_nil. tauto.
Qed.

(** A server whose every answer is 401 with a Digest challenge: the three
    safe methods are reported, in ascending order. *)
Lemma test_methods_reports_methods_witness :
  exists info,
    (test_methods (challenges "Digest realm=x") example_base (lit "/private") true
       (new_client 0)).1 = Some info
    /\ StronglySorted str_le (mi_methods info)
    /\ (lit "HEAD" ∈ mi_methods info).
Proof.
  assert (Hb : builds (challenges "Digest realm=x")
                 (rstrip example_base (cp "/") ++ lit "/private") = true)
    by reflexivity.
  assert (Hall : Forall (fun r => challenge_ok r.2 = true)
                   (answers (challenges "Digest realm=x") (length (issued (new_client 0)))
                      (rstrip example_base (cp "/") ++ lit "/private")
                      (methods_to_test true)))
    by (vm_compute; repeat constructor).
  destruct (test_methods_reports_methods (challenges "Digest realm=x") example_base
              (lit "/private") true (new_client 0) Hb Hall)
    as (info & Hinfo & Hsorted & _ & Hmem).
  exists info. split; [exact Hinfo|]. split; [exact Hsorted|].
  apply Hmem.
  exists (lit "HEAD",
          receive (challenges "Digest realm=x") 1
            (rstrip example_base (cp "/") ++ lit "/private") (lit "HEAD")).
  split; [|right; split; reflexivity].
  apply list_elem_of_In. right. left. reflexivity.
Defined.

End MethodExtras.

(** ** Link following *)

Module FollowExtras.
Import Py Json Http Robots SchemaExtractor Database Discovery LinkShape FollowShape
  RequestShape.
#[local] Open Scope client_scope.

Lemma issues_bind_post {A B} (P : str * str -> Prop) (Q : A -> Prop) (m : M A)
    (k : A -> M B) :
  (forall c, match (m c).1 with Some a => Q a | None => True end) ->
  issues P m -> (forall a, Q a -> issues P (k a)) ->
  issues P (bind m k).
Proof.
  intros HQ Hm Hk c. unfold bind. destruct (Hm c) as (l1 & E1 & F1). specialize (HQ c).
  destruct (m c) as [[a|] c1]; [|by exists l1].
  destruct (Hk a HQ c1) as (l2 & E2 & F2).
  exists (l1 ++ l2). cbn [snd] in *. rewrite E2, E1, <- app_assoc.
  split; [done|]. by apply Forall_app.
Qed.

Lemma elem_of_fold_union {A} (g : A -> gset str) (l : list A) (acc : gset str) (x : str) :
  x ∈ fold_left (fun acc y => acc ∪ g y) l acc <-> x ∈ acc \/ exists y, y ∈ l /\ x ∈ g y.
Proof.
  revert acc. induction l as [|y l IH]; intros acc; cbn [fold_left].
  - split; [by left|]. intros [?|(y & Hy & _)]; [done|]. by apply elem_of_nil in Hy.
  - rewrite IH, elem_of_union. split.
    + intros [[?|?]|(y' & ? & ?)]; [by left|right..].
      * exists y. split; [by left|done].
      * exists y'. split; [by right|done].
    + intros [?|(y' & Hy' & ?)]; [by left; left|].
      apply elem_of_cons in Hy' as [->|?]; [left; by right|]. right. by exists y'.
Qed.

Section Links.
Variable json_loads : str -> option json.

Lemma links_of_body_elem (base_url : str) (known : gset str) (body path : str) :
  path ∈ links_of_body json_loads base_url known body
  <-> body <> [] /\ (path ∉ known)
      /\ exists data link,
           json_loads body = Some data
           /\ link ∈ extract_links_from_json data base_url
           /\ _normalize_link link base_url = Some path.
Proof.
  unfold links_of_body. destruct body as [|b body]; cbn [truthy negb].
  { rewrite elem_of_empty. tauto. }
  destruct (json_loads (b :: body)) as [data|].
  - rewrite elem_of_list_to_set, QueryExtras.elem_of_filter_list, list_elem_of_omap.
    rewrite andb_true_iff, bool_decide_eq_true. split.
    + intros [(link & Hin & Hn) [_ Hk]]. apply elem_of_elements in Hin.
      split; [done|]. split; [done|]. by exists data, link.
    + intros (_ & Hk & data' & link & [= <-] & Hin & Hn).
      split; [exists link; split; [by apply elem_of_elements|done]|]. split; [|done].
      apply LinkFacts._normalize_link_normal in Hn as [[t ->] _]. done.
  - rewrite elem_of_empty. split; [done|]. by intros (_ & _ & ? & ? & ? & _).
Qed.

Lemma collect_links_elem (db : Db) (service_id : nat) (base_url : str) (known : gset str)
    (path : str) :
  path ∈ collect_links json_loads db service_id base_url known
  <-> (path ∉ known) /\ linked json_loads db service_id base_url path.
Proof.
  unfold collect_links, linked.
  assert (Hinner : forall ep acc,
            path ∈ fold_left
                     (fun new_links resp_row =>
                        new_links ∪ links_of_body json_loads base_url known
                                      (rsp_body_sample resp_row))
                     (get_responses db (ep_id ep)) acc
            <-> path ∈ acc
                \/ exists row, row ∈ get_responses db (ep_id ep)
                     /\ path ∈ links_of_body json_loads base_url known
                                (rsp_body_sample row)).
  { intros ep acc.
    apply (elem_of_fold_union
             (fun row => links_of_body json_loads base_url known (rsp_body_sample row))). }
  assert (Houter : forall eps acc,
            path ∈ fold_left
                     (fun new_links ep =>
                        fold_left
                          (fun new_links resp_row =>
                             new_links ∪ links_of_body json_loads base_url known
                                           (rsp_body_sample resp_row))
                          (get_responses db (ep_id ep)) new_links)
                     eps acc
            <-> path ∈ acc
                \/ exists ep row, ep ∈ eps /\ row ∈ get_responses db (ep_id ep)
                     /\ path ∈ links_of_body json_loads base_url known
                                (rsp_body_sample row)).
  { induction eps as [|ep eps IH]; intros acc; cbn [fold_left].
    - split; [by left|]. intros [?|(ep & ? & Hep & _)]; [done|].
      by apply elem_of_nil in Hep.
    - rewrite IH, Hinner. split.
      + intros [[?|(row & ? & ?)]|(ep' & row & ? & ? & ?)]; [by left|right..].
        * exists ep, row. split; [by left|done].
        * exists ep', row. split; [by right|done].
      + intros [?|(ep' & row & Hep & ? & ?)]; [by left; left|].
        apply elem_of_cons in Hep as [->|?]; [left; right; by exists row|].
        right. by exists ep', row. }
  rewrite Houter, elem_of_empty. split.
  - intros [[]|(ep & row & Hep & Hrow & Hin)].
    apply links_of_body_elem in Hin as (Hb & Hk & data & link & ? & ? & ?).
    split; [done|]. by exists ep, row, data, link.
  - intros (Hk & ep & row & data & link & ? & ? & ? & ? & ? & ?). right.
    exists ep, row. split; [done|]. split; [done|].
    apply links_of_body_elem. split; [done|]. split; [done|]. by exists data, link.
Qed.

End Links.

Section Following.
Variable transport : Transport.
Variable can_fetch : str -> str -> str -> bool.

Lemma get_each_known (base_url : str) (robots_checker : option RobotsChecker)
    (paths : list str) (known : gset str) (round_results : list (str * HttpResponse))
    (c : HttpClient) :
  match (get_each transport can_fetch base_url robots_checker paths known
           round_results c).1 with
  | Some out => known ⊆ out.2
  | None => True
  end.
Proof.
  revert known round_results c. induction paths as [|path rest IH];
    intros known round_results c; cbn [get_each]; [by cbn|].
  destruct (denied _ _ _); [apply IH|].
  unfold bind, get, request.
  destruct (builds transport (base_url ++ path)); cbn [fst snd]; [|done].
  match goal with |- context [if found ?r then _ else _] => destruct (found r) end;
    [|apply IH].
  match goal with |- context [get_each _ _ _ _ _ ?k ?rr ?c'] =>
    specialize (IH k rr c')
  end.
  destruct (get_each _ _ _ _ _ _ _ _).1 as [out|]; [|done]. set_solver.
Qed.

Lemma get_each_issues (P : str * str -> Prop) (base_url : str)
    (robots_checker : option RobotsChecker) (paths : list str) (known : gset str)
    (round_results : list (str * HttpResponse)) :
  (forall path, path ∈ paths -> denied can_fetch robots_checker path = false ->
     P (lit "GET", base_url ++ path)) ->
  issues P (get_each transport can_fetch base_url robots_checker paths known
              round_results).
Proof.
  revert known round_results. induction paths as [|path rest IH];
    intros known round_results HP; cbn [get_each]; [apply ProbingExtras.issues_ret|].
  assert (HP' : forall p, p ∈ rest -> denied can_fetch robots_checker p = false ->
                  P (lit "GET", base_url ++ p)).
  { intros p Hp. apply HP. by right. }
  destruct (denied _ _ _) eqn:Hd; [by apply IH|].
  apply ProbingExtras.issues_bind.
  { apply ProbingExtras.issues_request, HP; [by left|done]. }
  intros resp. destruct (found resp); by apply IH.
Qed.

Section Rounds.
Variable json_loads : str -> option json.

Lemma discover_rounds_issues (rounds : nat) (base_url : str) (db : Db) (service_id : nat)
    (robots_checker : option RobotsChecker) (known_paths known : gset str)
    (all_results : list (str * HttpResponse)) :
  known_paths ⊆ known ->
  issues (follow can_fetch json_loads base_url robots_checker db service_id known_paths)
    (discover_rounds transport can_fetch json_loads rounds base_url db service_id
       robots_checker known all_results).
Proof.
  revert known all_results. induction rounds as [|rounds IH];
    intros known all_results Hsub; cbn [discover_rounds];
    [apply ProbingExtras.issues_ret|].
  destruct (decide (_ = ∅)); [apply ProbingExtras.issues_ret|].
  apply (issues_bind_post _ (fun out => known ⊆ out.2)).
  - intros c. apply get_each_known.
  - apply get_each_issues. intros path Hin Hd.
    unfold sorted in Hin. rewrite merge_sort_Permutation in Hin.
    apply elem_of_elements, collect_links_elem in Hin as [Hk Hl].
    split; [done|]. exists path. split; [done|]. split; [done|].
    split; [|split; [set_solver|done]].
    destruct Hl as (? & ? & ? & link & _ & _ & _ & _ & _ & Hn).
    by eapply LinkFacts._normalize_link_normal.
  - intros [round_results known'] Hk. cbn [snd] in Hk.
    destruct round_results; [apply ProbingExtras.issues_ret|].
    apply IH. set_solver.
Qed.

(** X20: [discover_from_responses] makes [GET] requests only, each for the
    base URL without trailing slashes followed by a path that
    [_normalize_link] made of a link in the stored sample of a response of
    the service; the path begins with a slash and has no query and no
    fragment, it was not in [known_paths], and the robots file allows it. *)
Theorem discover_from_responses_follows_links (base_url : str) (db : Db)
    (service_id : nat) (robots_checker : option RobotsChecker) (known_paths : gset str)
    (max_depth : nat) :
  issues
    (follow can_fetch json_loads (rstrip base_url (cp "/")) robots_checker db
       service_id known_paths)
    (discover_from_responses transport can_fetch json_loads base_url db service_id
       robots_checker known_paths max_depth).
Proof.
  apply ProbingExtras.issues_bind; [by apply discover_rounds_issues|].
  intros [? ?]. apply ProbingExtras.issues_ret.
Qed.

End Rounds.
End Following.
End FollowExtras.

(** ** Runs that are cut short *)

Module HaltExtras.
Import Py Json Http Robots Database Discovery Orchestrator.
Import StoreShape ScannerShape Scenario RunShape HaltShape.

Lemma same_findings_refl (d : Db) : same_findings d d.
Proof. done. Qed.

Lemma same_findings_trans (d1 d2 d3 : Db) :
  same_findings d1 d2 -> same_findings d2 d3 -> same_findings d1 d3.
Proof. intros (E1 & R1 & P1) (E2 & R2 & P2). repeat split; congruence. Qed.

Lemma same_findings_upsert_service (now : str) (d : Db) (name base_url description
    server_header robots_txt : str) (metadata : list (str * json)) :
  same_findings d
    (upsert_service now d name base_url description server_header robots_txt metadata).2.
Proof. unfold upsert_service. by destruct (List.find _ _). Qed.

Lemma same_findings_update_probe_run (now : str) (d : Db) (run : nat)
    (status : option str) (total_requests endpoints_found : option Z)
    (progress : option json) :
  same_findings d
    (update_probe_run now d run status total_requests endpoints_found progress).
Proof.
  unfold update_probe_run.
  by destruct status, total_requests, endpoints_found, progress.
Qed.

Section Halting.
Variable stop_file_exists : nat -> bool.

Lemma _check_limits_halted (w : World) (max_requests : Z) :
  halted stop_file_exists max_requests (client w) ->
  exists w',
    _check_limits stop_file_exists w max_requests = (true, w')
    /\ client w' = client w /\ db w' = db w.
Proof.
  intros H. unfold _check_limits.
  destruct (max_requests <=? request_count (client w))%Z eqn:E; [by exists w|].
  destruct H as [H|H]; [apply Z.leb_gt in E; lia|]. rewrite H. by eexists.
Qed.

Lemma enabled_halted (config : Config.Config) (name : string) (w : World) :
  halted stop_file_exists (Config.max_requests config) (client w) ->
  exists w',
    enabled stop_file_exists config name w = (false, w')
    /\ client w' = client w /\ db w' = db w.
Proof.
  intros H. unfold enabled. destruct (bool_decide _); [|by exists w].
  destruct (_check_limits_halted w (max_requests config) H) as (w' & -> & ? & ?).
  by exists w'.
Qed.
End Halting.

Section AnyEnvironment.
Variable transport : Transport.
Variable can_fetch : str -> str -> str -> bool.
Variable parser_crawl_delay : str -> str -> option Z.
Variable json_loads : str -> option json.
Variable re_findall : nat -> str -> list str.
Variable read_lines : str -> option (list str).
Variable fetch_robots : str -> str -> option str.
Variable stop_file_exists : nat -> bool.
Variable utcnow : str.
Variable hostname : str -> option (option str).
Variable extract_endpoints_from_spec : json -> option (list SpecEndpoint).

(** When every look at the limits says stop, the phases go straight to
    the closing steps. *)
Lemma phases_halted (config : Config.Config) (service_name base_url : str)
    (service_id : nat) (robots : option RobotsChecker) (run : nat)
    (known_paths : gset str) (w : World) :
  halted stop_file_exists (Config.max_requests config) (client w) ->
  exists w',
    client w' = client w /\ db w' = db w
    /\ phases transport can_fetch json_loads re_findall read_lines stop_file_exists utcnow
         extract_endpoints_from_spec config service_name base_url service_id robots run
         known_paths w
       = finish utcnow config service_name base_url service_id run w'.
Proof.
  intros H0. unfold phases, phase_openapi, phase_wordlist, phase_pattern, phase_methods,
    phase_schema, phase_response_driven.
  destruct (enabled_halted stop_file_exists config "openapi" w H0) as (w1 & -> & C1 & D1).
  rewrite <- C1 in H0. cbn [and_then].
  destruct (enabled_halted stop_file_exists config "wordlist" w1 H0)
    as (w2 & -> & C2 & D2).
  rewrite <- C2 in H0. cbn [and_then].
  destruct (enabled_halted stop_file_exists config "pattern" w2 H0)
    as (w3 & -> & C3 & D3).
  rewrite <- C3 in H0. cbn [and_then].
  destruct (_check_limits_halted stop_file_exists w3 (max_requests config) H0)
    as (w4 & -> & C4 & D4).
  rewrite <- C4 in H0. cbn [and_then].
  destruct (_check_limits_halted stop_file_exists w4 (max_requests config) H0)
    as (w5 & -> & C5 & D5).
  rewrite <- C5 in H0. cbn [and_then].
  destruct (enabled_halted stop_file_exists config "response_driven" w5 H0)
    as (w6 & -> & C6 & D6).
  cbn [and_then].
  exists w6. split; [congruence|]. split; [congruence|done].
Qed.

(** What [probe] does up to the base probe: the world before the request
    for the base URL has the same client but for its delay, and the same
    findings. *)
Lemma load_robots_findings (config : Config.Config) (service_name base_url : str)
    (w : World) :
  let w' :=
    (load_robots parser_crawl_delay fetch_robots utcnow config service_name base_url w).2 in
  issued (client w') = issued (client w)
  /\ request_count (client w') = request_count (client w)
  /\ same_findings (db w) (db w').
Proof.
  cbn zeta. unfold load_robots.
  destruct (Config.respect_robots_txt config); [|done].
  destruct (fetch_robots _ _) as [raw_text|]; [|done].
  pose proof (same_findings_upsert_service utcnow (db w) service_name base_url [] []
                raw_text []) as H.
  destruct (upsert_service _ _ _ _ _ _ _ _) as [sid d1]. cbn [snd] in H.
  destruct (crawl_delay _ _) as [delay|]; [|done].
  by destruct (negb _).
Qed.

(** X21: a run that finds its budget used up after the base probe, or the
    [STOP] file present at every look, stores no endpoint, response or
    parameter.  When [urlparse] accepts the URL and the request for the base
    URL can be built, the run makes that request and no other; it reports
    [completed] with the request count, unless the base URL did not answer,
    and it does not raise.  When [urlparse] raises, [probe] raises with
    nothing changed; when the request for the base URL cannot be built,
    [probe] raises without having made a request. *)
Theorem probe_halted_makes_one_request (config : Config.Config) (u : str) (w : World) :
  let base_url := rstrip u (cp "/") in
  let out :=
    probe transport can_fetch parser_crawl_delay json_loads re_findall read_lines
      fetch_robots stop_file_exists utcnow hostname extract_endpoints_from_spec
      config u w in
  (Config.max_requests config <= request_count (client w) + 1)%Z
  \/ (forall n, stop_file_exists n = true) ->
  same_findings (db w) (db out.2)
  /\ match hostname base_url with
     | None => out = (Raised, w)
     | Some _ =>
         if builds transport base_url
         then
           issued (client out.2) = issued (client w) ++ [(lit "GET", base_url)]
           /\ match out.1 with
              | Summary _ _ _ total_requests status =>
                  status = lit "completed"
                  /\ total_requests = (request_count (client w) + 1)%Z
              | ErrorResult _ => True
              | Raised => False
              end
         else
           out.1 = Raised /\ issued (client out.2) = issued (client w)
     end.
Proof.
  cbn zeta. intros H. unfold probe, _derive_service_name.
  set (base_url := rstrip u (cp "/")).
  destruct (hostname base_url) as [parsed|]; [|done].
  set (service_name := if (2 <=? _)%nat then _ else _).
  unfold start.
  pose proof (same_findings_upsert_service utcnow (db w) service_name base_url [] [] [] [])
    as F0.
  destruct (upsert_service _ _ _ _ _ _ _ _) as [service_id d0]. cbn [snd] in F0.
  unfold create_probe_run. cbn [fst snd].
  set (d1 := with_probe_runs d0 _ _).
  assert (F1 : same_findings (db w) d1) by exact F0.
  pose proof (load_robots_findings config service_name base_url (with_db w d1))
    as (I1 & N1 & F2). cbn zeta in I1, N1, F2.
  destruct (load_robots _ _ _ _ _ _ _) as [robots w1]. cbn [snd] in I1, N1, F2.
  cbn [with_db client db] in I1, N1, F2.
  pose proof (same_findings_trans _ _ _ F1 F2) as F12.
  unfold run, get, request.
  destruct (builds transport base_url); cbn [and_then fst snd with_client client db];
    [|done].
  set (base_resp := receive transport _ _ _).
  set (c2 := {| delay_ms := _; _request_count := _; issued := _ |}).
  set (w2 := with_client w1 c2).
  assert (I2 : issued c2 = issued (client w) ++ [(lit "GET", base_url)]).
  { unfold c2. cbn. by rewrite I1. }
  assert (N2 : request_count c2 = (request_count (client w) + 1)%Z).
  { unfold c2, request_count in *. cbn. by rewrite N1. }
  destruct (0 <? status_code base_resp)%Z.
  - set (w3 := if truthy _ then _ else _).
    assert (C3 : client w3 = c2) by (unfold w3; by destruct (truthy _)).
    assert (F3 : same_findings (db w) (db w3)).
    { unfold w3. destruct (truthy _); [|exact F12]. cbn [db with_db w2].
      eapply same_findings_trans; [exact F12|apply same_findings_upsert_service]. }
    assert (H3 : halted stop_file_exists (Config.max_requests config) (client w3)).
    { rewrite C3. destruct H as [H|H]; [left; lia|by right]. }
    destruct (phases_halted config service_name base_url service_id robots
                (S (seq_probe_runs d0)) (get_endpoint_paths d1 service_id) w3 H3)
      as (w' & C' & D' & ->).
    unfold finish. cbn [fst snd client db with_db]. rewrite C', C3, D'.
    split; [|done].
    eapply same_findings_trans; [exact F3|].
    eapply same_findings_trans; [|apply same_findings_update_probe_run]. done.
  - cbn [fst snd client db with_db w2]. split; [|done].
    eapply same_findings_trans; [exact F12|apply same_findings_update_probe_run].
Qed.

(** X22: when [urlparse] accepts the URL, the request for the base URL can
    be built and the base URL does not answer, [probe] returns the error of
    the request, has made that one request, and has stored no endpoint,
    response or parameter. *)
Theorem probe_base_failure (config : Config.Config) (u : str) (w : World) :
  let base_url := rstrip u (cp "/") in
  let out :=
    probe transport can_fetch parser_crawl_delay json_loads re_findall read_lines
      fetch_robots stop_file_exists utcnow hostname extract_endpoints_from_spec
      config u w in
  let base_resp :=
    receive transport (length (issued (client w))) base_url (lit "GET") in
  is_Some (hostname base_url) ->
  builds transport base_url = true ->
  (status_code base_resp <= 0)%Z ->
  out.1 = ErrorResult (error base_resp)
  /\ issued (client out.2) = issued (client w) ++ [(lit "GET", base_url)]
  /\ same_findings (db w) (db out.2).
Proof.
  cbn zeta. intros [parsed Hparsed] Hb H. unfold probe, _derive_service_name.
  set (base_url := rstrip u (cp "/")) in *. rewrite Hparsed.
  set (service_name := if (2 <=? _)%nat then _ else _).
  unfold start.
  pose proof (same_findings_upsert_service utcnow (db w) service_name base_url [] [] [] [])
    as F0.
  destruct (upsert_service _ _ _ _ _ _ _ _) as [service_id d0]. cbn [snd] in F0.
  unfold create_probe_run. cbn [fst snd].
  set (d1 := with_probe_runs d0 _ _).
  assert (F1 : same_findings (db w) d1) by exact F0.
  pose proof (load_robots_findings config service_name base_url (with_db w d1))
    as (I1 & N1 & F2). cbn zeta in I1, N1, F2.
  destruct (load_robots _ _ _ _ _ _ _) as [robots w1]. cbn [snd] in I1, N1, F2.
  cbn [with_db client db] in I1, N1, F2.
  pose proof (same_findings_trans _ _ _ F1 F2) as F12.
  unfold run, get, request. rewrite Hb.
  cbn [and_then fst snd with_client client db]. rewrite I1.
  destruct (0 <? status_code _)%Z eqn:E; [apply Z.ltb_lt in E; lia|].
  cbn [fst snd client db with_db issued]. split; [done|]. split; [done|].
  eapply same_findings_trans; [exact F12|apply same_findings_update_probe_run].
Qed.

End AnyEnvironment.

(** A second run on the store a first run has left, with a budget that the
    first run has used up: it makes the request for the base URL only. *)
Lemma probe_halted_makes_one_request_witness :
  let cfg := config 3 ["wordlist"; "pattern"; "response_driven"]%string in
  let w := (run_probe answers_all (fun _ => false) cfg).2 in
  ((Config.max_requests cfg <= request_count (client w) + 1)%Z
   \/ (forall n : nat, (fun _ : nat => false) n = true))
  /\ same_findings (db w) (db (probe_again answers_all (fun _ => false) cfg w).2)
  /\ issued (client (probe_again answers_all (fun _ => false) cfg w).2)
     = issued (client w) ++ [(lit "GET", example_base)].
Proof.
  cbn zeta.
  set (cfg := config 3 ["wordlist"; "pattern"; "response_driven"]%string).
  set (w := (run_probe answers_all (fun _ => false) cfg).2).
  assert (H : (Config.max_requests cfg <= request_count (client w) + 1)%Z
              \/ (forall n : nat, (fun _ : nat => false) n = true)).
  { left. by vm_compute. }
  split; [exact H|].
  destruct (probe_halted_makes_one_request answers_all (fun _ _ _ => true)
              (fun _ _ => None) (fun _ => None) (fun _ _ => []) wordlist_files
              (fun _ _ => None) (fun _ => false) example_time
              (fun _ => Some (Some (lit "api.example.com"))) (fun _ => Some [])
              cfg (lit "http://api.example.com/") w H) as [Hfind [Hissued _]].
  split; [exact Hfind|exact Hissued].
Defined.

(** A server that cannot be reached. *)
Lemma probe_base_failure_witness :
  let cfg := config 500 ["openapi"; "wordlist"]%string in
  let w := new_world cfg empty_db in
  is_Some ((fun _ : str => Some (Some (lit "api.example.com")))
             (rstrip (lit "http://api.example.com/") (cp "/")))
  /\ builds unreachable (rstrip (lit "http://api.example.com/") (cp "/")) = true
  /\ (status_code
        (receive unreachable (length (issued (client w)))
           (rstrip (lit "http://api.example.com/") (cp "/")) (lit "GET")) <= 0)%Z
  /\ (run_probe unreachable (fun _ => false) cfg).1
     = ErrorResult (lit "<urlopen error [Errno 111] Connection refused>")
  /\ issued (client (run_probe unreachable (fun _ => false) cfg).2)
     = [(lit "GET", example_base)].
Proof.
  cbn zeta.
  set (cfg := config 500 ["openapi"; "wordlist"]%string).
  assert (Hp : is_Some ((fun _ : str => Some (Some (lit "api.example.com")))
                          (rstrip (lit "http://api.example.com/") (cp "/"))))
    by (by eexists).
  assert (Hb : builds unreachable (rstrip (lit "http://api.example.com/") (cp "/"))
               = true) by reflexivity.
  assert (H : (status_code
                 (receive unreachable (length (issued (client (new_world cfg empty_db))))
                    (rstrip (lit "http://api.example.com/") (cp "/")) (lit "GET")) <= 0)%Z).
  { cbn. lia. }
  split; [exact Hp|]. split; [exact Hb|]. split; [exact H|].
  destruct (probe_base_failure unreachable (fun _ _ _ => true)
              (fun _ _ => None) (fun _ => None) (fun _ _ => []) wordlist_files
              (fun _ _ => None) (fun _ => false) example_time
              (fun _ => Some (Some (lit "api.example.com"))) (fun _ => Some [])
              cfg (lit "http://api.example.com/") (new_world cfg empty_db) Hp Hb H)
    as (Hout & Hissued & _).
  split; [exact Hout|exact Hissued].
Defined.

(** A second run on the store a first run has left: it creates the run
    with the next id and records it as [completed]. *)
Lemma probe_outcome_witness :
  let cfg := config 500 ["wordlist"]%string in
  let w := (run_probe only_root (fun _ => false) cfg).2 in
  let out := probe_again only_root (fun _ => false) cfg w in
  runs_ok (db w)
  /\ probe_runs (db w) <> []
  /\ counted (client w) (client out.2)
  /\ exists r,
       probe_run (db out.2) (S (seq_probe_runs (db w))) = Some r
       /\ run_status r = lit "completed"
       /\ run_finished_at r = Some example_time
       /\ run_total_requests r = request_count (client out.2).
Proof.
  cbn zeta.
  set (cfg := config 500 ["wordlist"]%string).
  set (w := (run_probe only_root (fun _ => false) cfg).2).
  assert (Hok : runs_ok (db w)) by (vm_compute; repeat constructor).
  split; [exact Hok|]. split; [by vm_compute|].
  destruct (OrchestratorFacts.probe_outcome only_root (fun _ _ _ => true)
              (fun _ _ => None) (fun _ => None) (fun _ _ => []) wordlist_files
              (fun _ _ => None) (fun _ => false) example_time
              (fun _ => Some (Some (lit "api.example.com"))) (fun _ => Some [])
              cfg (lit "http://api.example.com/") w Hok) as [Hcounted (r & Hr & Hcase)].
  split; [exact Hcounted|]. exists r. split; [exact Hr|].
  assert (E : exists service base_url endpoints_found total_requests status,
            (probe_again only_root (fun _ => false) cfg w).1
            = Summary service base_url endpoints_found total_requests status)
    by (vm_compute; by do 5 eexists).
  destruct E as (service & base_url & endpoints_found & total_requests & status & E).
  unfold probe_again in E. rewrite E in Hcase.
  destruct Hcase as (_ & -> & Hstatus & Hfinished & Htotal).
  split; [exact Hstatus|]. split; [exact Hfinished|exact Htotal].
Defined.

End HaltExtras.

(** ** Names, wordlists and patterns *)

Module NamingExtras.
Import Py Json Http Robots Database Discovery Orchestrator.

Lemma split_nonempty (s : str) (c : codepoint) : split s c <> [].
Proof. destruct s as [|d s]; cbn; [done|]. destruct (N.eqb d c); [done|]. by destruct (split s c). Qed.

Lemma split_app_sep (s t : str) (c : codepoint) :
  split (s ++ c :: t) c = split s c ++ split t c.
Proof.
  induction s as [|d s IH]; cbn.
  - by rewrite N.eqb_refl.
  - destruct (N.eqb d c); [by rewrite IH|]. rewrite IH.
    pose proof (split_nonempty s c). by destruct (split s c).
Qed.

Lemma split_no_sep (s : str) (c : codepoint) : c ∉ s -> split s c = [s].
Proof.
  induction s as [|d s IH]; [done|]. intros Hc.
  apply not_elem_of_cons in Hc as [Hne Hc]. cbn.
  destruct (N.eqb_spec d c); [congruence|]. by rewrite IH.
Qed.

(** X24: for a host name of two or more labels [_derive_service_name]
    returns the label before the last one. *)
Theorem _derive_service_name_second_level (hostname : str -> option (option str))
    (u sub name tld : str) :
  hostname u = Some (Some (sub ++ name ++ cp "." :: tld)) ->
  sub = [] \/ (exists p, sub = p ++ [cp "."]) ->
  cp "." ∉ name -> cp "." ∉ tld ->
  _derive_service_name hostname u = Some name.
Proof.
  intros Hh Hsub Hn Ht. unfold _derive_service_name. rewrite Hh.
  assert (Hparts : exists front,
            split (sub ++ name ++ cp "." :: tld) (cp ".") = front ++ [name; tld]).
  { destruct Hsub as [->|[p ->]].
    - exists []. cbn [app].
      by rewrite split_app_sep, (split_no_sep name), (split_no_sep tld).
    - exists (split p (cp ".")). rewrite <- app_assoc. cbn [app].
      by rewrite !split_app_sep, (split_no_sep name), (split_no_sep tld). }
  destruct Hparts as [front Hparts].
  assert (Htruthy : truthy (sub ++ name ++ cp "." :: tld) = true).
  { destruct sub; [destruct name|]; reflexivity. }
  cbv beta iota zeta. rewrite Htruthy, Hparts, length_app, rev_app_distr.
  cbn [length]. replace (length front + 2) with (S (S (length front))) by lia.
  reflexivity.
Qed.

(** The host of the example service. *)
Lemma _derive_service_name_second_level_witness :
  (fun _ : str => Some (Some (lit "api.example.com"))) (lit "http://api.example.com")
  = Some (Some (lit "api." ++ lit "example" ++ cp "." :: lit "com"))
  /\ (lit "api." = [] \/ (exists p, lit "api." = p ++ [cp "."]))
  /\ (cp "." ∉ lit "example") /\ (cp "." ∉ lit "com")
  /\ _derive_service_name (fun _ => Some (Some (lit "api.example.com")))
       (lit "http://api.example.com") = Some (lit "example").
Proof.
  assert (H1 : (fun _ : str => Some (Some (lit "api.example.com")))
                 (lit "http://api.example.com")
               = Some (Some (lit "api." ++ lit "example" ++ cp "." :: lit "com")))
    by reflexivity.
  assert (H2 : lit "api." = [] \/ (exists p, lit "api." = p ++ [cp "."])).
  { right. by exists (lit "api"). }
  assert (H3 : cp "." ∉ lit "example").
  { apply (bool_decide_unpack _). by vm_compute. }
  assert (H4 : cp "." ∉ lit "com").
  { apply (bool_decide_unpack _). by vm_compute. }
  do 4 (split; [done|]).
  exact (_derive_service_name_second_level _ _ _ _ _ H1 H2 H3 H4).
Defined.

Lemma first_seen_spec (seen : gset str) (paths : list str) :
  NoDup (first_seen seen paths)
  /\ (forall x, x ∈ first_seen seen paths <-> x ∈ paths /\ x ∉ seen).
Proof.
  revert seen. induction paths as [|path rest IH]; intros seen; cbn [first_seen].
  { split; [constructor|]. intros x. rewrite !elem_of_nil. tauto. }
  destruct (decide (path ∈ seen)) as [Hin|Hin].
  - destruct (IH seen) as [IH1 IH2]. split; [done|].
    intros x. rewrite IH2, elem_of_cons. split.
    + intros [? ?]. split; [by right|done].
    + intros [[->|?] ?]; [done|by split].
  - destruct (IH (seen ∪ {[path]})) as [IH1 IH2]. split.
    + constructor; [|done]. rewrite IH2. set_solver.
    + intros x. rewrite elem_of_cons, IH2.
      destruct (decide (x = path)) as [->|Hne]; [|set_solver].
      split; [by intros _; split; [left|]|by left].
Qed.

(** X25: [load_all_wordlists] returns, without repetition, the lines of the
    named files that exist, stripped of surrounding white space, but for
    the empty ones and those that begin with [#]. *)
Theorem load_all_wordlists_entries (read_lines : str -> option (list str))
    (wordlist_names : list str) :
  NoDup (load_all_wordlists read_lines wordlist_names)
  /\ (forall path,
        path ∈ load_all_wordlists read_lines wordlist_names
        <-> path <> [] /\ startswith path (lit "#") = false
            /\ exists name lines line,
                 name ∈ wordlist_names /\ read_lines name = Some lines
                 /\ line ∈ lines /\ path = strip line).
Proof.
  unfold load_all_wordlists.
  destruct (first_seen_spec ∅ (List.flat_map (load_wordlist read_lines) wordlist_names))
    as [H1 H2].
  split; [done|]. intros path. rewrite H2.
  rewrite list_elem_of_In, List.in_flat_map. split.
  - intros [(name & Hname & Hin) _]. unfold load_wordlist in Hin.
    destruct (read_lines name) as [lines|] eqn:E; [|done].
    apply List.filter_In in Hin as [Hin Hp].
    apply List.in_map_iff in Hin as (line & <- & Hline).
    apply andb_true_iff in Hp as [Hp1 Hp2]. apply negb_true_iff in Hp2.
    split; [by destruct (strip line)|]. split; [done|].
    exists name, lines, line. by rewrite !list_elem_of_In.
  - intros (Hne & Hc & name & lines & line & Hname & E & Hline & ->).
    split; [|set_solver]. exists name. split; [by apply list_elem_of_In|].
    unfold load_wordlist. rewrite E. apply List.filter_In. split.
    + apply List.in_map. by apply list_elem_of_In.
    + rewrite Hc. by destruct (strip line).
Qed.

#[local] Instance sorted_total : Total str_le.
Proof. intros s t. apply QueryExtras.str_leb_total. Qed.

#[local] Instance sorted_trans : Transitive str_le.
Proof. intros s t u. apply QueryExtras.str_leb_trans. Qed.

(** X26: [generate_patterns] returns, in ascending order and without
    repetition, the paths of its five templates for the configured
    resources and versions. *)
Theorem generate_patterns_templates (config : Config.Config) :
  let versions := Config.pattern_versions config in
  let resources := Config.pattern_resources config in
  StronglySorted str_le (generate_patterns config)
  /\ NoDup (generate_patterns config)
  /\ (forall path,
        path ∈ generate_patterns config
        <-> exists res, res ∈ resources
              /\ (path = lit "/" ++ res
                  \/ path = lit "/" ++ res ++ lit "/1"
                  \/ path = lit "/api/" ++ res
                  \/ exists v, v ∈ versions
                       /\ (path = lit "/api/v" ++ v ++ lit "/" ++ res
                           \/ path = lit "/v" ++ v ++ lit "/" ++ res))).
Proof.
  cbn zeta. unfold generate_patterns, sorted.
  split; [apply StronglySorted_merge_sort; apply _|].
  split; [rewrite merge_sort_Permutation; apply NoDup_elements|].
  intros path. rewrite merge_sort_Permutation, elem_of_elements.
  assert (Hper : forall prefix : str,
            path ∈ List.flat_map
                     (fun v => List.map (fun res => prefix ++ v ++ lit "/" ++ res)
                                 (Config.pattern_resources config))
                     (Config.pattern_versions config)
            <-> exists res v, res ∈ Config.pattern_resources config
                  /\ v ∈ Config.pattern_versions config
                  /\ path = prefix ++ v ++ lit "/" ++ res).
  { intros prefix. rewrite list_elem_of_In, List.in_flat_map. split.
    - intros (v & Hv & Hin). apply List.in_map_iff in Hin as (res & <- & Hres).
      exists res, v. by rewrite !list_elem_of_In.
    - intros (res & v & Hres & Hv & ->). exists v. split; [by apply list_elem_of_In|].
      apply List.in_map_iff. exists res. split; [done|by apply list_elem_of_In]. }
  assert (Hmap : forall f : str -> str,
            path ∈ List.map f (Config.pattern_resources config)
            <-> exists res, res ∈ Config.pattern_resources config /\ path = f res).
  { intros f. rewrite list_elem_of_In, List.in_map_iff.
    split; intros (res & H1 & H2); exists res.
    - by rewrite list_elem_of_In.
    - split; [done|]. by apply list_elem_of_In. }
  rewrite !elem_of_union, !elem_of_list_to_set, !Hper, !Hmap. split.
  - intros [[[[(res & v & ? & ? & ?)|(res & v & ? & ? & ?)]|(res & ? & ?)]
             |(res & ? & ?)]|(res & ? & ?)]; exists res; (split; [done|]); eauto 10.
  - intros (res & Hres & [?|[?|[?|(v & ? & [?|?])]]]); eauto 10.
Qed.

End NamingExtras.

(** ** Storing the results of a strategy *)

Module IngestExtras.
Import Py Json Http Robots SchemaExtractor Database Discovery Orchestrator StoreShape.

Lemma elem_of_get_endpoint_paths (d : Db) (service_id : nat) (path : str) :
  path ∈ get_endpoint_paths d service_id
  <-> (service_id, path) ∈ List.map (fun r => (ep_service_id r, ep_path r)) (endpoints d).
Proof.
  unfold get_endpoint_paths.
  rewrite elem_of_list_to_set, !list_elem_of_In, !List.in_map_iff. split.
  - intros (r & <- & Hr). apply List.filter_In in Hr as [Hr Hs].
    apply bool_decide_eq_true in Hs. exists r. by rewrite Hs.
  - intros (r & [= <- <-] & Hr). exists r. split; [done|]. apply List.filter_In.
    split; [done|by apply bool_decide_eq_true].
Qed.

Lemma upsert_endpoint_keys (d : Db) (service_id : nat) (path : str)
    (methods : list str) (status_codes : list Z) (auth_required : bool)
    (auth_type_hint : str) (content_types : list str) (discovered_by : str) :
  let keys (d : Db) := List.map (fun r => (ep_service_id r, ep_path r)) (endpoints d) in
  let d' :=
    (upsert_endpoint d service_id path methods status_codes auth_required
       auth_type_hint content_types discovered_by).2 in
  (keys d' = keys d /\ (service_id, path) ∈ keys d
   \/ keys d' = keys d ++ [(service_id, path)])
  /\ responses d' = responses d.
Proof.
  cbn zeta. unfold upsert_endpoint.
  destruct (List.find (same_endpoint service_id path) (endpoints d)) as [old|] eqn:E;
    cbn [snd endpoints responses with_endpoints]; (split; [|done]).
  - left. apply List.find_some in E as [Hold Hkey].
    apply DatabaseFacts.same_endpoint_true in Hkey as [Hs Hp]. split.
    + unfold update_where. rewrite List.map_map. apply List.map_ext.
      intros r. by destruct (bool_decide _).
    + apply list_elem_of_In, List.in_map_iff. exists old. by rewrite Hs, Hp.
  - right. by rewrite List.map_app.
Qed.

Lemma upsert_endpoint_paths (d : Db) (service_id : nat) (path : str)
    (methods : list str) (status_codes : list Z) (auth_required : bool)
    (auth_type_hint : str) (content_types : list str) (discovered_by : str)
    (s : nat) (p : str) :
  let d' :=
    (upsert_endpoint d service_id path methods status_codes auth_required
       auth_type_hint content_types discovered_by).2 in
  (p ∈ get_endpoint_paths d' s
   <-> p ∈ get_endpoint_paths d s \/ (s = service_id /\ p = path))
  /\ responses d' = responses d.
Proof.
  cbn zeta. rewrite !elem_of_get_endpoint_paths.
  destruct (upsert_endpoint_keys d service_id path methods status_codes auth_required
              auth_type_hint content_types discovered_by) as [[[-> Hin]| ->] Hr];
    (split; [|done]).
  - split; [by left|]. intros [?|[-> ->]]; done.
  - rewrite elem_of_app, list_elem_of_singleton. split.
    + intros [?|[= -> ->]]; [by left|by right].
    + intros [?|[-> ->]]; [by left|by right].
Qed.

Section Ingest.
Variable json_loads : str -> option json.

(** One result: the endpoint is written, and its response when it has a
    body and a status from 200 to 399. *)
Lemma _process_results_one (d : Db) (service_id : nat) (path : str)
    (resp : HttpResponse) (discovered_by : str) (s : nat) (p : str) :
  let d' := _process_results json_loads d service_id [(path, resp)] discovered_by in
  (p ∈ get_endpoint_paths d' s
   <-> p ∈ get_endpoint_paths d s \/ (s = service_id /\ p = path))
  /\ length (responses d')
     = length (responses d) + (if truthy (body resp) && ok resp then 1 else 0).
Proof.
  cbn zeta. unfold _process_results. cbn [fold_left].
  match goal with
  | |- context [upsert_endpoint d service_id path ?m ?sc ?a ?h ?ct discovered_by] =>
      pose proof (upsert_endpoint_paths d service_id path m sc a h ct discovered_by s p)
        as [H1 H2];
      destruct (upsert_endpoint d service_id path m sc a h ct discovered_by)
        as [ep_id d1]
  end.
  cbn [snd] in H1, H2.
  destruct (truthy (body resp) && ok resp).
  - split.
    + rewrite <- H1. rewrite !elem_of_get_endpoint_paths. done.
    + unfold add_response. cbn [responses]. rewrite length_app, H2. done.
  - split; [done|]. rewrite H2. lia.
Qed.

(** X27: after [_process_results] the paths of the results are known paths
    of the service, besides those that were known; the known paths of other
    services are as before; and the [responses] table has one more row for
    each result with a body and a status from 200 to 399. *)
Theorem _process_results_stores_results (d : Db) (service_id : nat)
    (results : list (str * HttpResponse)) (discovered_by : str) :
  let d' := _process_results json_loads d service_id results discovered_by in
  (forall s p,
      p ∈ get_endpoint_paths d' s
      <-> p ∈ get_endpoint_paths d s \/ (s = service_id /\ p ∈ results.*1))
  /\ length (responses d')
     = length (responses d)
       + length (List.filter (fun r => truthy (body r.2) && ok r.2) results).
Proof.
  cbn zeta. revert d. induction results as [|[path resp] results IH]; intros d.
  { cbn. split; [|lia]. intros s p. rewrite elem_of_nil. tauto. }
  change (_process_results json_loads d service_id ((path, resp) :: results) discovered_by)
    with (_process_results json_loads
            (_process_results json_loads d service_id [(path, resp)] discovered_by)
            service_id results discovered_by).
  destruct (IH (_process_results json_loads d service_id [(path, resp)] discovered_by))
    as [IH1 IH2].
  split.
  - intros s p. rewrite IH1.
    destruct (_process_results_one d service_id path resp discovered_by s p) as [H1 _].
    cbn zeta in H1. rewrite H1. cbn [fmap list_fmap fst]. rewrite elem_of_cons. tauto.
  - rewrite IH2.
    destruct (_process_results_one d service_id path resp discovered_by 0 []) as [_ H2].
    cbn zeta in H2. rewrite H2. cbn [List.filter snd].
    destruct (truthy (body resp) && ok resp); cbn [length]; lia.
Qed.
End Ingest.

Lemma startswith_app_same (base s : str) : startswith (base ++ s) base = true.
Proof. induction base as [|b base IH]; [done|]. cbn. by rewrite N.eqb_refl. Qed.

(** X28: a link given with the base URL in front and the same link given
    as a path are normalised to the same path. *)
Theorem _normalize_link_absolute_form (link base_url : str) :
  startswith link (lit "/") = true ->
  startswith base_url (lit "/") = false ->
  _normalize_link (base_url ++ link) base_url = _normalize_link link base_url.
Proof.
  intros Hl Hb. unfold _normalize_link.
  assert (E : (if startswith (base_url ++ link) base_url
               then slice_from (base_url ++ link) (length base_url)
               else base_url ++ link)
              = (if startswith link base_url
                 then slice_from link (length base_url) else link)).
  { rewrite startswith_app_same. unfold slice_from. rewrite drop_app_length.
    destruct base_url as [|b base_url]; [done|].
    destruct link as [|c link]; [done|]. cbn in Hl, Hb |- *.
    destruct (N.eqb_spec b c) as [->|]; [|done].
    destruct (N.eqb _ c); done. }
  by rewrite E.
Qed.

(** A link of the example service, in both forms. *)
Lemma _normalize_link_absolute_form_witness :
  startswith (lit "/users/?page=2") (lit "/") = true
  /\ startswith (lit "http://api.example.com") (lit "/") = false
  /\ _normalize_link (lit "http://api.example.com" ++ lit "/users/?page=2")
       (lit "http://api.example.com")
     = _normalize_link (lit "/users/?page=2") (lit "http://api.example.com").
Proof.
  assert (H1 : startswith (lit "/users/?page=2") (lit "/") = true) by reflexivity.
  assert (H2 : startswith (lit "http://api.example.com") (lit "/") = false)
    by reflexivity.
  split; [exact H1|]. split; [exact H2|].
  exact (_normalize_link_absolute_form _ _ H1 H2).
Defined.

End IngestExtras.

(** ** The requests of a run *)

Module SafetyExtras.
Import Py Json Http Robots Database Discovery Orchestrator.
Import RequestShape FollowShape MethodShape SafetyShape.
#[local] Open Scope client_scope.

Lemma rstrip_idempotent (s : str) (c : codepoint) : rstrip (rstrip s c) c = rstrip s c.
Proof.
  induction s as [|d s IH]; [done|]. cbn [rstrip].
  destruct (rstrip s c) as [|e r] eqn:E.
  - destruct (N.eqb d c) eqn:Ed; [done|]. cbn. by rewrite Ed.
  - cbn [rstrip]. cbn [rstrip] in IH. by rewrite IH.
Qed.

Lemma sends_refl (P : str * str -> Prop) (w : World) : sends P w w.
Proof. exists []. by rewrite app_nil_r. Qed.

Lemma sends_trans (P : str * str -> Prop) (w1 w2 w3 : World) :
  sends P w1 w2 -> sends P w2 w3 -> sends P w1 w3.
Proof.
  intros (l1 & E1 & F1) (l2 & E2 & F2). exists (l1 ++ l2).
  rewrite E2, E1, <- app_assoc. split; [done|]. by apply Forall_app.
Qed.

Lemma sends_same_client (P : str * str -> Prop) (w w' : World) :
  client w' = client w -> sends P w w'.
Proof. intros E. exists []. by rewrite E, app_nil_r. Qed.

Lemma sends_run {A} (P : str * str -> Prop) (m : M A) (w : World) :
  issues P m -> sends P w (world_of (run m w)).
Proof.
  intros Hm. unfold run. destruct (Hm (client w)) as (l & E & F).
  destruct (m (client w)) as [[a|] c]; by exists l.
Qed.

Lemma methods_to_test_safe (skip_destructive : bool) (m : str) :
  m ∈ SAFE_METHODS -> m ∈ methods_to_test skip_destructive.
Proof.
  destruct skip_destructive; [done|]. unfold SAFE_METHODS, ALL_METHODS, methods_to_test.
  cbn. rewrite !elem_of_cons. intros [->|[->|[->|H]]]; [auto..|]. by apply elem_of_nil in H.
Qed.

Lemma permitted_get (config : Config.Config) (base_url path : str) :
  permitted config base_url (lit "GET", base_url ++ path).
Proof.
  split; [|by exists path]. apply methods_to_test_safe. by left.
Qed.

Lemma permitted_head (config : Config.Config) (base_url path : str) :
  permitted config base_url (lit "HEAD", base_url ++ path).
Proof.
  split; [|by exists path]. apply methods_to_test_safe. right. by left.
Qed.

Section Strategies.
Variable transport : Transport.
Variable can_fetch : str -> str -> str -> bool.

Lemma probe_each_permitted (config : Config.Config) (base_url : str)
    (robots_checker : option RobotsChecker) (max_requests : Z) (paths : list str)
    (known : gset str) (results : list (str * HttpResponse)) :
  issues (permitted config base_url)
    (probe_each transport can_fetch base_url robots_checker max_requests paths known
       results).
Proof.
  eapply ProbingExtras.issues_weaken; [|apply ProbingExtras.probe_each_issues].
  intros [m u] ([Hm|Hm] & path & Hu & _); cbn in Hm, Hu; subst.
  - apply permitted_head.
  - apply permitted_get.
Qed.

Lemma test_methods_loop_issues (P : str * str -> Prop) (u : str)
    (methods_to_test : list str) (a : MethodAcc) :
  Forall (fun m => P (m, u)) methods_to_test ->
  issues P (test_methods_loop transport u methods_to_test a).
Proof.
  intros HP. revert a. induction HP as [|m rest Hm _ IH]; intros a;
    cbn [test_methods_loop]; [apply ProbingExtras.issues_ret|].
  apply ProbingExtras.issues_bind; [by apply ProbingExtras.issues_request|].
  intros resp. destruct (test_methods_step m resp a);
    [apply IH|apply ProbingExtras.issues_raise].
Qed.

Lemma test_methods_permitted (config : Config.Config) (base_url path : str) :
  issues (permitted config (rstrip base_url (cp "/")))
    (test_methods transport base_url path (Config.skip_destructive config)).
Proof.
  unfold test_methods.
  apply ProbingExtras.issues_bind; [|intros a; apply ProbingExtras.issues_ret].
  apply test_methods_loop_issues. apply Forall_forall. intros m Hm.
  split; [exact Hm|]. by exists path.
Qed.

Section WithParser.
Variable json_loads : str -> option json.

Lemma detect_openapi_from_permitted (config : Config.Config) (base_url : str)
    (robots_checker : option RobotsChecker) (paths : list str) :
  issues (permitted config base_url)
    (detect_openapi_from transport can_fetch json_loads base_url robots_checker paths).
Proof.
  induction paths as [|path rest IH]; cbn [detect_openapi_from];
    [apply ProbingExtras.issues_ret|].
  destruct (denied _ _ _); [exact IH|].
  apply ProbingExtras.issues_bind;
    [apply ProbingExtras.issues_request, permitted_get|].
  intros resp. destruct (ok resp && truthy (body resp)); [|exact IH].
  destruct (_try_parse_spec _ _) as [spec|]; [|exact IH].
  destruct (json_truthy spec); [apply ProbingExtras.issues_ret|exact IH].
Qed.

Lemma discover_from_responses_permitted (config : Config.Config) (base_url : str)
    (d : Db) (service_id : nat) (robots_checker : option RobotsChecker)
    (known_paths : gset str) (max_depth : nat) :
  issues (permitted config (rstrip base_url (cp "/")))
    (discover_from_responses transport can_fetch json_loads base_url d service_id
       robots_checker known_paths max_depth).
Proof.
  apply ProbingExtras.issues_bind; [|intros [? ?]; apply ProbingExtras.issues_ret].
  eapply ProbingExtras.issues_weaken;
    [|by apply (FollowExtras.discover_rounds_issues transport can_fetch json_loads
                  max_depth (rstrip base_url (cp "/")) d service_id robots_checker
                  known_paths known_paths [])].
  intros [m u] (Hm & path & Hu & _). cbn in Hm, Hu. subst. apply permitted_get.
Qed.
End WithParser.
End Strategies.

Section AnyEnvironment.
Variable transport : Transport.
Variable can_fetch : str -> str -> str -> bool.
Variable parser_crawl_delay : str -> str -> option Z.
Variable json_loads : str -> option json.
Variable re_findall : nat -> str -> list str.
Variable read_lines : str -> option (list str).
Variable fetch_robots : str -> str -> option str.
Variable stop_file_exists : nat -> bool.
Variable utcnow : str.
Variable hostname : str -> option (option str).
Variable extract_endpoints_from_spec : json -> option (list SpecEndpoint).

Lemma sends__check_limits (P : str * str -> Prop) (w : World) (n : Z) :
  sends P w (_check_limits stop_file_exists w n).2.
Proof.
  unfold _check_limits. destruct (_ <=? _)%Z; [apply sends_refl|].
  by apply sends_same_client.
Qed.

Lemma sends_enabled (P : str * str -> Prop) (config : Config.Config) (name : string)
    (w : World) :
  sends P w (enabled stop_file_exists config name w).2.
Proof.
  unfold enabled. destruct (bool_decide _); [|apply sends_refl].
  pose proof (sends__check_limits P w (max_requests config)) as H.
  by destruct (_check_limits _ _ _).
Qed.

Section Phases.
Variable config : Config.Config.
Variable base_url : str.
Hypothesis Hbase : rstrip base_url (cp "/") = base_url.

Lemma sends_phase_openapi (service_name : str) (service_id : nat)
    (robots : option RobotsChecker) (known_paths : gset str) (w : World) :
  sends (permitted config base_url) w
    (world_of
       (phase_openapi transport can_fetch json_loads stop_file_exists utcnow
          extract_endpoints_from_spec config service_name base_url service_id robots
          known_paths w)).
Proof using Hbase.
  unfold phase_openapi.
  pose proof (sends_enabled (permitted config base_url) config "openapi" w) as H0.
  destruct (enabled _ _ _ _) as [go w0]. cbn [snd] in H0.
  destruct go; [|exact H0].
  assert (Hm : issues (permitted config base_url)
                 (detect_openapi transport can_fetch json_loads base_url robots)).
  { unfold detect_openapi. rewrite Hbase. apply detect_openapi_from_permitted. }
  pose proof (sends_run _ _ w0 Hm) as H1.
  destruct (run _ w0) as [detected w1|w1]; cbn [world_of] in H1;
    pose proof (sends_trans _ _ _ _ H0 H1) as H01; [|exact H01].
  destruct detected as [[spec_url spec]|]; [|exact H01].
  destruct (extract_endpoints_from_spec spec) as [spec_endpoints|]; [|exact H01].
  destruct (store_spec_endpoints _ _ _ _) as [d2 known2].
  destruct (spec_metadata spec_url spec) as [meta|]; [|exact H01].
  destruct (upsert_service _ _ _ _ _ _ _ _) as [sid d3]. exact H01.
Qed.

Lemma sends_phase_wordlist (service_id : nat) (robots : option RobotsChecker)
    (known_paths : gset str) (w : World) :
  sends (permitted config base_url) w
    (world_of
       (phase_wordlist transport can_fetch json_loads read_lines stop_file_exists config
          base_url service_id robots known_paths w)).
Proof using Hbase.
  unfold phase_wordlist.
  pose proof (sends_enabled (permitted config base_url) config "wordlist" w) as H0.
  destruct (enabled _ _ _ _) as [go w0]. cbn [snd] in H0.
  destruct go; [|exact H0].
  assert (Hm : issues (permitted config base_url)
                 (probe_wordlist transport can_fetch read_lines base_url
                    (Config.wordlists config) robots known_paths (max_requests config))).
  { unfold probe_wordlist. rewrite Hbase.
    apply ProbingExtras.issues_bind; [apply probe_each_permitted|].
    intros [? ?]. apply ProbingExtras.issues_ret. }
  pose proof (sends_run _ _ w0 Hm) as H1.
  destruct (run _ w0) as [[results known] w1|w1]; cbn [world_of] in *;
    (eapply sends_trans; [exact H0|exact H1]).
Qed.

Lemma sends_phase_pattern (service_id : nat) (robots : option RobotsChecker)
    (known_paths : gset str) (w : World) :
  sends (permitted config base_url) w
    (world_of
       (phase_pattern transport can_fetch json_loads stop_file_exists config base_url
          service_id robots known_paths w)).
Proof using Hbase.
  unfold phase_pattern.
  pose proof (sends_enabled (permitted config base_url) config "pattern" w) as H0.
  destruct (enabled _ _ _ _) as [go w0]. cbn [snd] in H0.
  destruct go; [|exact H0].
  assert (Hm : issues (permitted config base_url)
                 (probe_patterns transport can_fetch base_url config robots known_paths
                    (max_requests config))).
  { unfold probe_patterns. rewrite Hbase.
    apply ProbingExtras.issues_bind; [apply probe_each_permitted|].
    intros [? ?]. apply ProbingExtras.issues_ret. }
  pose proof (sends_run _ _ w0 Hm) as H1.
  destruct (run _ w0) as [[results known] w1|w1]; cbn [world_of] in *;
    (eapply sends_trans; [exact H0|exact H1]).
Qed.

Lemma sends_phase_response_driven (service_id : nat) (robots : option RobotsChecker)
    (known_paths : gset str) (w : World) :
  sends (permitted config base_url) w
    (world_of
       (phase_response_driven transport can_fetch json_loads stop_file_exists config
          base_url service_id robots known_paths w)).
Proof using Hbase.
  unfold phase_response_driven.
  pose proof (sends_enabled (permitted config base_url) config "response_driven" w)
    as H0.
  destruct (enabled _ _ _ _) as [go w0]. cbn [snd] in H0.
  destruct go; [|exact H0].
  pose proof (discover_from_responses_permitted transport can_fetch json_loads config
                base_url (db w0) service_id robots known_paths (Config.max_depth config))
    as Hm.
  rewrite Hbase in Hm.
  pose proof (sends_run _ _ w0 Hm) as H1.
  destruct (run _ w0) as [[results known] w1|w1]; cbn [world_of] in *;
    (eapply sends_trans; [exact H0|exact H1]).
Qed.

Lemma sends_method_testing (service_id : nat) (endpoints : list EndpointRow) (w : World) :
  sends (permitted config base_url) w
    (world_of
       (method_testing transport stop_file_exists config base_url service_id
          endpoints w)).
Proof using Hbase.
  revert w. induction endpoints as [|ep rest IH]; intros w; [apply sends_refl|].
  cbn [method_testing].
  pose proof (sends__check_limits (permitted config base_url) w (max_requests config))
    as H0.
  destruct (_check_limits _ _ _) as [stop w0]. cbn [snd] in H0.
  destruct stop; [exact H0|].
  pose proof (test_methods_permitted transport config base_url (ep_path ep)) as Hm.
  rewrite Hbase in Hm.
  pose proof (sends_run _ _ w0 Hm) as H1.
  destruct (run _ w0) as [method_info w1|w1]; cbn [world_of] in H1;
    [|by eapply sends_trans].
  destruct (upsert_endpoint _ _ _ _ _ _ _ _ _) as [ep_id d2].
  eapply sends_trans; [exact H0|]. eapply sends_trans; [exact H1|].
  eapply sends_trans; [|apply IH]. by apply sends_same_client.
Qed.

Lemma sends_schema_extraction (endpoints : list EndpointRow) (w : World) :
  sends (permitted config base_url) w
    (world_of
       (schema_extraction transport json_loads re_findall stop_file_exists config
          base_url endpoints w)).
Proof.
  revert w. induction endpoints as [|ep rest IH]; intros w; [apply sends_refl|].
  cbn [schema_extraction].
  pose proof (sends__check_limits (permitted config base_url) w (max_requests config))
    as H0.
  destruct (_check_limits _ _ _) as [stop w0]. cbn [snd] in H0.
  destruct stop; [exact H0|].
  destruct (negb _); [by eapply sends_trans; [exact H0|apply IH]|].
  pose proof (sends_run (permitted config base_url)
                (get transport (base_url ++ ep_path ep)) w0
                (ProbingExtras.issues_request _ transport _ _
                   (permitted_get config base_url (ep_path ep)))) as H1.
  destruct (run _ w0) as [resp w1|w1]; cbn [world_of] in H1;
    pose proof (sends_trans _ _ _ _ H0 H1) as H01; [|exact H01].
  destruct (ok resp && truthy (body resp)).
  - destruct (json_truthy _); [|by eapply sends_trans; [exact H01|apply IH]].
    eapply sends_trans; [exact H01|]. eapply sends_trans; [|apply IH].
    by apply sends_same_client.
  - destruct (_ && _); [|by eapply sends_trans; [exact H01|apply IH]].
    eapply sends_trans; [exact H01|]. eapply sends_trans; [|apply IH].
    by apply sends_same_client.
Qed.

Lemma sends_phase_methods (service_id : nat) (w : World) :
  sends (permitted config base_url) w
    (world_of (phase_methods transport stop_file_exists config base_url service_id w)).
Proof using Hbase.
  unfold phase_methods.
  pose proof (sends__check_limits (permitted config base_url) w (max_requests config))
    as H0.
  destruct (_check_limits _ _ _) as [stop w0]. cbn [snd] in H0.
  destruct stop; [exact H0|].
  eapply sends_trans; [exact H0|apply sends_method_testing].
Qed.

Lemma sends_phase_schema (service_id : nat) (w : World) :
  sends (permitted config base_url) w
    (world_of
       (phase_schema transport json_loads re_findall stop_file_exists config base_url
          service_id w)).
Proof.
  unfold phase_schema.
  pose proof (sends__check_limits (permitted config base_url) w (max_requests config))
    as H0.
  destruct (_check_limits _ _ _) as [stop w0]. cbn [snd] in H0.
  destruct stop; [exact H0|].
  eapply sends_trans; [exact H0|apply sends_schema_extraction].
Qed.

Lemma sends_phases (service_name : str) (service_id : nat)
    (robots : option RobotsChecker) (run : nat) (known_paths : gset str) (w : World) :
  sends (permitted config base_url) w
    (phases transport can_fetch json_loads re_findall read_lines stop_file_exists utcnow
       extract_endpoints_from_spec config service_name base_url service_id robots run
       known_paths w).2.
Proof using Hbase.
  unfold phases.
  pose proof (sends_phase_openapi service_name service_id robots known_paths w) as H1.
  destruct (phase_openapi _ _ _ _ _ _ _ _ _ _ _ _ _) as [known1 w1|w1];
    cbn [world_of and_then snd] in *; [|exact H1].
  pose proof (sends_phase_wordlist service_id robots known1 w1) as H2.
  destruct (phase_wordlist _ _ _ _ _ _ _ _ _ _ _) as [known2 w2|w2];
    cbn [world_of and_then snd] in *;
    pose proof (sends_trans _ _ _ _ H1 H2) as H12; [|exact H12].
  pose proof (sends_phase_pattern service_id robots known2 w2) as H3.
  destruct (phase_pattern _ _ _ _ _ _ _ _ _ _) as [known3 w3|w3];
    cbn [world_of and_then snd] in *;
    pose proof (sends_trans _ _ _ _ H12 H3) as H13; [|exact H13].
  pose proof (sends_phase_methods service_id w3) as H4.
  destruct (phase_methods _ _ _ _ _ w3) as [[] w4|w4];
    cbn [world_of and_then snd] in *;
    pose proof (sends_trans _ _ _ _ H13 H4) as H14; [|exact H14].
  pose proof (sends_phase_schema service_id w4) as H5.
  destruct (phase_schema _ _ _ _ _ _ _ w4) as [[] w5|w5];
    cbn [world_of and_then snd] in *;
    pose proof (sends_trans _ _ _ _ H14 H5) as H15; [|exact H15].
  pose proof (sends_phase_response_driven service_id robots known3 w5) as H6.
  destruct (phase_response_driven _ _ _ _ _ _ _ _ _ _) as [known6 w6|w6];
    cbn [world_of and_then snd] in *;
    pose proof (sends_trans _ _ _ _ H15 H6) as H16; [|exact H16].
  unfold finish. cbn [snd].
  eapply sends_trans; [exact H16|]. by apply sends_same_client.
Qed.
End Phases.

(** X29: the requests [probe] makes through its client are all for the
    URL it was given, without trailing slashes, followed by a path, and
    their methods are [GET], [HEAD] and [OPTIONS] only, unless
    [skip_destructive] is off, when they are methods of [ALL_METHODS]. *)
Theorem probe_sends_permitted_requests (config : Config.Config) (u : str) (w : World) :
  sends (permitted config (rstrip u (cp "/"))) w
    (probe transport can_fetch parser_crawl_delay json_loads re_findall read_lines
       fetch_robots stop_file_exists utcnow hostname extract_endpoints_from_spec
       config u w).2.
Proof.
  unfold probe, _derive_service_name.
  set (base_url := rstrip u (cp "/")).
  assert (Hbase : rstrip base_url (cp "/") = base_url) by apply rstrip_idempotent.
  destruct (hostname base_url) as [parsed|]; [|apply sends_refl].
  set (service_name := if (2 <=? _)%nat then _ else _).
  unfold start.
  destruct (upsert_service _ _ _ _ _ _ _ _) as [service_id d0].
  unfold create_probe_run. cbn [fst snd].
  set (d1 := with_probe_runs d0 _ _).
  pose proof (HaltExtras.load_robots_findings parser_crawl_delay fetch_robots utcnow
                config service_name base_url (with_db w d1)) as (I1 & _ & _).
  cbn zeta in I1.
  destruct (load_robots _ _ _ _ _ _ _) as [robots w1]. cbn [snd] in I1.
  cbn [with_db client] in I1.
  assert (H1 : sends (permitted config base_url) w w1).
  { exists []. by rewrite I1, app_nil_r. }
  pose proof (sends_run (permitted config base_url) (get transport base_url) w1) as H2.
  assert (H12 : sends (permitted config base_url) w
                  (world_of (run (get transport base_url) w1))).
  { eapply sends_trans; [exact H1|]. apply H2.
    apply ProbingExtras.issues_request.
    rewrite <- (app_nil_r base_url) at 2. apply permitted_get. }
  clear H2.
  destruct (run _ w1) as [base_resp w2|w2]; cbn [world_of and_then snd] in *;
    [|exact H12].
  destruct (0 <? status_code base_resp)%Z.
  - set (w3 := if truthy _ then _ else w2).
    assert (H3 : sends (permitted config base_url) w w3).
    { unfold w3. destruct (truthy _); [|exact H12].
      eapply sends_trans; [exact H12|]. by apply sends_same_client. }
    eapply sends_trans; [exact H3|]. by apply sends_phases.
  - cbn [snd]. eapply sends_trans; [exact H12|]. by apply sends_same_client.
Qed.

End AnyEnvironment.

End SafetyExtras.

(** ** Merging configurations *)

Module ConfigExtras.
Import Py Json ConfigMerge.

Lemma _deep_merge_cons (base : list (str * json)) (item : str * json)
    (rest : list (str * json)) :
  _deep_merge base (item :: rest) = _deep_merge (merge_item base item) rest.
Proof.
  destruct item as [key value]. unfold _deep_merge, merge_item. cbn [merge_into fst snd].
  by destruct (dict_get base key) as [[]|], value.
Qed.

Lemma dict_get_set {V} (d : list (str * V)) (k k' : str) (v : V) :
  dict_get (dict_set d k v) k' = if decide (k = k') then Some v else dict_get d k'.
Proof.
  induction d as [|[k0 v0] d IH]; cbn.
  - by destruct (decide (k = k')).
  - destruct (decide (k0 = k)) as [->|Hne]; cbn.
    + by destruct (decide (k = k')).
    + rewrite IH. destruct (decide (k0 = k')) as [->|]; [|done].
      by destruct (decide (k = k')).
Qed.

Lemma dict_get_merge_item (base : list (str * json)) (item : str * json) (key : str) :
  dict_get (merge_item base item) key
  = if decide (item.1 = key) then Some (merged_value (dict_get base item.1) item.2)
    else dict_get base key.
Proof.
  unfold merge_item, merged_value.
  by destruct (dict_get base item.1) as [[]|], item.2; rewrite dict_get_set.
Qed.

Lemma dict_get_absent {V} (d : list (str * V)) (k : str) :
  k ∉ d.*1 -> dict_get d k = None.
Proof.
  induction d as [|[k0 v0] d IH]; [done|]. cbn. intros Hk.
  apply not_elem_of_cons in Hk as [Hne Hk]. destruct (decide (k0 = k)); [done|]. auto.
Qed.

(** X30: after [_deep_merge(base, override)] a key that [override] does
    not have has its value of [base]; a key that it has holds the value of
    [override], but when both values are mappings it holds their merge. *)
Theorem _deep_merge_lookup (base override : list (str * json)) (key : str) :
  NoDup override.*1 ->
  dict_get (_deep_merge base override) key
  = match dict_get override key with
    | Some value => Some (merged_value (dict_get base key) value)
    | None => dict_get base key
    end.
Proof.
  revert base. induction override as [|[k v] rest IH]; intros base Hnd; [done|].
  cbn in Hnd. apply NoDup_cons in Hnd as [Hk Hnd].
  rewrite _deep_merge_cons, IH by done. rewrite dict_get_merge_item. cbn [fst snd dict_get].
  destruct (decide (k = key)) as [->|Hne]; [|done].
  by rewrite dict_get_absent.
Qed.

(** The credentials of the example file are merged into the defaults, key
    by key. *)
Lemma _deep_merge_lookup_witness :
  NoDup example_file.*1
  /\ dict_get (_deep_merge example_defaults example_file) (lit "auth")
     = Some (JObj [(lit "type", JStr (lit "none")); (lit "value", JStr (lit "secret"))]).
Proof.
  assert (H : NoDup example_file.*1).
  { apply (bool_decide_unpack _). by vm_compute. }
  split; [exact H|].
  etrans; [exact (_deep_merge_lookup example_defaults example_file (lit "auth") H)|].
  by vm_compute.
Defined.

End ConfigExtras.
